(** * The document-processing pipeline: a shallow embedding

    The pipeline is written in TypeScript (Deno edge functions) and PL/pgSQL.
    The first part of this development embeds the parts of it that the
    specification makes claims about:

    - [JS]        the fragment of the JavaScript runtime the functions use
                  (strings of UTF-16 code units, [RegExp], [Array.prototype.sort]);
    - [Double]    its Numbers, where their rounding matters;
    - [JobQueue]  [enqueue_job], [get_next_job] in its two definitions and
                  [complete_job] (PL/pgSQL);
    - [Cache]     [cleanup_old_cache] (PL/pgSQL) and [CacheManager.cleanup];
    - [Enhance]   [updateBookEnhancementStatus];
    - [Detect]    the chapter boundary detector: its four strategies, the
                  fallback chunker, selection and boundary optimization;
    - [Extract]   [extractTextWithProgress] and [cleanupExtractedText];
    - [Store]     the chapter store.

    and the code around these parts:

    - [JobTrace]       sequences of calls of the job queue;
    - [CacheStore]     [store_cached_result] and [get_cached_result];
    - [Progress]       [update_processing_progress];
    - [EnhanceTrigger] the trigger [update_book_enhancement_status];
    - [Batches]        [insertChaptersInBatches] and [enqueueEnhancementJobs];
    - [FileName]       [sanitizeFileName];
    - [Quotes]         [extractPotentialQuotes];
    - [EnhanceAI]      [enhanceChapterWithAI] and [enhanceChaptersWithRateLimit];
    - [StatusReport]   [buildStageStatuses].

    The second part states and proves the properties, one module of facts
    for each of these, and ends with the scenarios of the specification
    run on the embedding.

    Conventions.  JavaScript integers (offsets, lengths) are [Z] or [nat];
    counts are [nat]; the confidences and strengths of the detector are
    exact rationals [Q]; the scores of selection, whose order decides the
    result, are doubles ([Double]), with their rounding, their infinities
    and their [NaN].  SQL tables are lists of rows in
    storage order; a nullable column is an [option]; the clock is an
    argument. *)

From Stdlib Require Import Strings.Ascii Strings.String Numbers.DecimalString.
From Stdlib Require Import ZArith NArith QArith Qround Qminmax Qabs Qpower.
From Stdlib Require Import Lia Lqa Bool Arith List.
From Stdlib Require Import Sorting.Permutation Sorting.Sorted.
Import ListNotations.

Set Warnings "-abstract-large-number".

Close Scope Q_scope.
Close Scope string_scope.
Open Scope nat_scope.
Open Scope list_scope.

(* ================================================================== *)
(** * The JavaScript runtime fragment *)
(* ================================================================== *)

Module JS.

(** A string is a sequence of UTF-16 code units. *)
Definition char := N.
Definition str := list char.

(** A string literal of the source (ASCII). *)
Definition lit (s : String.string) : str :=
  map N_of_ascii (list_ascii_of_string s).

Definition LF : char := 10%N.
Definition FF : char := 12%N.

(** LineTerminator: LF, CR, LS, PS. *)
Definition isLineTerminator (c : char) : bool :=
  ((c =? 10) || (c =? 13) || (c =? 8232) || (c =? 8233))%N.

(** WhiteSpace and LineTerminator: what [\s] matches and [trim] strips. *)
Definition isSpace (c : char) : bool :=
  (((9 <=? c) && (c <=? 13)) || (c =? 32) || (c =? 160) || (c =? 5760)
   || ((8192 <=? c) && (c <=? 8202)) || (c =? 8232) || (c =? 8233)
   || (c =? 8239) || (c =? 8287) || (c =? 12288) || (c =? 65279))%N.

Definition isDigit (c : char) : bool := ((48 <=? c) && (c <=? 57))%N.
Definition isUpper (c : char) : bool := ((65 <=? c) && (c <=? 90))%N.
Definition isLower (c : char) : bool := ((97 <=? c) && (c <=? 122))%N.

Definition toUpperAscii (c : char) : char := if isLower c then (c - 32)%N else c.
Definition toLowerAscii (c : char) : char := if isUpper c then (c + 32)%N else c.

(** ** String.prototype *)

Fixpoint trimStart (s : str) : str :=
  match s with
  | [] => []
  | c :: s' => if isSpace c then trimStart s' else s
  end.

Definition trimEnd (s : str) : str := rev (trimStart (rev s)).

Definition trim (s : str) : str := trimEnd (trimStart s).

(** [substring(a, b)]: both arguments are clamped to [[0, length]] and
    swapped when out of order. *)
Definition clampIndex (len : nat) (i : Z) : nat :=
  Z.to_nat (Z.min (Z.max i 0) (Z.of_nat len)).

Definition substring (s : str) (a b : Z) : str :=
  let x := clampIndex (length s) a in
  let y := clampIndex (length s) b in
  firstn (Nat.max x y - Nat.min x y) (skipn (Nat.min x y) s).

(** [substring(a)] *)
Definition substringFrom (s : str) (a : Z) : str :=
  substring s a (Z.of_nat (length s)).

Fixpoint isPrefix (p s : str) : bool :=
  match p, s with
  | [], _ => true
  | _ :: _, [] => false
  | a :: p', b :: s' => (a =? b)%N && isPrefix p' s'
  end.

Fixpoint indexOfFrom (s pat : str) (i : nat) : option nat :=
  if isPrefix pat s then Some i
  else match s with
       | [] => None
       | _ :: s' => indexOfFrom s' pat (S i)
       end.

(** [indexOf(pat)]: the first occurrence, or -1. *)
Definition indexOf (s pat : str) : Z :=
  match indexOfFrom s pat 0 with
  | Some i => Z.of_nat i
  | None => (-1)%Z
  end.

Definition includes (s pat : str) : bool := (0 <=? indexOf s pat)%Z.

(** [split(sep)] for a one-character string separator. *)
Fixpoint splitOn (sep : char) (s : str) : list str :=
  match s with
  | [] => [[]]
  | c :: s' =>
      if (c =? sep)%N then [] :: splitOn sep s'
      else match splitOn sep s' with
           | h :: t => (c :: h) :: t
           | [] => [[c]]
           end
  end.

(** [Array.prototype.join(sep)] *)
Fixpoint join (sep : str) (l : list str) : str :=
  match l with
  | [] => []
  | [x] => x
  | x :: l' => x ++ sep ++ join sep l'
  end.

(** [Array.prototype.slice(a, b)] for [0 <= a <= b]. *)
Definition slice {A : Type} (l : list A) (a b : nat) : list A :=
  firstn (b - a) (skipn a l).

(** [toLowerCase], as far as a search for an ASCII text can tell: the
    ASCII capitals, the Kelvin sign (to [k]) and the dotted capital I (to
    [i] and a combining dot) are the code units whose lower-case form
    holds an ASCII letter; every other one stays outside ASCII and is
    left as it is. *)
Definition lowerUnit (c : char) : str :=
  if (c =? 8490)%N then [107%N]
  else if (c =? 304)%N then [105%N; 775%N]
  else [toLowerAscii c].

Definition toLowerCase (s : str) : str := flat_map lowerUnit s.

(** Template-literal rendering of a non-negative integer. *)
Definition showNat (n : nat) : str :=
  lit (NilEmpty.string_of_uint (Nat.to_uint n)).

(** ** RegExp

    A backtracking matcher in continuation-passing style, after the
    ECMAScript pattern semantics: alternatives are tried left to right,
    quantifiers are greedy, an iteration of a quantifier that has reached
    its minimum and consumes nothing is rejected, and the captures inside
    a quantified atom are reset at the start of each iteration. *)

Record flags := Flags { ignoreCase : bool; multiline : bool }.

Inductive regex :=
| Eps
| Cls (cs : char -> bool)                          (* one character of a class *)
| Seq (r1 r2 : regex)
| Alt (r1 r2 : regex)
| Rep (mn : nat) (mx : option nat) (r : regex)     (* r{mn,mx}, greedy *)
| Group (n : nat) (r : regex)                      (* capturing group n *)
| Bol                                              (* ^ *)
| Eol.                                             (* $ *)

Definition star := Rep 0 None.
Definition plus := Rep 1 None.
Definition opt := Rep 0 (Some 1).
Definition atLeast (n : nat) := Rep n None.
Definition between (a b : nat) := Rep a (Some b).

Definition chr (c : char) : regex := Cls (N.eqb c).
Definition oneOf (s : String.string) : regex :=
  Cls (fun c => existsb (N.eqb c) (lit s)).
(** [.] matches anything but a line terminator. *)
Definition dot : regex := Cls (fun c => negb (isLineTerminator c)).

Fixpoint seqs (l : list regex) : regex :=
  match l with
  | [] => Eps
  | [r] => r
  | r :: l' => Seq r (seqs l')
  end.

Fixpoint alts (l : list regex) : regex :=
  match l with
  | [] => Eps
  | [r] => r
  | r :: l' => Alt r (alts l')
  end.

Definition word (s : String.string) : regex := seqs (map chr (lit s)).

Fixpoint groups (r : regex) : list nat :=
  match r with
  | Seq r1 r2 | Alt r1 r2 => groups r1 ++ groups r2
  | Rep _ _ r' => groups r'
  | Group n r' => n :: groups r'
  | _ => []
  end.

(** Captures: group number to the span it matched. *)
Definition caps := list (nat * (nat * nat)).

Definition clearCaps (gs : list nat) (c : caps) : caps :=
  filter (fun e => negb (existsb (Nat.eqb (fst e)) gs)) c.

Fixpoint lookupCap (c : caps) (n : nat) : option (nat * nat) :=
  match c with
  | [] => None
  | (k, sp) :: c' => if k =? n then Some sp else lookupCap c' n
  end.

Definition cont := nat -> caps -> option (nat * caps).
Definition matcher := nat -> caps -> cont -> option (nat * caps).

(** RepeatMatcher.  Each call lowers [mn] or moves the position forward, so
    [mn + length s + 2] units of fuel are never used up. *)
Fixpoint repeatMatcher (m : matcher) (gs : list nat) (fuel mn : nat)
    (mx : option nat) (i : nat) (c : caps) (k : cont) : option (nat * caps) :=
  match fuel with
  | O => None
  | S fuel' =>
      match mx with
      | Some O => k i c
      | _ =>
          let d : cont := fun j c' =>
            if (mn =? 0) && (j =? i) then None
            else repeatMatcher m gs fuel' (pred mn) (option_map pred mx) j c' k in
          if 0 <? mn then m i (clearCaps gs c) d
          else match m i (clearCaps gs c) d with
               | Some res => Some res
               | None => k i c
               end
      end
  end.

Section Matching.

Variable fl : flags.
Variable s : str.

(** With the [i] flag two code units match when they canonicalize to the
    same one; the classes used in the sources hold ASCII letters, digits,
    punctuation and white space, for which canonicalization is ASCII case
    folding. *)
Definition inClass (cs : char -> bool) (c : char) : bool :=
  if ignoreCase fl then cs c || cs (toUpperAscii c) || cs (toLowerAscii c)
  else cs c.

Definition atLineStart (i : nat) : bool :=
  (i =? 0) ||
  (multiline fl && match nth_error s (i - 1) with
                   | Some c => isLineTerminator c
                   | None => false
                   end).

Definition atLineEnd (i : nat) : bool :=
  (i =? length s) ||
  (multiline fl && match nth_error s i with
                   | Some c => isLineTerminator c
                   | None => false
                   end).

Fixpoint matchRegex (r : regex) (i : nat) (c : caps) (k : cont)
    : option (nat * caps) :=
  match r with
  | Eps => k i c
  | Cls cs =>
      match nth_error s i with
      | Some ch => if inClass cs ch then k (S i) c else None
      | None => None
      end
  | Seq r1 r2 => matchRegex r1 i c (fun j c' => matchRegex r2 j c' k)
  | Alt r1 r2 =>
      match matchRegex r1 i c k with
      | Some res => Some res
      | None => matchRegex r2 i c k
      end
  | Rep mn mx r' =>
      repeatMatcher (matchRegex r') (groups r') (mn + length s + 2) mn mx i c k
  | Group n r' => matchRegex r' i c (fun j c' => k j ((n, (i, j)) :: c'))
  | Bol => if atLineStart i then k i c else None
  | Eol => if atLineEnd i then k i c else None
  end.

(** A match that starts exactly at [i] (the sticky match [split] uses). *)
Definition matchAt (r : regex) (i : nat) : option (nat * caps) :=
  matchRegex r i [] (fun j c => Some (j, c)).

Fixpoint searchFrom (r : regex) (fuel i : nat) : option (nat * nat * caps) :=
  match matchAt r i with
  | Some (j, c) => Some (i, j, c)
  | None =>
      match fuel with
      | O => None
      | S fuel' => searchFrom r fuel' (S i)
      end
  end.

(** [exec] with the given [lastIndex]: the leftmost match at or after it,
    as (start, end, captures). *)
Definition exec (r : regex) (lastIndex : nat) : option (nat * nat * caps) :=
  if length s <? lastIndex then None
  else searchFrom r (length s - lastIndex) lastIndex.

(** [test] and the truthiness of [match] without the [g] flag. *)
Definition test (r : regex) : bool :=
  match exec r 0 with Some _ => true | None => false end.

(** The text of capture [n]; [None] is [undefined]. *)
Definition capture (c : caps) (n : nat) : option str :=
  match lookupCap c n with
  | Some (a, b) => Some (firstn (b - a) (skipn a s))
  | None => None
  end.

(** The matches a global [replace] collects: after an empty match the
    search resumes one code unit further. *)
Fixpoint allMatches (r : regex) (fuel lastIndex : nat) : list (nat * nat) :=
  match fuel with
  | O => []
  | S fuel' =>
      match exec r lastIndex with
      | None => []
      | Some (st, en, _) =>
          (st, en) :: allMatches r fuel' (if en =? st then S en else en)
      end
  end.

Fixpoint buildReplace (ms : list (nat * nat)) (repl : str) (next : nat) : str :=
  match ms with
  | [] => skipn next s
  | (st, en) :: ms' =>
      if next <=? st
      then firstn (st - next) (skipn next s) ++ repl ++ buildReplace ms' repl en
      else buildReplace ms' repl next
  end.

(** [replace(/r/g, repl)] for a replacement text without [$] patterns. *)
Definition replaceAll (r : regex) (repl : str) : str :=
  buildReplace (allMatches r (length s + 2) 0) repl 0.

(** [split(/r/)] for a pattern without capturing groups. *)
Fixpoint splitLoop (r : regex) (fuel p q : nat) : list str :=
  match fuel with
  | O => [skipn p s]
  | S fuel' =>
      if length s <=? q then [skipn p s]
      else match matchAt r q with
           | None => splitLoop r fuel' p (S q)
           | Some (e, _) =>
               let e := Nat.min e (length s) in
               if e =? p then splitLoop r fuel' p (S q)
               else firstn (q - p) (skipn p s) :: splitLoop r fuel' e e
           end
  end.

Definition split (r : regex) : list str :=
  if length s =? 0
  then match matchAt r 0 with Some _ => [] | None => [s] end
  else splitLoop r (2 * length s + 2) 0 0.

End Matching.

Definition noFlags := Flags false false.

(** [/\s+/] and [/[.!?]+/], the two separators the pipeline splits on. *)
Definition reSpaces : regex := plus (Cls isSpace).
Definition reSentenceEnd : regex := plus (oneOf ".!?").

Definition splitSpaces (s : str) : list str := split noFlags s reSpaces.
Definition splitSentences (s : str) : list str := split noFlags s reSentenceEnd.

(** ** Control

    A returned value or a thrown [Error] with its message, and an element
    of what [Promise.allSettled] resolves to. *)
Inductive outcome (A : Type) :=
| returns (value : A)
| throws (message : str).
Arguments returns {A} value.
Arguments throws {A} message.

Inductive settled (A : Type) :=
| fulfilled (value : A)
| rejected.
Arguments fulfilled {A} value.
Arguments rejected {A}.

(** ** Array.prototype.sort

    The sort is stable, and for a consistent comparator every stable sort
    returns the same array; it is modelled as an insertion sort.
    [cmpLe a b] says that the comparator returned a value [<= 0] on
    [(a, b)]. *)
Fixpoint insertBy {A : Type} (cmpLe : A -> A -> bool) (x : A) (l : list A) : list A :=
  match l with
  | [] => [x]
  | y :: l' => if cmpLe x y then x :: l else y :: insertBy cmpLe x l'
  end.

Definition sortBy {A : Type} (cmpLe : A -> A -> bool) (l : list A) : list A :=
  fold_right (insertBy cmpLe) [] l.

End JS.

(* ================================================================== *)
(** * The Numbers of the runtime *)
(* ================================================================== *)

Module Double.

(** A Number of the runtime: an IEEE-754 double.  A finite one is the
    rational it stands for; the sign of a zero is left out, which no
    operation below can tell as long as a zero divisor is [+0]. *)
Inductive t :=
| NaN
| Infinity (negative : bool)
| Finite (q : Q).

(** [floor (log2 a)] of a positive rational. *)
Definition flog2 (a : Q) : Z :=
  let k := (Z.log2 (Qnum a) - Z.log2 (Zpos (Qden a)))%Z in
  if Qle_bool (2 ^ k)%Q a then k else (k - 1)%Z.

(** The nearest integer, the even one of two that are as near. *)
Definition nearestEven (x : Q) : Z :=
  let f := Qfloor x in
  match (x - inject_Z f ?= 1 # 2)%Q with
  | Lt => f
  | Gt => (f + 1)%Z
  | Eq => if Z.even f then f else (f + 1)%Z
  end.

(** Rounding to the nearest double: 53 significant bits, the exponent of
    the last bit at least -1074, and infinity from 2^1024 on. *)
Definition round (q : Q) : t :=
  if Qeq_bool q 0 then Finite 0
  else
    let a := Qabs q in
    let e := Z.max (flog2 a - 52) (-1074) in
    let v := (inject_Z (nearestEven (a / 2 ^ e)) * 2 ^ e)%Q in
    if Qle_bool (2 ^ 1024)%Q v then Infinity (Qle_bool q 0)
    else Finite (Qred (if Qle_bool q 0 then - v else v)%Q).

(** A count, and a number that the model holds as a rational (a decimal
    literal of the source, the confidence of a result): the double
    nearest to it. *)
Definition ofNat (n : nat) : t := round (inject_Z (Z.of_nat n)).

Definition ofQ (q : Q) : t := round q.

Definition opp (x : t) : t :=
  match x with
  | NaN => NaN
  | Infinity s => Infinity (negb s)
  | Finite q => Finite (Qred (- q)%Q)
  end.

Definition add (x y : t) : t :=
  match x, y with
  | NaN, _ | _, NaN => NaN
  | Infinity s, Infinity s' => if Bool.eqb s s' then Infinity s else NaN
  | Infinity s, Finite _ | Finite _, Infinity s => Infinity s
  | Finite a, Finite b => round (a + b)%Q
  end.

Definition sub (x y : t) : t := add x (opp y).

Definition mul (x y : t) : t :=
  match x, y with
  | NaN, _ | _, NaN => NaN
  | Infinity s, Infinity s' => Infinity (xorb s s')
  | Infinity s, Finite q | Finite q, Infinity s =>
      if Qeq_bool q 0 then NaN else Infinity (xorb s (Qle_bool q 0))
  | Finite a, Finite b => round (a * b)%Q
  end.

(** A zero divisor is taken to be [+0]. *)
Definition div (x y : t) : t :=
  match x, y with
  | NaN, _ | _, NaN => NaN
  | Infinity _, Infinity _ => NaN
  | Infinity s, Finite q => Infinity (xorb s (negb (Qle_bool 0 q)))
  | Finite _, Infinity _ => Finite 0
  | Finite a, Finite b =>
      if Qeq_bool b 0
      then (if Qeq_bool a 0 then NaN else Infinity (Qle_bool a 0))
      else round (a / b)%Q
  end.

(** [x <= y]; false when either is [NaN]. *)
Definition leb (x y : t) : bool :=
  match x, y with
  | NaN, _ | _, NaN => false
  | Infinity true, _ => true
  | _, Infinity false => true
  | Infinity false, _ => false
  | _, Infinity true => false
  | Finite a, Finite b => Qle_bool a b
  end.

(** [Math.max] *)
Definition max (x y : t) : t :=
  match x, y with
  | NaN, _ | _, NaN => NaN
  | _, _ => if leb x y then y else x
  end.


End Double.

(* ================================================================== *)
(** * The job queue (PL/pgSQL) *)
(* ================================================================== *)

Module JobQueue.

(** [processing_jobs.status] and [processing_jobs.job_type], by their
    CHECK constraints. *)
Inductive jobStatus := pending | running | completed | failed | retrying.
Inductive jobType := extract_text | detect_chapters | store_chapters | enhance_chapters.

Definition jobStatus_eqb (a b : jobStatus) : bool :=
  match a, b with
  | pending, pending | running, running | completed, completed
  | failed, failed | retrying, retrying => true
  | _, _ => false
  end.

(** A row of [processing_jobs], with the columns that [get_next_job]
    reads, writes or returns ([complete_job] also writes the output, the
    error message and the completion time, which are left out).  [id] is
    the primary key; timestamps are seconds; [retry_count], [max_retries]
    and [depends_on_job] are nullable. *)
Record job := Job {
  id : N;
  book_id : N;
  job_type : jobType;
  status : jobStatus;
  priority : Z;
  input_data : JS.str;
  retry_count : option Z;
  max_retries : option Z;
  depends_on_job : option N;
  started_at : option Z;
  created_at : Z;
  updated_at : Z
}.

Definition table := list job.

(** SQL comparison of two nullable integers: unknown when either is NULL;
    a WHERE clause keeps a row only when its condition is true. *)
Definition sqlLt (a b : option Z) : option bool :=
  match a, b with
  | Some x, Some y => Some (x <? y)%Z
  | _, _ => None
  end.

Definition isTrue (b : option bool) : bool :=
  match b with Some true => true | _ => false end.

(** [enqueue_job]: the new row takes the column defaults. *)
Definition enqueue_job (now : Z) (new_id : N) (p_book_id : N) (p_job_type : jobType)
    (p_input_data : JS.str) (p_priority : Z) (p_depends_on_job : option N)
    (t : table) : table :=
  t ++ [Job new_id p_book_id p_job_type pending p_priority p_input_data
            (Some 0%Z) (Some 3%Z) p_depends_on_job None now now].

(** [LEFT JOIN processing_jobs dep ON j.depends_on_job = dep.id] *)
Definition dep (t : table) (j : job) : option job :=
  match depends_on_job j with
  | None => None
  | Some d => find (fun r => (id r =? d)%N) t
  end.

(** The WHERE clause of the inner SELECT of [get_next_job]. *)
Definition claimable (t : table) (j : job) : bool :=
  jobStatus_eqb (status j) pending
  && (match depends_on_job j with
      | None => true
      | Some _ => match dep t j with
                  | Some d => jobStatus_eqb (status d) completed
                  | None => false
                  end
      end)
  && isTrue (sqlLt (retry_count j) (max_retries j)).

(** [ORDER BY j.priority ASC, j.created_at ASC]: [a] sorts no later than [b]. *)
Definition orderLe (a b : job) : bool :=
  ((priority a <? priority b) ||
   ((priority a =? priority b) && (created_at a <=? created_at b)))%Z.

(** The inner SELECT of the redefined [get_next_job], with its
    [LIMIT 1]: what it selects, when it runs. *)
Definition next_id (t : table) : option N :=
  match JS.sortBy orderLe (filter (claimable t) t) with
  | [] => None
  | j :: _ => Some (id j)
  end.

Definition claim (now : Z) (j : job) : job :=
  Job (id j) (book_id j) (job_type j) running (priority j) (input_data j)
      (retry_count j) (max_retries j) (depends_on_job j) (Some now)
      (created_at j) now.

(** The UPDATE of the redefined [get_next_job]: the table afterwards
    and the rows it returns (of which the RETURNING list gives the id,
    the book, the type, the input, the priority and the retry count). *)
Definition claimNext (now : Z) (t : table) : table * list job :=
  match next_id t with
  | None => (t, [])
  | Some k =>
      (map (fun j => if (id j =? k)%N then claim now j else j) t,
       map (claim now) (filter (fun j => (id j =? k)%N) t))
  end.

(** ** What PostgreSQL refuses

    Each definition of [get_next_job] is one statement, which PostgreSQL
    analyses when the function is called.  Two of its rules bear on it;
    a statement that either refuses raises, and changes nothing. *)

(** What a call gives: its value, or the error it raises. *)
Inductive answer (A : Type) :=
| gives (value : A)
| raises (message : JS.str).
Arguments gives {A} value.
Arguments raises {A} message.

Fixpoint name_eqb (a b : JS.str) : bool :=
  match a, b with
  | [], [] => true
  | x :: a', y :: b' => (x =? y)%N && name_eqb a' b'
  | _, _ => false
  end.

(** The columns of [processing_jobs]. *)
Definition jobColumns : list JS.str :=
  map JS.lit
    ["id"; "book_id"; "job_type"; "status"; "priority"; "progress_percentage";
     "input_data"; "output_data"; "error_message"; "retry_count"; "max_retries";
     "depends_on_job"; "estimated_duration_seconds"; "actual_duration_seconds";
     "started_at"; "completed_at"; "created_at"; "updated_at"]%string.

(** PL/pgSQL reads a name that stands alone in a statement as a column
    of the tables of the statement and as a variable of the function,
    the columns of its RETURNS TABLE among them; a name that is both is
    refused.  [names] are the names that stand alone where the statement
    has an expression (a target of SET is not one), in order. *)
Definition ambiguous (variables names : list JS.str) : option JS.str :=
  find (fun n => existsb (name_eqb n) variables && existsb (name_eqb n) jobColumns)
       names.

(** A locking clause without OF locks the rows of every table of its
    FROM clause, and is refused when one of them is on the nullable side
    of an outer join. *)
Inductive joinSide := preservedSide | nullableSide.

Definition lockable (from : list (JS.str * joinSide)) : bool :=
  forallb (fun x => match snd x with preservedSide => true | nullableSide => false end)
          from.

Definition QUOTE : N := 34.

(** The statement of a function whose variables are [variables], with
    the [names] that stand alone in it and a locking clause over
    [from]; [run] is what it does when it is accepted. *)
Definition statement {A : Type} (variables names : list JS.str)
    (from : list (JS.str * joinSide)) (run : A) : answer A :=
  match ambiguous variables names with
  | Some n =>
      raises (JS.lit "column reference " ++ [QUOTE] ++ n ++ [QUOTE]
              ++ JS.lit " is ambiguous")
  | None =>
      if lockable from then gives run
      else raises (JS.lit "FOR UPDATE cannot be applied to the nullable side of an outer join")
  end.

(** [get_next_job()], as redefined (20250803180000): its RETURNS TABLE
    has the columns [id], [book_id], [job_type], [input_data],
    [priority] and [retry_count]; every name of the statement is
    qualified; the inner SELECT ends in [FOR UPDATE SKIP LOCKED] over
    [processing_jobs j LEFT JOIN processing_jobs dep]. *)
Definition get_next_job (now : Z) (t : table) : answer (table * list job) :=
  statement
    (map JS.lit ["id"; "book_id"; "job_type"; "input_data"; "priority";
                 "retry_count"]%string)
    []
    [(JS.lit "j", preservedSide); (JS.lit "dep", nullableSide)]
    (claimNext now t).

(** [get_next_job(p_job_types, p_max_priority)], as first defined
    (20250801170000).  Its inner SELECT takes the pending jobs of the
    given types, all types when the array is NULL, whose priority does
    not exceed the limit; it has no condition on dependencies or
    retries. *)
Definition wanted (p_job_types : option (list jobType)) (p_max_priority : Z)
    (j : job) : bool :=
  jobStatus_eqb (status j) pending
  && (match p_job_types with
      | None => true
      | Some types =>
          existsb (fun ty => match ty, job_type j with
                             | extract_text, extract_text
                             | detect_chapters, detect_chapters
                             | store_chapters, store_chapters
                             | enhance_chapters, enhance_chapters => true
                             | _, _ => false
                             end) types
      end)
  && (priority j <=? p_max_priority)%Z.

(** Its UPDATE sets the status and the start time; the time of the
    update is the work of the trigger on the table. *)
Definition claimFirst (now : Z) (p_job_types : option (list jobType))
    (p_max_priority : Z) (t : table) : table * list job :=
  match JS.sortBy orderLe (filter (wanted p_job_types p_max_priority) t) with
  | [] => (t, [])
  | first :: _ =>
      (map (fun j => if (id j =? id first)%N then claim now j else j) t,
       map (claim now) (filter (fun j => (id j =? id first)%N) t))
  end.

(** Its RETURNS TABLE has the columns [job_id], [book_id], [job_type],
    [input_data], [priority] and [created_at], and its RETURNING list
    names [id], [book_id], [job_type], [input_data], [priority] and
    [created_at] as they stand. *)
Definition get_next_job_v1 (now : Z) (p_job_types : option (list jobType))
    (p_max_priority : Z) (t : table) : answer (table * list job) :=
  statement
    (map JS.lit ["p_job_types"; "p_max_priority"; "job_id"; "book_id"; "job_type";
                 "input_data"; "priority"; "created_at"]%string)
    (map JS.lit ["id"; "p_job_types"; "p_job_types"; "p_max_priority";
                 "id"; "book_id"; "job_type"; "input_data"; "priority";
                 "created_at"]%string)
    [(JS.lit "pj", preservedSide)]
    (claimFirst now p_job_types p_max_priority t).

(** [complete_job]. *)
Definition complete (now : Z) (p_success : bool) (j : job) : job :=
  if p_success then
    Job (id j) (book_id j) (job_type j) completed (priority j) (input_data j)
        (retry_count j) (max_retries j) (depends_on_job j) (started_at j)
        (created_at j) now
  else
    Job (id j) (book_id j) (job_type j)
        (if isTrue (sqlLt (retry_count j) (max_retries j)) then pending else failed)
        (priority j) (input_data j)
        (option_map (fun r => r + 1)%Z (retry_count j)) (max_retries j)
        (depends_on_job j) (started_at j) (created_at j) now.

Definition complete_job (now : Z) (p_job_id : N) (p_success : bool) (t : table) : table :=
  map (fun j => if (id j =? p_job_id)%N then complete now p_success j else j) t.

(** The selection rule as the specification words it: every pending job
    whose dependency, if any, is completed takes part. *)
Definition specCandidate (t : table) (j : job) : bool :=
  jobStatus_eqb (status j) pending
  && (match depends_on_job j with
      | None => true
      | Some _ => match dep t j with
                  | Some d => jobStatus_eqb (status d) completed
                  | None => false
                  end
      end).

End JobQueue.

(* ================================================================== *)
(** * Cache eviction *)
(* ================================================================== *)

Module Cache.

(** A row of [processing_cache]; timestamps are seconds. *)
Record entry := Entry {
  cache_key : JS.str;
  file_size : option Z;
  hit_count : option Z;
  created_at : Z
}.

Definition table := list entry.

Definition day : Z := 86400.

Definition sqlLtConst (a : option Z) (b : Z) : bool :=
  match a with Some x => (x <? b)%Z | None => false end.

(** The WHERE clause of [cleanup_old_cache] (PL/pgSQL):
    [created_at < now() - INTERVAL '30 days' AND hit_count < 2]. *)
Definition evicted (now : Z) (e : entry) : bool :=
  (created_at e <? now - 30 * day)%Z && sqlLtConst (hit_count e) 2.

(** [cleanup_old_cache]: the table after the DELETE and [deleted_count]. *)
Definition cleanup_old_cache (now : Z) (t : table) : table * Z :=
  (filter (fun e => negb (evicted now e)) t,
   Z.of_nat (length (filter (evicted now) t))).

(** [CACHE_CONFIG.CLEANUP] of the shared memory utilities. *)
Definition cleanupBatchSize : nat := 1000.
Definition lowAccessThreshold : Z := 2.
Definition oldEntryThreshold : Z := 90.

(** The filter [CacheManager.cleanup] sends with its DELETE:
    [.or(`hit_count.lt.2,created_at.lt.<cutoff>`)], where the cutoff is
    [oldEntryThreshold] days before now. *)
Definition selected (now : Z) (e : entry) : bool :=
  sqlLtConst (hit_count e) lowAccessThreshold
  || (created_at e <? now - oldEntryThreshold * day)%Z.

(** Rows of [t] that satisfy [p], at most [n] of them, and the rest. *)
Fixpoint takeMatching (p : entry -> bool) (n : nat) (t : table) : table * table :=
  match t with
  | [] => ([], [])
  | e :: t' =>
      match n with
      | O => ([], t)
      | S n' =>
          if p e
          then let '(del, keep) := takeMatching p n' t' in (e :: del, keep)
          else let '(del, keep) := takeMatching p n t' in (del, e :: keep)
      end
  end.

Record cleanupResult := { deleted : nat; freed : Z }.

(** [CacheManager.cleanup]: the DELETE goes to the selected rows, with
    [.limit(cleanupBatchSize)] read as a cap on how many of them; the
    function reports how many rows came back and the bytes they held. *)
Definition cleanup (now : Z) (t : table) : table * cleanupResult :=
  let '(deletedEntries, rest) := takeMatching (selected now) cleanupBatchSize t in
  (rest,
   {| deleted := length deletedEntries;
      freed := fold_left (fun sum e => sum + match file_size e with
                                             | Some n => n
                                             | None => 0
                                             end)%Z deletedEntries 0%Z |}).

End Cache.

(* ================================================================== *)
(** * Books *)
(* ================================================================== *)

Module Schema.

(** [books.processing_status] and the enhancement status of a book or a
    chapter, by their CHECK constraints. *)
Inductive processingStatus := ps_pending | ps_processing | ps_completed | ps_failed.
Inductive enhancementStatus := pending | processing | completed | failed.

Definition enhancementStatus_eqb (a b : enhancementStatus) : bool :=
  match a, b with
  | pending, pending | processing, processing
  | completed, completed | failed, failed => true
  | _, _ => false
  end.

(** The columns of [books] the pipeline stages below write. *)
Record book := Book {
  processing_status : processingStatus;
  total_word_count : option nat;
  estimated_total_reading_time : option nat;
  enhancement_status : option enhancementStatus
}.

End Schema.

(* ================================================================== *)
(** * The enhancement worker: the aggregate status of a book *)
(* ================================================================== *)

Module Enhance.

Import Schema.

(** The [counts] object: a property per status seen, read with
    [counts.x || 0].  A chapter whose status is NULL counts under its own
    key. *)
Definition counts := option enhancementStatus -> nat.

Definition key_eqb (a b : option enhancementStatus) : bool :=
  match a, b with
  | Some x, Some y => enhancementStatus_eqb x y
  | None, None => true
  | _, _ => false
  end.

Definition noCounts : counts := fun _ => 0.

(** [acc[s] = (acc[s] || 0) + 1] *)
Definition countOne (acc : counts) (s : option enhancementStatus) : counts :=
  fun k => if key_eqb k s then acc s + 1 else acc k.

(** The decision of [updateBookEnhancementStatus] on the
    [enhancement_status] column of the book's chapters. *)
Definition overallStatus (statusCounts : list (option enhancementStatus))
    : enhancementStatus :=
  let counts := fold_left countOne statusCounts noCounts in
  let totalChapters := length statusCounts in
  let completed_ := counts (Some completed) in
  let failed_ := counts (Some failed) in
  if completed_ =? totalChapters then completed
  else if completed_ + failed_ =? totalChapters
       then (if failed_ <? completed_ then completed else failed)
       else processing.

(** [updateBookEnhancementStatus]: [data] is what the query on the chapters
    returned, [None] when it returned nothing; the book is then left as
    it is. *)
Definition updateBookEnhancementStatus
    (data : option (list (option enhancementStatus))) (b : book) : book :=
  match data with
  | None => b
  | Some statusCounts =>
      Book (processing_status b) (total_word_count b)
           (estimated_total_reading_time b) (Some (overallStatus statusCounts))
  end.

(** The number of chapters whose status is [s]. *)
Definition occurrences (s : enhancementStatus) (l : list (option enhancementStatus)) : nat :=
  length (filter (key_eqb (Some s)) l).

(** The rule as the specification words it: completed when every chapter
    is completed; failed when every chapter is completed or failed and the
    failed ones outnumber the completed ones; processing otherwise. *)
Definition specStatus (l : list (option enhancementStatus)) : enhancementStatus :=
  if occurrences completed l =? length l then completed
  else if (occurrences completed l + occurrences failed l =? length l)
          && (occurrences completed l <? occurrences failed l)
       then failed
       else processing.

End Enhance.

(* ================================================================== *)
(** * Chapters *)
(* ================================================================== *)

Module Chapter.

(** [interface Chapter] of the detector and of the chapter store. *)
Record t := Make {
  title : JS.str;
  content : JS.str;
  wordCount : nat;
  startIndex : Z;
  endIndex : Z;
  detectionMethod : JS.str;
  confidence : Q;
  boundary_strength : option Q
}.

End Chapter.

(* ================================================================== *)
(** * The chapter boundary detector *)
(* ================================================================== *)

Module Pattern.

(** An entry of [chapterPatterns]. *)
Record t := Make {
  regex : JS.regex;
  flags : JS.flags;
  confidence : Q;
  priority : nat
}.

End Pattern.

Module LineMatch.

(** An element of [matches] and [bestMatches]. *)
Record t := Make {
  index : Z;
  title : JS.str;
  lineNum : nat;
  confidence : Q
}.

End LineMatch.

Module Detect.

Import JS.

(** The second [interface DetectionResult]: what a strategy returns. *)
Record DetectionResult := Result {
  chapters : list Chapter.t;
  method : str;
  confidence : Q
}.

Definition Qgtb (a b : Q) : bool := negb (Qle_bool a b).

(** [content.split(/\s+/).length] *)
Definition countWords (content : str) : nat := length (splitSpaces content).

(** ** The pattern strategy *)

Definition gim := Flags true true.
Definition gm := Flags false true.

Definition numberWords20 : list String.string :=
  ["One"; "Two"; "Three"; "Four"; "Five"; "Six"; "Seven"; "Eight"; "Nine";
   "Ten"; "Eleven"; "Twelve"; "Thirteen"; "Fourteen"; "Fifteen"; "Sixteen";
   "Seventeen"; "Eighteen"; "Nineteen"; "Twenty"]%string.

Definition numberWords5 : list String.string :=
  ["One"; "Two"; "Three"; "Four"; "Five"]%string.

(** The optional title and the end of the line, [(?:\s*[:\.\-]\s*(T))?$],
    where the second group [T] is any run of [.]. *)
Definition optionalTitle : regex :=
  Seq (opt (seqs [star (Cls isSpace); oneOf ":.-"; star (Cls isSpace);
                  Group 2 (star dot)]))
      Eol.

(** [(\d+|[IVXLCDM]+|One|...)] *)
Definition ordinal (names : list String.string) : regex :=
  Group 1 (alts (plus (Cls isDigit) :: plus (oneOf "IVXLCDM") :: map word names)).

(** The four entries of [chapterPatterns], most specific first. *)

(* /^(?:Chapter|CHAPTER)\s+(\d+|[IVXLCDM]+|One|...|Twenty)(?:\s*[:\.\-]\s*(T))?$/gim *)
Definition chapterHeading : Pattern.t :=
  Pattern.Make
    (seqs [Bol; Alt (word "Chapter") (word "CHAPTER"); plus (Cls isSpace);
           ordinal numberWords20; optionalTitle])
    gim (95 # 100) 1.

(* /^(?:Part|PART)\s+(\d+|[IVXLCDM]+|One|Two|Three|Four|Five)(?:\s*[:\.\-]\s*(T))?$/gim *)
Definition partHeading : Pattern.t :=
  Pattern.Make
    (seqs [Bol; Alt (word "Part") (word "PART"); plus (Cls isSpace);
           ordinal numberWords5; optionalTitle])
    gim (90 # 100) 2.

(* /^(\d+)[\.\)]\s+(.{10,80})$/gm *)
Definition numberedSection : Pattern.t :=
  Pattern.Make
    (seqs [Bol; Group 1 (plus (Cls isDigit)); oneOf ".)"; plus (Cls isSpace);
           Group 2 (between 10 80 dot); Eol])
    gm (75 # 100) 3.

(* /^[A-Z\s]{3,50}$/gm *)
Definition capsHeader : Pattern.t :=
  Pattern.Make
    (seqs [Bol; between 3 50 (Cls (fun c => isUpper c || isSpace c)); Eol])
    gm (60 # 100) 4.

Definition chapterPatterns : list Pattern.t :=
  [chapterHeading; partHeading; numberedSection; capsHeader].

(** A capture inside a template literal; an unmatched group reads
    [undefined]. *)
Definition showCapture (c : option str) : str :=
  match c with Some x => x | None => lit "undefined" end.

(** A captured text is truthy when it is defined and not empty. *)
Definition truthy (c : option str) : bool :=
  match c with Some (_ :: _) => true | _ => false end.

(** The body of the inner loop for line [i]. *)
Definition matchLine (text : str) (pattern : Pattern.t) (i : nat) (rawLine : str)
    : option LineMatch.t :=
  let line := trim rawLine in
  if (length line <? 3) || (150 <? length line) then None
  else
    match exec (Pattern.flags pattern) line (Pattern.regex pattern) 0 with
    | None => None
    | Some (_, _, c) =>
        let m1 := capture line c 1 in
        let m2 := capture line c 2 in
        let title :=
          if truthy m2
          then lit "Chapter " ++ showCapture m1 ++ lit ": " ++ showCapture m2
          else if truthy m1 then lit "Chapter " ++ showCapture m1 else line in
        let textIndex := indexOf text line in
        if (textIndex =? -1)%Z then None
        else Some (LineMatch.Make textIndex (trim title) i (Pattern.confidence pattern))
    end.

Fixpoint matchLines (text : str) (pattern : Pattern.t) (i : nat) (lines : list str)
    : list LineMatch.t :=
  match lines with
  | [] => []
  | l :: lines' =>
      match matchLine text pattern i l with
      | Some m => m :: matchLines text pattern (S i) lines'
      | None => matchLines text pattern (S i) lines'
      end
  end.

(** [matches] after the inner loop. *)
Definition patternMatches (text : str) (pattern : Pattern.t) : list LineMatch.t :=
  matchLines text pattern 0 (splitOn LF text).

(** One turn of the loop over [chapterPatterns], on
    [(bestMatches, highestConfidence)]. *)
Definition tryPattern (text : str) (best : list LineMatch.t * Q) (pattern : Pattern.t)
    : list LineMatch.t * Q :=
  let matches := patternMatches text pattern in
  if (2 <=? length matches) && Qgtb (Pattern.confidence pattern) (snd best)
  then (matches, Pattern.confidence pattern)
  else best.

Definition nthLine (lines : list str) (i : nat) : str := nth i lines [].

Definition calculateBoundaryStrength (lines : list str) (lineNum : nat) : Q :=
  let strength := (5 # 10)%Q in
  let prevLine := if 0 <? lineNum then trim (nthLine lines (lineNum - 1)) else [] in
  let nextLine :=
    if lineNum <? length lines - 1 then trim (nthLine lines (lineNum + 1)) else [] in
  let strength :=
    match prevLine, nextLine with
    | [], [] => (strength + (3 # 10))%Q
    | _, _ => strength
    end in
  let strength :=
    if test noFlags (nthLine lines lineNum)
         (seqs [Bol; plus (Cls (fun c => isUpper c || isSpace c)); Eol])
    then (strength + (2 # 10))%Q else strength in
  let strength :=
    if test noFlags (nthLine lines lineNum) (seqs [Bol; plus (Cls isDigit); oneOf ".)"])
    then (strength + (2 # 10))%Q else strength in
  Qmin strength 1.

Definition byIndex (a b : LineMatch.t) : bool :=
  (LineMatch.index a - LineMatch.index b <=? 0)%Z.

(** The chapter the last loop makes of a match and the one after it. *)
Definition patternSpanEnd (text : str) (rest : list LineMatch.t) : Z :=
  match rest with
  | nextMatch :: _ => LineMatch.index nextMatch
  | [] => Z.of_nat (length text)
  end.

Definition patternChapter (text : str) (lines : list str) (m : LineMatch.t)
    (rest : list LineMatch.t) : Chapter.t :=
  let startIndex := LineMatch.index m in
  let endIndex := patternSpanEnd text rest in
  let content := trim (substring text startIndex endIndex) in
  Chapter.Make (LineMatch.title m) content (countWords content) startIndex endIndex
               (lit "pattern_based") (LineMatch.confidence m)
               (Some (calculateBoundaryStrength lines (LineMatch.lineNum m))).

Fixpoint patternChapters (text : str) (lines : list str) (bestMatches : list LineMatch.t)
    : list Chapter.t :=
  match bestMatches with
  | [] => []
  | m :: rest =>
      let ch := patternChapter text lines m rest in
      if 500 <? length (Chapter.content ch)
      then ch :: patternChapters text lines rest
      else patternChapters text lines rest
  end.

Definition detectPatternBasedChapters (text : str) : DetectionResult :=
  let lines := splitOn LF text in
  let '(bestMatches, highestConfidence) :=
    fold_left (tryPattern text) chapterPatterns ([], 0%Q) in
  let bestMatches := sortBy byIndex bestMatches in
  Result (patternChapters text lines bestMatches) (lit "pattern_based") highestConfidence.

(** ** The structural strategy *)

Definition calculateStructuralBreakStrength (beforeText afterText : str) : Q :=
  let strength := (3 # 10)%Q in
  let beforeWords := countWords (trim beforeText) in
  let afterWords := countWords (trim afterText) in
  let strength :=
    if (100 <? beforeWords) && (100 <? afterWords)
    then (strength + (4 # 10))%Q else strength in
  let beforeEndsWithPunctuation := test noFlags (trim beforeText) (Seq (oneOf ".!?") Eol) in
  let afterStartsCapitalized := test noFlags (trim afterText) (Seq Bol (Cls isUpper)) in
  let strength :=
    if beforeEndsWithPunctuation && afterStartsCapitalized
    then (strength + (3 # 10))%Q else strength in
  Qmin strength 1.

(** An element of [structuralBreaks] or of [semanticBreaks]; the [type]
    of a structural break is always ['structural_break']. *)
Record breakPoint := Break { index : Z; strength : Q }.

(** The loop over [textParts] from [i = 1] on; [before] is
    [textParts[i-1]]. *)
Fixpoint structuralBreaksFrom (before : str) (parts : list str) (currentIndex : Z)
    : list breakPoint :=
  match parts with
  | [] => []
  | part :: rest =>
      let breakStrength := calculateStructuralBreakStrength before part in
      let later :=
        structuralBreaksFrom part rest (currentIndex + Z.of_nat (length part) + 3) in
      if Qgtb breakStrength (5 # 10)
      then Break currentIndex breakStrength :: later
      else later
  end.

Definition findStructuralBreaks (textParts : list str) : list breakPoint :=
  match textParts with
  | [] => []
  | first :: rest => structuralBreaksFrom first rest (Z.of_nat (length first) + 3)
  end.

Definition generateStructuralTitle (content : str) (chapterNum : nat) : str :=
  let firstLine :=
    match find (fun line => 0 <? length (trim line)) (splitOn LF content) with
    | Some line => trim line
    | None => []
    end in
  if (10 <? length firstLine) && (length firstLine <? 80) then firstLine
  else lit "Chapter " ++ showNat chapterNum.

Definition breakByIndex (a b : breakPoint) : bool := (index a - index b <=? 0)%Z.

Fixpoint structuralChapters (text : str) (i : nat) (breaks : list breakPoint)
    : list Chapter.t :=
  match breaks with
  | [] => []
  | bp :: rest =>
      let startIndex := if i =? 0 then 0%Z else index bp in
      let endIndex :=
        match rest with
        | nextBreak :: _ => index nextBreak
        | [] => Z.of_nat (length text)
        end in
      let content := trim (substring text startIndex endIndex) in
      let later := structuralChapters text (S i) rest in
      if 1000 <? length content
      then Chapter.Make (generateStructuralTitle content (i + 1)) content
                        (countWords content) startIndex endIndex (lit "structural")
                        (strength bp) (Some (strength bp))
           :: later
      else later
  end.

(** [chapters.reduce((sum, ch) => sum + ch.confidence, 0) / chapters.length],
    or the given default when there is no chapter. *)
Definition averageConfidence (chapters : list Chapter.t) (default : Q) : Q :=
  match chapters with
  | [] => default
  | _ :: _ =>
      (fold_left (fun sum ch => sum + Chapter.confidence ch) chapters 0
       / inject_Z (Z.of_nat (length chapters)))%Q
  end.

Definition detectStructuralChapters (text : str) : DetectionResult :=
  let textParts := split noFlags text (seqs [chr LF; chr LF; plus (chr LF)]) in
  let structuralBreaks := sortBy breakByIndex (findStructuralBreaks textParts) in
  let chapters := structuralChapters text 0 structuralBreaks in
  Result chapters (lit "structural") (averageConfidence chapters (4 # 10)).

(** ** The semantic strategy *)

Definition topicMarkers : list String.string :=
  ["meanwhile"; "later"; "the next"; "suddenly"; "then"; "now"; "after"]%string.
Definition timeMarkers : list String.string :=
  ["morning"; "evening"; "day"; "night"; "week"; "month"; "year"]%string.
Definition placeMarkers : list String.string :=
  ["at"; "in"; "outside"; "inside"; "nearby"; "across"]%string.

Definition addMarkers (currentLower : str) (markers : list String.string) (step : Q)
    (shift : Q) : Q :=
  fold_left (fun sh marker => if includes currentLower (lit marker)
                              then (sh + step)%Q else sh)
            markers shift.

Definition calculateSemanticShift (prev current next : str) : Q :=
  let currentLower := toLowerCase current in
  let shift := (3 # 10)%Q in
  let shift := addMarkers currentLower topicMarkers (2 # 10) shift in
  let shift := addMarkers currentLower timeMarkers (15 # 100) shift in
  let shift := addMarkers currentLower placeMarkers (1 # 10) shift in
  Qmin shift 1.

(** The first loop, over [i = 1 .. sentences.length - 2]; the list starts
    at [sentences[i-1]]. *)
Fixpoint findSemanticBreaks (text : str) (sentences : list str) : list breakPoint :=
  match sentences with
  | prev :: ((current :: next :: _) as rest) =>
      let currentSentence := trim current in
      let semanticShift := calculateSemanticShift (trim prev) currentSentence (trim next) in
      let later := findSemanticBreaks text rest in
      if Qgtb semanticShift (6 # 10) then
        let i := indexOf text (currentSentence ++ lit ".") in
        if (i =? -1)%Z then later else Break i semanticShift :: later
      else later
  | _ => []
  end.

Definition generateSemanticTitle (content bookTitle : str) (chapterNum : nat) : str :=
  let sentences := filter (fun s => 10 <? length (trim s)) (splitSentences content) in
  match sentences with
  | first :: _ =>
      match trim first with
      | [] => bookTitle ++ lit " - Chapter " ++ showNat chapterNum
      | firstSentence =>
          if length firstSentence <? 80
          then bookTitle ++ lit " - " ++ firstSentence ++ lit "..."
          else bookTitle ++ lit " - Chapter " ++ showNat chapterNum
      end
  | [] => bookTitle ++ lit " - Chapter " ++ showNat chapterNum
  end.

(** The variables the second loop carries. *)
Record semanticState := SemanticState {
  semChapters : list Chapter.t;
  chapterStart : Z;
  chapterNumber : nat;
  currentWords : nat
}.

Definition semanticStep (text bookTitle : str) (st : semanticState) (bp : breakPoint)
    : semanticState :=
  let segmentText := substring text (chapterStart st) (index bp) in
  let currentWords := currentWords st + countWords segmentText in
  let shouldBreak :=
    ((1200 <=? currentWords) && ((2500 <=? currentWords) || Qgtb (strength bp) (8 # 10)))
    || (4000 <=? currentWords) in
  let content := trim (substring text (chapterStart st) (index bp)) in
  if shouldBreak && (500 <? length content) then
    SemanticState
      (semChapters st ++
       [Chapter.Make (generateSemanticTitle content bookTitle (chapterNumber st)) content
                     currentWords (chapterStart st) (index bp) (lit "semantic")
                     (strength bp) (Some (strength bp))])
      (index bp) (chapterNumber st + 1) 0
  else SemanticState (semChapters st) (chapterStart st) (chapterNumber st) currentWords.

Definition detectSemanticChapters (text bookTitle : str) : DetectionResult :=
  let sentences := filter (fun s => 20 <? length (trim s)) (splitSentences text) in
  let semanticBreaks := findSemanticBreaks text sentences in
  let st := fold_left (semanticStep text bookTitle) semanticBreaks
                      (SemanticState [] 0 1 0) in
  let chapters :=
    if (chapterStart st <? Z.of_nat (length text) - 500)%Z then
      let content := trim (substringFrom text (chapterStart st)) in
      let wordCount := countWords content in
      if 300 <? wordCount
      then semChapters st ++
           [Chapter.Make (generateSemanticTitle content bookTitle (chapterNumber st))
                         content wordCount (chapterStart st) (Z.of_nat (length text))
                         (lit "semantic") (7 # 10) (Some (7 # 10)%Q)]
      else semChapters st
    else semChapters st in
  Result chapters (lit "semantic") (averageConfidence chapters (6 # 10)).

(** ** The adaptive strategy *)

Inductive strategy := short_form | medium_form | long_form | academic | narrative.

Definition strategyName (s : strategy) : str :=
  match s with
  | short_form => lit "short_form"
  | medium_form => lit "medium_form"
  | long_form => lit "long_form"
  | academic => lit "academic"
  | narrative => lit "narrative"
  end.

Record envelope := Envelope { targetWords : nat; minWords : nat; maxWords : nat }.

Definition strategyConfig (s : strategy) : envelope :=
  match s with
  | short_form => Envelope 1500 800 2500
  | medium_form => Envelope 2500 1500 4000
  | long_form => Envelope 3500 2000 6000
  | academic => Envelope 4000 2500 8000
  | narrative => Envelope 3000 1800 5000
  end.

(** The [while] loop of [applyAdaptiveStrategy]; it runs at most once per
    word, which is what [fuel] counts. *)
Fixpoint adaptiveLoop (fuel : nat) (words : list str) (config : envelope)
    (s : strategy) (bookTitle : str) (chapterStart chapterNum : nat) : list Chapter.t :=
  match fuel with
  | O => []
  | S fuel' =>
      if chapterStart <? length words then
        let remainingWords := length words - chapterStart in
        let chapterSize :=
          Nat.min (Nat.max (minWords config) (Nat.min (targetWords config) remainingWords))
                  (maxWords config) in
        let chapterWords := slice words chapterStart (chapterStart + chapterSize) in
        let content := join (lit " ") chapterWords in
        let rest := adaptiveLoop fuel' words config s bookTitle
                                 (chapterStart + chapterSize) (chapterNum + 1) in
        if 100 <? length (trim content)
        then Chapter.Make (bookTitle ++ lit " - Part " ++ showNat chapterNum) content
                          (length chapterWords) (Z.of_nat chapterStart)
                          (Z.of_nat (chapterStart + chapterSize))
                          (lit "adaptive_" ++ strategyName s) (8 # 10) None
             :: rest
        else rest
      else []
  end.

Definition applyAdaptiveStrategy (text : str) (s : strategy) (bookTitle : str)
    : list Chapter.t :=
  let words := splitSpaces text in
  adaptiveLoop (length words) words (strategyConfig s) s bookTitle 0 1.

(** The [book] row the detector reads: its title and its genre. *)
Record bookInfo := BookInfo { bookTitle : str; genre : option str }.

Definition detectAdaptiveChapters (text : str) (book : bookInfo) : DetectionResult :=
  let wordCount := countWords text in
  let s :=
    if wordCount <? 20000 then short_form
    else if wordCount <? 80000 then medium_form
    else if wordCount <? 200000 then long_form
    else if match genre book with
            | Some g => includes g (lit "academic")
            | None => false
            end
            || includes text (lit "bibliography")
            || includes text (lit "references")
         then academic
         else narrative in
  Result (applyAdaptiveStrategy text s (bookTitle book))
         (lit "adaptive_" ++ strategyName s) (8 # 10).

(** ** The fallback chunker *)

Fixpoint chunkLoop (fuel : nat) (words : list str) (bookTitle : str) (i : nat)
    : list Chapter.t :=
  match fuel with
  | O => []
  | S fuel' =>
      if i <? length words then
        let chunkWords := slice words i (i + 2000) in
        let content := join (lit " ") chunkWords in
        let rest := chunkLoop fuel' words bookTitle (i + 2000) in
        if 100 <? length (trim content)
        then Chapter.Make (bookTitle ++ lit " - Part " ++ showNat (i / 2000 + 1)) content
                          (length chunkWords) (Z.of_nat i)
                          (Z.of_nat (i + length chunkWords))
                          (lit "optimized_chunking") (4 # 10) None
             :: rest
        else rest
      else []
  end.

Definition createOptimizedChunks (text : str) (bookTitle : str) : list Chapter.t :=
  let words := splitSpaces text in
  chunkLoop (length words) words bookTitle 0.

(** ** Running the strategies and choosing among their results *)

(** [runParallelDetection], from what the four strategies settled to. *)
Definition usable (r : settled DetectionResult) : list DetectionResult :=
  match r with
  | fulfilled value => if 0 <? length (chapters value) then [value] else []
  | rejected => []
  end.

Definition runParallelDetection (text : str) (book : bookInfo)
    (results : list (settled DetectionResult)) : list DetectionResult :=
  let successfulResults := flat_map usable results in
  match successfulResults with
  | [] => [Result (createOptimizedChunks text (bookTitle book))
                  (lit "fallback_chunking") (3 # 10)]
  | _ => successfulResults
  end.

(** ** Selection

    The scores are Numbers, computed in double precision in the order
    of the source; [Math.pow(x, 2)] is [x * x].  The confidence of a
    result, which the record holds as a rational, is the double nearest
    to it. *)
Definition sumWords (wordCounts : list nat) : Double.t :=
  fold_left (fun sum count => Double.add sum (Double.ofNat count))
            wordCounts (Double.Finite 0).

Definition sumSquares (avgWords : Double.t) (wordCounts : list nat) : Double.t :=
  fold_left (fun sum count =>
               let d := Double.sub (Double.ofNat count) avgWords in
               Double.add sum (Double.mul d d))
            wordCounts (Double.Finite 0).

(** The size consistency of a result; it is [NaN], from [0/0], when the
    result has no chapter or no word at all. *)
Definition consistency (wordCounts : list nat) : Double.t :=
  let n := Double.ofNat (length wordCounts) in
  let avgWords := Double.div (sumWords wordCounts) n in
  let variance := Double.div (sumSquares avgWords wordCounts) n in
  Double.max (Double.Finite 0)
    (Double.sub (Double.Finite 1)
                (Double.div variance (Double.mul avgWords avgWords))).

Definition countBonus (chapterCount : nat) (score : Double.t) : Double.t :=
  if (3 <=? chapterCount) && (chapterCount <=? 50)
  then Double.add score (Double.ofQ (3 # 10))
  else if 50 <? chapterCount then Double.sub score (Double.ofQ (2 # 10))
  else score.

Definition methodBonus (m : str) (score : Double.t) : Double.t :=
  if includes m (lit "pattern") || includes m (lit "semantic")
  then Double.add score (Double.ofQ (1 # 10)) else score.

Definition scoreOf (result : DetectionResult) : Double.t :=
  let score := Double.mul (Double.ofQ (confidence result)) (Double.ofQ (4 # 10)) in
  let score := countBonus (length (chapters result)) score in
  let score :=
    Double.add score
      (Double.mul (consistency (map Chapter.wordCount (chapters result)))
                  (Double.ofQ (2 # 10))) in
  methodBonus (method result) score.

(** An element of [scoredResults]. *)
Record scored := Scored { result : DetectionResult; score : Double.t }.

Definition scoreResult (r : DetectionResult) : scored := Scored r (scoreOf r).

(** The comparator [(a, b) => b.score - a.score] returned a value [<= 0];
    a [NaN] difference counts as [+0]. *)
Definition byScoreDesc (a b : scored) : bool :=
  match Double.sub (score b) (score a) with
  | Double.NaN => true
  | d => Double.leb d (Double.Finite 0)
  end.

Definition selectBestDetection (results : list DetectionResult) : outcome scored :=
  match results with
  | [] => throws (lit "No chapter detection results available")
  | first :: _ =>
      let scoredResults := sortBy byScoreDesc (map scoreResult results) in
      returns (hd (scoreResult first) scoredResults)
  end.

(** ** Boundary optimization *)

(** The sentences [j = floor(n/2) .. n-2] the inner loop visits. *)
Definition candidateSentences (sentences : list str) : list str :=
  slice sentences (length sentences / 2) (length sentences - 1).

Definition actualEndOf (chapter : Chapter.t) (boundaryText sentence : str) : Z :=
  let sentenceEnd := (indexOf boundaryText sentence + Z.of_nat (length sentence) + 1)%Z in
  (Chapter.endIndex chapter - 200 + sentenceEnd)%Z.

Definition acceptableEnd (chapter : Chapter.t) (nextChapterStart actualEnd : Z) : bool :=
  ((Chapter.startIndex chapter + 500 <? actualEnd) &&
   (actualEnd <? nextChapterStart - 100))%Z.

(** The end offset the inner loop settles on, if any. *)
Definition optimizedEndOf (fullText : str) (chapter next : Chapter.t) : option Z :=
  let nextChapterStart := Chapter.startIndex next in
  let boundaryText :=
    substring fullText (Chapter.endIndex chapter - 200) (nextChapterStart + 200) in
  let sentences := splitSentences boundaryText in
  find (acceptableEnd chapter nextChapterStart)
       (map (actualEndOf chapter boundaryText) (candidateSentences sentences)).

(** One turn of the outer loop: the chapter pushed for [chapter], given
    the chapter after it, if there is one. *)
Definition optimizeChapter (fullText : str) (chapter : Chapter.t)
    (next : option Chapter.t) : Chapter.t :=
  let optimizedStart := Chapter.startIndex chapter in
  let '(optimizedEnd, optimizedContent) :=
    match next with
    | None => (Chapter.endIndex chapter, Chapter.content chapter)
    | Some nx =>
        match optimizedEndOf fullText chapter nx with
        | Some actualEnd =>
            (actualEnd, trim (substring fullText optimizedStart actualEnd))
        | None => (Chapter.endIndex chapter, Chapter.content chapter)
        end
    end in
  Chapter.Make (Chapter.title chapter) optimizedContent (countWords optimizedContent)
               optimizedStart optimizedEnd (Chapter.detectionMethod chapter)
               (Chapter.confidence chapter) (Chapter.boundary_strength chapter).

Fixpoint optimizeChapters (chapters : list Chapter.t) (fullText : str) : list Chapter.t :=
  match chapters with
  | [] => []
  | chapter :: rest =>
      optimizeChapter fullText chapter (hd_error rest) :: optimizeChapters rest fullText
  end.

(** The four strategies of [detectionMethods], each settled to its
    value. *)
Definition runStrategies (text : str) (book : bookInfo) : list (settled DetectionResult) :=
  [ fulfilled (detectPatternBasedChapters text);
    fulfilled (detectStructuralChapters text);
    fulfilled (detectSemanticChapters text (bookTitle book));
    fulfilled (detectAdaptiveChapters text book) ].

(** The detection the request handler performs once the strategies have
    settled: choose, then optimize. *)
Definition detect (text : str) (book : bookInfo)
    (results : list (settled DetectionResult)) : outcome (list Chapter.t) :=
  match selectBestDetection (runParallelDetection text book results) with
  | returns bestResult => returns (optimizeChapters (chapters (result bestResult)) text)
  | throws e => throws e
  end.

(** The request handler, for a book that exists and a text that missed
    the cache: a request without text is refused. *)
Definition detectChapters (text : str) (book : bookInfo) : outcome (list Chapter.t) :=
  match text with
  | [] => throws (lit "Book ID and text are required")
  | _ :: _ => detect text book (runStrategies text book)
  end.

End Detect.

(* ================================================================== *)
(** * The text extraction stage *)
(* ================================================================== *)

Module Extract.

Import JS.

Definition gim := Flags true true.
Definition gm := Flags false true.
Definition g := Flags false false.

Definition digits : regex := plus (Cls isDigit).
Definition spaces0 : regex := star (Cls isSpace).

(** The passes of [cleanupExtractedText], in order: the pattern, its
    flags, and the replacement. *)
Definition cleanupPasses : list (regex * flags * str) :=
  [ (* /\s{3,}/g *)
    (atLeast 3 (Cls isSpace), g, lit "  ");
    (* /^\s*\d+\s*$/gm *)
    (seqs [Bol; spaces0; digits; spaces0; Eol], gm, []);
    (* /^.*Page \d+ of \d+.*$/gim *)
    (seqs [Bol; star dot; word "Page "; digits; word " of "; digits; star dot; Eol],
     gim, []);
    (* /^\s*Chapter \d+ Page \d+\s*$/gim *)
    (seqs [Bol; spaces0; word "Chapter "; digits; word " Page "; digits; spaces0; Eol],
     gim, []);
    (* /\f/g *)
    (chr FF, g, [LF; LF]);
    (* /\n{4,}/g *)
    (atLeast 4 (chr LF), g, [LF; LF; LF]);
    (* /[ \t]+/g *)
    (plus (Cls (fun c => (c =? 32) || (c =? 9))%N), g, lit " ") ].

Definition applyPass (text : str) (pass : regex * flags * str) : str :=
  let '(r, fl, replacement) := pass in replaceAll fl text r replacement.

Definition cleanupExtractedText (text : str) : str :=
  trim (fold_left applyPass cleanupPasses text).

(** [Math.ceil(a / b)] for counts, [b > 0]. *)
Definition ceilDiv (a b : nat) : nat :=
  Z.to_nat (Qceiling (inject_Z (Z.of_nat a) / inject_Z (Z.of_nat b))).

Definition estimatePages (text : str) : nat :=
  ceilDiv (length (splitSpaces text)) 250.

(** What the PDF-to-text capability resolves to. *)
Record extracted := Extracted { text : option str; totalPages : option nat }.

Definition noTextMessage : str := lit "No text could be extracted from PDF".

(** The [try] block of [extractTextWithProgress]. *)
Definition extractionAttempt (result : outcome extracted) : outcome (str * nat) :=
  match result with
  | throws message => throws message
  | returns r =>
      match text r with
      | None | Some [] => throws noTextMessage
      | Some raw =>
          if length (trim raw) =? 0 then throws noTextMessage
          else
            let cleanedText := cleanupExtractedText raw in
            returns (cleanedText,
                     match totalPages r with
                     | Some (S n) => S n
                     | _ => estimatePages cleanedText
                     end)
      end
  end.

(** [extractTextWithProgress]: whatever the attempt threw is thrown again
    behind a prefix. *)
Definition extractTextWithProgress (result : outcome extracted) : outcome (str * nat) :=
  match extractionAttempt result with
  | throws message => throws (lit "Failed to extract text: " ++ message)
  | returns v => returns v
  end.

(** The failure for a document without extractable text. *)
Definition noTextFailure : outcome (str * nat) :=
  throws (lit "Failed to extract text: " ++ noTextMessage).

(** What the request handler writes onto the book: on success the word
    count of the text, in its [catch] the status [failed]. *)
Definition recordExtraction (b : Schema.book) (text : str) : Schema.book :=
  Schema.Book (Schema.processing_status b) (Some (length (splitSpaces text)))
              (Schema.estimated_total_reading_time b) (Schema.enhancement_status b).

Definition markFailed (b : Schema.book) : Schema.book :=
  Schema.Book Schema.ps_failed (Schema.total_word_count b)
              (Schema.estimated_total_reading_time b) (Schema.enhancement_status b).

(** The request handler from the extraction on, for a file that was
    downloaded and missed the cache. *)
Definition extractStage (result : outcome extracted) (b : Schema.book)
    : Schema.book * outcome (str * nat) :=
  match extractTextWithProgress result with
  | returns (text, pages) => (recordExtraction b text, returns (text, pages))
  | throws message => (markFailed b, throws message)
  end.

End Extract.

(* ================================================================== *)
(** * The chapter store *)
(* ================================================================== *)

Module Metadata.

(** The [metadata] object stored with a chapter. *)
Record t := Make {
  detection_method : JS.str;
  detection_confidence : Q;
  boundary_strength : option Q;
  start_index : Z;
  end_index : Z;
  stored_at : JS.str;
  processing_version : JS.str
}.

End Metadata.

Module ChapterForDB.

(** [interface ChapterForDB]: a row of [chapters] to insert. *)
Record t := Make {
  book_id : JS.str;
  chapter_number : nat;
  part_number : nat;
  title : JS.str;
  content : JS.str;
  summary : option JS.str;
  word_count : nat;
  reading_time_minutes : nat;
  highlight_quotes : list JS.str;
  enhancement_status : Schema.enhancementStatus;
  metadata : Metadata.t
}.

End ChapterForDB.

Module Store.

Import JS.

(** [Math.ceil(wordCount / 200)] *)
Definition readingTime (wordCount : nat) : nat := Extract.ceilDiv wordCount 200.

Definition validateChapter (chapter : Chapter.t) : option Chapter.t :=
  match Chapter.title chapter, Chapter.content chapter with
  | [], _ | _, [] => None
  | _, _ =>
      if length (Chapter.content chapter) <? 100 then None
      else
        let actualWordCount := Detect.countWords (Chapter.content chapter) in
        if actualWordCount <? 50 then None
        else
          let sanitizedTitle :=
            if 200 <? length (Chapter.title chapter)
            then substring (Chapter.title chapter) 0 197 ++ lit "..."
            else Chapter.title chapter in
          Some (Chapter.Make sanitizedTitle (Chapter.content chapter) actualWordCount
                  (Z.max 0 (Chapter.startIndex chapter))
                  (Z.max (Chapter.startIndex chapter)
                         (if (Chapter.endIndex chapter =? 0)%Z
                          then Z.of_nat (length (Chapter.content chapter))
                          else Chapter.endIndex chapter))
                  (Chapter.detectionMethod chapter)
                  (Qmax 0 (Qmin 1 (if Qeq_bool (Chapter.confidence chapter) 0
                                   then 5 # 10 else Chapter.confidence chapter)))
                  (Chapter.boundary_strength chapter))
  end.

Fixpoint validateChapters (chapters : list Chapter.t) : list Chapter.t :=
  match chapters with
  | [] => []
  | chapter :: rest =>
      match validateChapter chapter with
      | Some v => v :: validateChapters rest
      | None => validateChapters rest
      end
  end.

Record BookStats := Stats {
  totalWordCount : nat;
  totalReadingTime : nat;
  averageWordsPerChapter : option Z;
  chapterCount : nat
}.

(** [Math.round(a / b)] for counts; [None] is the [NaN] of [0/0]. *)
Definition roundDiv (a b : nat) : option Z :=
  match b with
  | O => None
  | S _ => Some (Qfloor (inject_Z (Z.of_nat a) / inject_Z (Z.of_nat b) + (1 # 2)))
  end.

Definition calculateBookStats (chapters : list Chapter.t) : BookStats :=
  let totalWordCount :=
    fold_left (fun sum ch => sum + Chapter.wordCount ch) chapters 0 in
  let totalReadingTime :=
    fold_left (fun sum ch => sum + readingTime (Chapter.wordCount ch)) chapters 0 in
  Stats totalWordCount totalReadingTime
        (roundDiv totalWordCount (length chapters)) (length chapters).

(** [updateBookCompletionStatus]: the UPDATE of the book's row. *)
Definition updateBookCompletionStatus (b : Schema.book) (stats : BookStats) : Schema.book :=
  Schema.Book Schema.ps_completed (Some (totalWordCount stats))
              (Some (totalReadingTime stats)) (Some Schema.pending).

Section Storing.

(** The highlight heuristic and the clock are taken as given. *)
Variable extractPotentialQuotes : str -> list str.
Variable now : str.

Definition prepareChapter (bookId : str) (i : nat) (chapter : Chapter.t) : ChapterForDB.t :=
  let readingTime_ := readingTime (Chapter.wordCount chapter) in
  let highlightQuotes := extractPotentialQuotes (Chapter.content chapter) in
  ChapterForDB.Make bookId (i + 1) 1 (Chapter.title chapter) (Chapter.content chapter)
    None (Chapter.wordCount chapter) readingTime_ highlightQuotes Schema.pending
    (Metadata.Make (Chapter.detectionMethod chapter) (Chapter.confidence chapter)
       (Chapter.boundary_strength chapter) (Chapter.startIndex chapter)
       (Chapter.endIndex chapter) now (lit "v2_optimized")).

Fixpoint prepareFrom (bookId : str) (i : nat) (chapters : list Chapter.t)
    : list ChapterForDB.t :=
  match chapters with
  | [] => []
  | chapter :: rest => prepareChapter bookId i chapter :: prepareFrom bookId (S i) rest
  end.

Definition prepareChaptersForDB (bookId : str) (chapters : list Chapter.t)
    : list ChapterForDB.t :=
  prepareFrom bookId 0 chapters.

(** What a run of the store leaves behind: the rows handed to the batch
    insert, the statistics, and the book's row. *)
Record stored := Stored {
  rows : list ChapterForDB.t;
  stats : BookStats;
  bookAfter : Schema.book
}.

(** The request handler, from validation to the update of the book. *)
Definition storeChapters (bookId : str) (chapters : list Chapter.t) (b : Schema.book)
    : outcome stored :=
  let validatedChapters := validateChapters chapters in
  if length validatedChapters =? 0 then throws (lit "No valid chapters found")
  else
    let chaptersForDB := prepareChaptersForDB bookId validatedChapters in
    let stats := calculateBookStats validatedChapters in
    returns (Stored chaptersForDB stats (updateBookCompletionStatus b stats)).

End Storing.

End Store.

(* ================================================================== *)
(** * Sequences of calls on the job queue *)
(* ================================================================== *)

Module JobTrace.

Import JobQueue.

(** A call of one of the three queue functions.  [new_id] stands for the
    UUID that the column default generates for the new row. *)
Inductive call :=
| Enqueue (now : Z) (new_id p_book_id : N) (p_job_type : jobType)
          (p_input_data : JS.str) (p_priority : Z) (p_depends_on_job : option N)
| GetNext (now : Z)
| Complete (now : Z) (p_job_id : N) (p_success : bool).

(** One call: the table afterwards.  A call that raises leaves the
    table as it was: an INSERT that repeats a primary key, and
    [get_next_job] when its statement is refused. *)
Definition step (c : call) (t : table) : table :=
  match c with
  | Enqueue now new_id p_book_id p_job_type p_input_data p_priority p_depends_on_job =>
      if existsb (fun r => (id r =? new_id)%N) t then t
      else enqueue_job now new_id p_book_id p_job_type p_input_data p_priority
             p_depends_on_job t
  | GetNext now =>
      match get_next_job now t with
      | gives (t', _) => t'
      | raises _ => t
      end
  | Complete now p_job_id p_success => complete_job now p_job_id p_success t
  end.

(** The calls made one after the other: the table at the end. *)
Fixpoint run (cs : list call) (t : table) : table :=
  match cs with
  | [] => t
  | c :: cs' => run cs' (step c t)
  end.

Definition hasStatus (s : jobStatus) (k : N) (t : table) : bool :=
  match find (fun r => (id r =? k)%N) t with
  | Some j => jobStatus_eqb (status j) s
  | None => false
  end.

(** The call reports a failure of the job [k] and leaves it pending. *)
Definition requeues (k : N) (c : call) (t : table) : bool :=
  match c with
  | Complete _ p_job_id false => (p_job_id =? k)%N && hasStatus pending k (step c t)
  | _ => false
  end.

(** How often the calls put the job [k] back in the queue. *)
Fixpoint requeued (k : N) (cs : list call) (t : table) : nat :=
  match cs with
  | [] => 0
  | c :: cs' => (if requeues k c t then 1 else 0) + requeued k cs' (step c t)
  end.

(** The attempts a job has left: its retry cap less its retry count. *)
Definition budget (j : job) : nat :=
  match retry_count j, max_retries j with
  | Some r, Some m => Z.to_nat (m - r)
  | _, _ => 0
  end.

(** The attempts of the job with id [k]: those of its row, and those of a
    new row (the column defaults, 0 of 3) when the table has none. *)
Definition budgetOf (k : N) (t : table) : nat :=
  match find (fun r => (id r =? k)%N) t with
  | Some j => budget j
  | None => 3
  end.

End JobTrace.

(* ================================================================== *)
(** * The result cache (PL/pgSQL) *)
(* ================================================================== *)

Module CacheStore.

(** [processing_cache.cache_type], by its CHECK constraint. *)
Inductive cacheType := text_extraction | chapter_detection | ai_enhancement | full_workflow.

Definition cacheType_eqb (a b : cacheType) : bool :=
  match a, b with
  | text_extraction, text_extraction | chapter_detection, chapter_detection
  | ai_enhancement, ai_enhancement | full_workflow, full_workflow => true
  | _, _ => false
  end.

(** Equality of two texts. *)
Fixpoint str_eqb (a b : JS.str) : bool :=
  match a, b with
  | [], [] => true
  | x :: a', y :: b' => (x =? y)%N && str_eqb a' b'
  | _, _ => false
  end.

Section Rows.

(** The JSONB values the cache holds ([output_data] is NOT NULL). *)
Variable json : Type.

(** A row of [processing_cache]; [cache_key] is UNIQUE; timestamps are
    seconds. *)
Record row := Row {
  id : N;
  cache_key : JS.str;
  cache_type : cacheType;
  input_hash : JS.str;
  output_data : json;
  file_size : option Z;
  processing_time_seconds : option Z;
  hit_count : option Z;
  created_at : Z;
  last_accessed_at : Z
}.

Definition table := list row.

Definition hasKey (k : JS.str) (r : row) : bool := str_eqb (cache_key r) k.

(** [store_cached_result]: INSERT ... ON CONFLICT (cache_key) DO UPDATE.
    A new row takes the column defaults ([hit_count] 0, both timestamps
    [now()]); on a conflict the row of that key gets the new output, its
    hit count is reset and its access time is set, and everything else
    (its type among it) stays. *)
Definition store_cached_result (now : Z) (new_id : N)
    (p_cache_key : JS.str) (p_cache_type : cacheType) (p_input_hash : JS.str)
    (p_output_data : json) (p_file_size p_processing_time_seconds : option Z)
    (t : table) : table :=
  if existsb (hasKey p_cache_key) t
  then map (fun r =>
              if hasKey p_cache_key r
              then Row (id r) (cache_key r) (cache_type r) (input_hash r)
                       p_output_data (file_size r) (processing_time_seconds r)
                       (Some 0%Z) (created_at r) now
              else r) t
  else t ++ [Row new_id p_cache_key p_cache_type p_input_hash p_output_data
                 p_file_size p_processing_time_seconds (Some 0%Z) now now].

(** The WHERE clause of [get_cached_result]. *)
Definition hit (p_cache_key : JS.str) (p_cache_type : cacheType) (r : row) : bool :=
  hasKey p_cache_key r && cacheType_eqb (cache_type r) p_cache_type.

Definition touch (now : Z) (r : row) : row :=
  Row (id r) (cache_key r) (cache_type r) (input_hash r) (output_data r)
      (file_size r) (processing_time_seconds r)
      (option_map (fun h => h + 1)%Z (hit_count r)) (created_at r) now.

(** [get_cached_result]: the UPDATE counts the hit on the matching row
    and RETURNING ... INTO hands back its output; [None] is the NULL of a
    miss. *)
Definition get_cached_result (now : Z) (p_cache_key : JS.str) (p_cache_type : cacheType)
    (t : table) : table * option json :=
  (map (fun r => if hit p_cache_key p_cache_type r then touch now r else r) t,
   option_map output_data (find (hit p_cache_key p_cache_type) t)).

(** The columns of a row that [cleanup_old_cache] looks at. *)
Definition toEntry (r : row) : Cache.entry :=
  Cache.Entry (cache_key r) (file_size r) (hit_count r) (created_at r).

(** [n] lookups one after the other, at the times [times]. *)
Fixpoint lookups (times : list Z) (k : JS.str) (ty : cacheType) (t : table)
    : table * list (option json) :=
  match times with
  | [] => (t, [])
  | now :: times' =>
      let '(t1, res) := get_cached_result now k ty t in
      let '(t2, ress) := lookups times' k ty t1 in
      (t2, res :: ress)
  end.

End Rows.

Arguments Row {json}.
Arguments id {json}.
Arguments cache_key {json}.
Arguments cache_type {json}.
Arguments input_hash {json}.
Arguments output_data {json}.
Arguments file_size {json}.
Arguments processing_time_seconds {json}.
Arguments hit_count {json}.
Arguments created_at {json}.
Arguments last_accessed_at {json}.
Arguments hasKey {json}.
Arguments hit {json}.
Arguments touch {json}.
Arguments store_cached_result {json}.
Arguments get_cached_result {json}.
Arguments toEntry {json}.
Arguments lookups {json}.

End CacheStore.

(* ================================================================== *)
(** * Progress tracking (PL/pgSQL) *)
(* ================================================================== *)

Module Progress.

(** [processing_progress.stage], by its CHECK constraint. *)
Inductive stage :=
| uploading | extracting_text | detecting_chapters | storing_chapters
| enhancing_chapters | generating_summaries | completed | failed.

Definition stage_eqb (a b : stage) : bool :=
  match a, b with
  | uploading, uploading | extracting_text, extracting_text
  | detecting_chapters, detecting_chapters | storing_chapters, storing_chapters
  | enhancing_chapters, enhancing_chapters
  | generating_summaries, generating_summaries
  | completed, completed | failed, failed => true
  | _, _ => false
  end.

(** A row of [processing_progress]; (book_id, stage) is UNIQUE; the two
    progress columns are nullable and CHECKed to lie in 0..100. *)
Record row := Row {
  id : N;
  book_id : N;
  stage_of : stage;
  stage_progress : option Z;
  overall_progress : option Z;
  current_step : option JS.str;
  message : option JS.str;
  created_at : Z;
  updated_at : Z
}.

(** The columns of [books] the function writes. *)
Record book := Book {
  book_key : N;
  processing_status : Schema.processingStatus;
  processing_completed_at : option Z
}.

(** [CHECK (x >= 0 AND x <= 100)]: a NULL passes. *)
Definition inRange (x : option Z) : bool :=
  match x with
  | Some v => (0 <=? v)%Z && (v <=? 100)%Z
  | None => true
  end.

Definition sameKey (b : N) (s : stage) (r : row) : bool :=
  (book_id r =? b)%N && stage_eqb (stage_of r) s.

(** [COALESCE(new, old)] *)
Definition coalesce {A : Type} (new old : option A) : option A :=
  match new with Some _ => new | None => old end.

(** The INSERT ... ON CONFLICT (book_id, stage) DO UPDATE. *)
Definition upsert (now : Z) (new_id p_book_id : N) (p_stage : stage)
    (p_stage_progress p_overall_progress : option Z)
    (p_current_step p_message : option JS.str) (t : list row) : list row :=
  if existsb (sameKey p_book_id p_stage) t
  then map (fun r =>
              if sameKey p_book_id p_stage r
              then Row (id r) (book_id r) (stage_of r) p_stage_progress p_overall_progress
                       (coalesce p_current_step (current_step r))
                       (coalesce p_message (message r)) (created_at r) now
              else r) t
  else t ++ [Row new_id p_book_id p_stage p_stage_progress p_overall_progress
                 p_current_step p_message now now].

(** The UPDATE of [books] that follows for the two closing stages. *)
Definition markBook (now : Z) (p_book_id : N) (p_stage : stage) (books : list book)
    : list book :=
  match p_stage with
  | completed =>
      map (fun b => if (book_key b =? p_book_id)%N
                    then Book (book_key b) Schema.ps_completed (Some now) else b) books
  | failed =>
      map (fun b => if (book_key b =? p_book_id)%N
                    then Book (book_key b) Schema.ps_failed (processing_completed_at b)
                    else b) books
  | _ => books
  end.

(** [update_processing_progress]: [None] when the INSERT raises (no such
    book, or a progress value outside 0..100), which leaves both tables
    as they were. *)
Definition update_processing_progress (now : Z) (new_id p_book_id : N) (p_stage : stage)
    (p_stage_progress p_overall_progress : option Z)
    (p_current_step p_message : option JS.str)
    (t : list row) (books : list book) : option (list row * list book) :=
  if existsb (fun b => (book_key b =? p_book_id)%N) books
     && inRange p_stage_progress && inRange p_overall_progress
  then Some (upsert now new_id p_book_id p_stage p_stage_progress p_overall_progress
               p_current_step p_message t,
             markBook now p_book_id p_stage books)
  else None.

End Progress.

(* ================================================================== *)
(** * The enhancement status trigger (PL/pgSQL) *)
(* ================================================================== *)

Module EnhanceTrigger.

(** [chapters.enhancement_status] and [books.enhancement_status], by the
    CHECK constraints of the migration that creates the trigger. *)
Inductive status := pending | processing | completed | failed | skipped.

Definition status_eqb (a b : status) : bool :=
  match a, b with
  | pending, pending | processing, processing | completed, completed
  | failed, failed | skipped, skipped => true
  | _, _ => false
  end.

(** [SELECT COUNT( * ) ... AND enhancement_status IN (...)]: a NULL status
    is in no list. *)
Definition countIn (among : list status) (chapters : list (option status)) : nat :=
  length (filter (fun s => match s with
                           | Some x => existsb (status_eqb x) among
                           | None => false
                           end) chapters).

Record book := Book {
  enhancement_status : option status;
  enhancement_completed_at : option Z
}.

(** The two CASE expressions of the UPDATE, on the statuses of the
    chapters of the book. *)
Definition newStatus (chapters : list (option status)) : status :=
  if 0 <? countIn [failed] chapters then failed
  else if 0 <? countIn [pending; processing] chapters then processing
  else if countIn [completed] chapters =? length chapters then completed
  else processing.

Definition newCompletedAt (now : Z) (chapters : list (option status)) : option Z :=
  if countIn [completed] chapters =? length chapters then Some now else None.

(** [NEW.enhancement_status != OLD.enhancement_status]: true only when
    both are set and differ. *)
Definition changed (old new : option status) : bool :=
  match old, new with
  | Some a, Some b => negb (status_eqb a b)
  | _, _ => false
  end.

(** [update_book_enhancement_status], fired after the UPDATE of a
    chapter: [chapters] are the statuses of the chapters of its book. *)
Definition update_book_enhancement_status (now : Z) (old new : option status)
    (chapters : list (option status)) (b : book) : book :=
  if changed old new
  then Book (Some (newStatus chapters)) (newCompletedAt now chapters)
  else b.

End EnhanceTrigger.

(* ================================================================== *)
(** * The chapter store: batches *)
(* ================================================================== *)

Module Batches.

Import JS.

(** [for (let i = 0; i < items.length; i += size) out.push(items.slice(i, i + size))].
    With [size >= 1] the loop body runs at most [items.length] times. *)
Fixpoint chunkFrom {A : Type} (fuel size : nat) (items : list A) (i : nat) : list (list A) :=
  match fuel with
  | O => []
  | S fuel' =>
      if i <? length items
      then slice items i (i + size) :: chunkFrom fuel' size items (i + size)
      else []
  end.

Definition chunksOf {A : Type} (size : nat) (items : list A) : list (list A) :=
  chunkFrom (length items) size items 0.

(** What a request to the database comes back with: the rows it stored,
    neither rows nor an error, an error, or an exception. *)
Inductive response :=
| Rows (data : list ChapterForDB.t)
| Nothing
| Failure
| Thrown.

(** The fallback of [insertChaptersInBatches]: the chapters of a batch one
    by one; [db n rows] is the response to the [n]-th request. *)
Fixpoint insertSingly (db : nat -> list ChapterForDB.t -> response) (n : nat)
    (batch : list ChapterForDB.t) : nat * list ChapterForDB.t :=
  match batch with
  | [] => (n, [])
  | chapter :: rest =>
      let '(n', inserted) := insertSingly db (S n) rest in
      (n', match db n [chapter] with
           | Rows singleData => singleData ++ inserted
           | _ => inserted
           end)
  end.

Fixpoint insertBatches (db : nat -> list ChapterForDB.t -> response) (n : nat)
    (batches : list (list ChapterForDB.t)) : list ChapterForDB.t :=
  match batches with
  | [] => []
  | batch :: rest =>
      match db n batch with
      | Rows data => data ++ insertBatches db (S n) rest
      | Nothing | Thrown => insertBatches db (S n) rest
      | Failure =>
          let '(n', inserted) := insertSingly db (S n) batch in
          inserted ++ insertBatches db n' rest
      end
  end.

(** [insertChaptersInBatches]: batches of 10. *)
Definition insertChaptersInBatches (db : nat -> list ChapterForDB.t -> response)
    (chapters : list ChapterForDB.t) : list ChapterForDB.t :=
  insertBatches db 0 (chunksOf 10 chapters).

(** A call of [enqueue_job] for a batch of chapters to enhance. *)
Record enhancementJob := EnhancementJob {
  p_book_id : str;
  job_chapters : list ChapterForDB.t;
  batch_number : nat;
  total_batches : nat;
  p_priority : nat
}.

Fixpoint enqueueFrom (bookId : str) (total i : nat) (batches : list (list ChapterForDB.t))
    : list enhancementJob :=
  match batches with
  | [] => []
  | batch :: rest =>
      EnhancementJob bookId batch (i + 1) total (Nat.min (5 + i) 10)
      :: enqueueFrom bookId total (S i) rest
  end.

(** [enqueueEnhancementJobs]: the calls of [enqueue_job] it makes, in order,
    when none of them throws; batches of 5. *)
Definition enqueueEnhancementJobs (bookId : str) (chapters : list ChapterForDB.t)
    : list enhancementJob :=
  let batches := chunksOf 5 chapters in
  enqueueFrom bookId (length batches) 0 batches.

End Batches.

(* ================================================================== *)
(** * The name of the stored file *)
(* ================================================================== *)

Module FileName.

Import JS.

(** [\w] *)
Definition isWord (c : char) : bool :=
  isDigit c || isUpper c || isLower c || (c =? 95)%N.

(** [[^\w\s.-]] *)
Definition unsafe (c : char) : bool :=
  negb (isWord c || isSpace c || (c =? 46)%N || (c =? 45)%N).

(** [sanitizeFileName]: the three replacements, in order. *)
Definition sanitizeFileName (fileName : str) : str :=
  replaceAll noFlags
    (replaceAll noFlags
       (replaceAll noFlags fileName (Cls unsafe) [])
       (plus (Cls isSpace)) (lit "_"))
    (atLeast 2 (chr 95%N)) (lit "_").

(** The object the extraction stage downloads from the bucket. *)
Definition objectPath (user_id file_name : str) : str :=
  user_id ++ lit "/" ++ sanitizeFileName file_name.

End FileName.

(* ================================================================== *)
(** * Highlight quotes *)
(* ================================================================== *)

Module Quotes.

Import JS.

Definition QUOTE : char := 34%N.

(** The pattern for quoted passages: a quotation mark, 20 to 200
    characters other than one (capture 1), and a quotation mark. *)
Definition quoted : regex :=
  seqs [chr QUOTE;
        Group 1 (between 20 200 (Cls (fun c => negb (c =? QUOTE)%N)));
        chr QUOTE].

Definition importantPhrases : list str :=
  map lit ["The key is"%string; "It is important"%string; "Remember that"%string;
           "The main point"%string; "In conclusion"%string; "To summarize"%string;
           "Most importantly"%string; "This means"%string].

(** [content.match(quoted)]: the texts matched; the empty list is [null]. *)
Definition quotedMatches (content : str) : list str :=
  map (fun m => firstn (snd m - fst m) (skipn (fst m) content))
      (allMatches noFlags content quoted (length content + 2) 0).

Definition isImportant (trimmed : str) : bool :=
  existsb (fun phrase => includes (toLowerCase trimmed) (toLowerCase phrase))
          importantPhrases.

(** The loop over the sentences: it stops once there are 5 quotes. *)
Fixpoint sentenceLoop (quotes : list str) (sentences : list str) : list str :=
  match sentences with
  | [] => quotes
  | sentence :: rest =>
      let trimmed := trim sentence in
      let quotes' :=
        if (50 <? length trimmed) && (length trimmed <? 300) && isImportant trimmed
        then quotes ++ [trimmed] else quotes in
      if 5 <=? length quotes' then quotes' else sentenceLoop quotes' rest
  end.

(** [extractPotentialQuotes] *)
Definition extractPotentialQuotes (content : str) : list str :=
  let quotes :=
    map (fun q => replaceAll noFlags q (chr QUOTE) [])
        (slice (quotedMatches content) 0 3) in
  slice (sentenceLoop quotes (splitSentences content)) 0 5.

End Quotes.



(* ================================================================== *)
(** * The enhancement worker: one chapter, one batch *)
(* ================================================================== *)

Module EnhanceAI.

Import JS.

(** [interface ChapterData] *)
Record ChapterData := MakeChapterData {
  id : N;
  chapter_number : nat;
  title : str;
  content : str;
  word_count : nat
}.

(** A value of the parsed answer, as far as the code looks at it: a
    text, or something else, of which only the truthiness matters.  A
    missing field is [Other false]. *)
Inductive value := Text (s : str) | Other (isTruthy : bool).

Definition truthy (v : value) : bool :=
  match v with
  | Text [] => false
  | Text (_ :: _) => true
  | Other b => b
  end.

(** What [JSON.parse] made of the answer, when that is an object;
    [e_keyQuotes] is [None] when its [keyQuotes] is not an array. *)
Record enhancementJson := MakeJson {
  e_title : value;
  e_content : value;
  e_summary : value;
  e_keyQuotes : option (list value)
}.

Inductive aiModel := gpt_4o_mini | fallback.

(** [interface EnhancementResult], without the processing time. *)
Record EnhancementResult := MakeResult {
  r_title : str;
  r_content : value;
  r_summary : str;
  r_keyQuotes : list value;
  r_model : aiModel
}.

(** How a request to the model ends: with an exception (of the request,
    of reading the body, or of reading its first choice), with a status
    outside 200..299, or with an answer, which [JSON.parse] turns into
    an object or does not (it raises, or gives something else). *)
Inductive reply :=
| Failed
| Refused (status : nat)
| Answered (parsed : option enhancementJson).

Definition maxRetries : nat := 3.

Definition fallbackResult (chapter : ChapterData) (bookTitle : str) : EnhancementResult :=
  MakeResult (title chapter) (Text (content chapter))
    (lit "Chapter " ++ showNat (chapter_number chapter) ++ lit " from " ++ bookTitle
     ++ lit ". AI enhancement parsing failed.")
    [] fallback.

(** The inner [try] of [enhanceChapterWithAI] on a parsed answer: the
    three fields are required; [substring] of a title or a summary that
    is no text raises, which the inner [catch] answers like any other
    failure, with the chapter as it is. *)
Definition accept (chapter : ChapterData) (bookTitle : str) (parsed : option enhancementJson)
    : EnhancementResult :=
  match parsed with
  | Some e =>
      if negb (truthy (e_title e)) || negb (truthy (e_content e))
         || negb (truthy (e_summary e))
      then fallbackResult chapter bookTitle
      else
        match e_title e, e_summary e with
        | Text t, Text s =>
            MakeResult (substring t 0 200) (e_content e) (substring s 0 500)
                       (match e_keyQuotes e with
                        | Some quotes => slice quotes 0 5
                        | None => []
                        end)
                       gpt_4o_mini
        | _, _ => fallbackResult chapter bookTitle
        end
  | None => fallbackResult chapter bookTitle
  end.

(** The [while] loop of [enhanceChapterWithAI]; [replies k] is how the
    request made with [retryCount = k] ends.  Every way a request can go
    wrong (an exception, a 429, a status of 500 or more, any other
    status, which is thrown and caught) raises [retryCount] by one, and
    the loop gives up when it exceeds [maxRetries].  The result comes
    with the number of requests made, which is also how often the
    [finally] block lowers [activeRequests]. *)
Fixpoint enhanceFrom (replies : nat -> reply) (chapter : ChapterData) (bookTitle : str)
    (fuel retryCount : nat) : option EnhancementResult * nat :=
  match fuel with
  | O => (None, 0)
  | S fuel' =>
      if retryCount <=? maxRetries then
        match replies retryCount with
        | Answered parsed => (Some (accept chapter bookTitle parsed), 1)
        | Failed | Refused _ =>
            let '(r, n) := enhanceFrom replies chapter bookTitle fuel' (S retryCount) in
            (r, S n)
        end
      else (None, 0)
  end.

Definition enhanceChapterWithAI (replies : nat -> reply) (chapter : ChapterData)
    (bookTitle : str) : option EnhancementResult * nat :=
  enhanceFrom replies chapter bookTitle (maxRetries + 2) 0.

(** The column of [chapters] that the batch writes and that
    [updateBookEnhancementStatus] reads. *)
Record chapterRow := MakeRow {
  row_id : N;
  enhancement_status : option Schema.enhancementStatus
}.

Definition setStatus (k : N) (s : Schema.enhancementStatus) (t : list chapterRow)
    : list chapterRow :=
  map (fun r => if (row_id r =? k)%N then MakeRow (row_id r) (Some s) else r) t.

(** [interface BatchResult], without the processing time. *)
Record BatchResult := MakeBatch {
  processedChapters : nat;
  successfulEnhancements : nat;
  failedEnhancements : nat;
  rateLimitDelays : nat
}.

Section Batch.

(** How the requests for a chapter end, whether the UPDATE of
    [updateChapterInDB] goes through for it, and whether that of
    [markChapterEnhancementFailed] does. *)
Variable replies : N -> nat -> reply.
Variable updateOk : N -> bool.
Variable markOk : N -> bool.
Variable bookTitle : str.

(** One turn of the loop of [enhanceChaptersWithRateLimit]. *)
Definition enhanceOne (acc : list chapterRow * BatchResult) (last : bool)
    (chapter : ChapterData) : list chapterRow * BatchResult :=
  let '(t, results) := acc in
  let delays := if last then rateLimitDelays results else rateLimitDelays results + 1 in
  match fst (enhanceChapterWithAI (replies (id chapter)) chapter bookTitle) with
  | Some enhancement =>
      if updateOk (id chapter)
      then (setStatus (id chapter) Schema.completed t,
            MakeBatch (processedChapters results + 1)
                      (successfulEnhancements results + 1)
                      (failedEnhancements results) delays)
      else ((if markOk (id chapter) then setStatus (id chapter) Schema.failed t else t),
            MakeBatch (processedChapters results + 1)
                      (successfulEnhancements results)
                      (failedEnhancements results + 1) delays)
  | None =>
      (t, MakeBatch (processedChapters results + 1)
                    (successfulEnhancements results)
                    (failedEnhancements results + 1) delays)
  end.

Fixpoint enhanceLoop (acc : list chapterRow * BatchResult) (chapters : list ChapterData)
    : list chapterRow * BatchResult :=
  match chapters with
  | [] => acc
  | chapter :: rest =>
      enhanceLoop (enhanceOne acc (match rest with [] => true | _ => false end) chapter)
                  rest
  end.

(** [enhanceChaptersWithRateLimit]: the table of chapters afterwards and
    the counts. *)
Definition enhanceChaptersWithRateLimit (chapters : list ChapterData)
    (t : list chapterRow) : list chapterRow * BatchResult :=
  enhanceLoop (t, MakeBatch 0 0 0 0) chapters.

End Batch.

End EnhanceAI.

(* ================================================================== *)
(** * The status report: the stages of a book *)
(* ================================================================== *)

Module StatusReport.

Import JS.

(** [StageStatus.status] *)
Inductive stageState := pending | running | completed | failed.

(** The columns of [processing_jobs] that the report reads; timestamps
    are milliseconds. *)
Record jobRow := MakeJob {
  job_type : JobQueue.jobType;
  status : JobQueue.jobStatus;
  started_at : option Z;
  completed_at : option Z;
  error_message : option str
}.

(** [interface StageStatus] *)
Record StageStatus := MakeStage {
  name : Progress.stage;
  state : stageState;
  progress : Z;
  duration : option Z;
  startTime : option Z;
  endTime : option Z;
  message : option str
}.

Definition stageOrder : list Progress.stage :=
  [Progress.uploading; Progress.extracting_text; Progress.detecting_chapters;
   Progress.storing_chapters; Progress.enhancing_chapters].

(** [getJobStage] on the job types that the table admits. *)
Definition getJobStage (jobType : JobQueue.jobType) : Progress.stage :=
  match jobType with
  | JobQueue.extract_text => Progress.extracting_text
  | JobQueue.detect_chapters => Progress.detecting_chapters
  | JobQueue.store_chapters => Progress.storing_chapters
  | JobQueue.enhance_chapters => Progress.enhancing_chapters
  end.

Definition hasStatus (s : JobQueue.jobStatus) (j : jobRow) : bool :=
  JobQueue.jobStatus_eqb (status j) s.

(** [x || 0] on a nullable number. *)
Definition orZero (x : option Z) : Z :=
  match x with Some v => v | None => 0%Z end.

(** [Math.round] of a number of milliseconds divided by 1000. *)
Definition roundSeconds (ms : Z) : Z := ((ms + 500) / 1000)%Z.

(** The body of the loop of [buildStageStatuses], in the order of the
    source: the progress row, the jobs, the status of the enhancement of
    the book. *)
Definition stageStatus (progressData : list Progress.row) (jobData : list jobRow)
    (enhancement : option Schema.enhancementStatus) (stageName : Progress.stage)
    : StageStatus :=
  let stageProgress :=
    find (fun p => Progress.stage_eqb (Progress.stage_of p) stageName) progressData in
  let stageJobs :=
    filter (fun j => Progress.stage_eqb (getJobStage (job_type j)) stageName) jobData in
  let s0 :=
    match stageProgress with
    | Some p =>
        let progress := orZero (Progress.stage_progress p) in
        MakeStage stageName
          (if (100 <=? progress)%Z then completed
           else if (0 <? progress)%Z then running else pending)
          progress None None None (Progress.message p)
    | None => MakeStage stageName pending 0 None None None None
    end in
  let completedJobs := filter (hasStatus JobQueue.completed) stageJobs in
  let runningJobs := filter (hasStatus JobQueue.running) stageJobs in
  let failedJobs := filter (hasStatus JobQueue.failed) stageJobs in
  let s1 :=
    match failedJobs, completedJobs, runningJobs with
    | j :: _, _, _ =>
        MakeStage stageName failed (progress s0) None None None
          (Some (match error_message j with
                 | Some (c :: m) => c :: m
                 | _ => lit "Stage failed"
                 end))
    | [], j :: _, _ =>
        MakeStage stageName completed 100
          (match started_at j, completed_at j with
           | Some a, Some b => Some (roundSeconds (b - a))
           | _, _ => None
           end)
          (started_at j) (completed_at j) (message s0)
    | [], [], j :: _ =>
        MakeStage stageName running (progress s0) None (started_at j) None (message s0)
    | [], [], [] => s0
    end in
  if Progress.stage_eqb stageName Progress.enhancing_chapters then
    match enhancement with
    | Some Schema.completed =>
        MakeStage stageName completed 100 (duration s1) (startTime s1) (endTime s1)
          (message s1)
    | Some Schema.processing =>
        MakeStage stageName running (progress s1) (duration s1) (startTime s1) (endTime s1)
          (message s1)
    | Some Schema.failed =>
        MakeStage stageName failed (progress s1) (duration s1) (startTime s1) (endTime s1)
          (message s1)
    | _ => s1
    end
  else s1.

(** [buildStageStatuses] *)
Definition buildStageStatuses (progressData : list Progress.row) (jobData : list jobRow)
    (enhancement : option Schema.enhancementStatus) : list StageStatus :=
  map (stageStatus progressData jobData enhancement) stageOrder.

End StatusReport.

(* ================================================================== *)
(** * Facts about the runtime fragment *)
(* ================================================================== *)

Module JSFacts.

Import JS.

Section Sorting.

Context {A : Type}.
Variable cmpLe : A -> A -> bool.

Lemma insertBy_perm (x : A) (l : list A) : Permutation (insertBy cmpLe x l) (x :: l).
Proof.
  induction l as [|y l IH]; simpl.
  - apply Permutation_refl.
  - destruct (cmpLe x y).
    + apply Permutation_refl.
    + apply Permutation_trans with (y :: x :: l).
      * apply perm_skip, IH.
      * apply perm_swap.
Qed.

Lemma sortBy_perm (l : list A) : Permutation (sortBy cmpLe l) l.
Proof.
  induction l as [|x l IH]; simpl.
  - apply perm_nil.
  - apply Permutation_trans with (x :: sortBy cmpLe l).
    + apply insertBy_perm.
    + apply perm_skip, IH.
Qed.

Lemma sortBy_In (l : list A) (x : A) : In x (sortBy cmpLe l) <-> In x l.
Proof.
  split; apply Permutation_in;
    [apply sortBy_perm | apply Permutation_sym, sortBy_perm].
Qed.

Lemma sortBy_length (l : list A) : length (sortBy cmpLe l) = length l.
Proof. apply Permutation_length, sortBy_perm. Qed.

(** On a set [P] of elements where the comparator is total and
    transitive, the sorted array is ordered. *)
Variable P : A -> Prop.
Hypothesis total : forall a b, P a -> P b -> cmpLe a b = true \/ cmpLe b a = true.
Hypothesis trans : forall a b c, P a -> P b -> P c ->
  cmpLe a b = true -> cmpLe b c = true -> cmpLe a c = true.

Let R (a b : A) : Prop := cmpLe a b = true.

Lemma insertBy_sorted (x : A) (l : list A) :
  P x -> Forall P l -> StronglySorted R l -> StronglySorted R (insertBy cmpLe x l).
Proof.
  intros Px Pl Hs. induction Hs as [|y l Hs IH Hy]; simpl.
  - constructor; constructor.
  - inversion Pl as [|? ? Py Pl']; subst.
    pose proof (proj1 (Forall_forall _ _) Pl') as Pin.
    pose proof (proj1 (Forall_forall _ _) Hy) as Hyin.
    destruct (cmpLe x y) eqn:E.
    + constructor.
      * constructor; assumption.
      * constructor; [exact E|].
        apply Forall_forall. intros z Hz.
        apply (trans x y z); auto. apply Hyin, Hz.
    + constructor.
      * apply IH; assumption.
      * assert (Hyx : cmpLe y x = true).
        { destruct (total x y Px Py) as [H|H]; congruence. }
        apply Forall_forall. intros z Hz.
        apply (Permutation_in _ (insertBy_perm x l)) in Hz.
        destruct Hz as [<-|Hz]; [exact Hyx | apply Hyin, Hz].
Qed.

Lemma sortBy_sorted (l : list A) : Forall P l -> StronglySorted R (sortBy cmpLe l).
Proof.
  induction l as [|x l IH]; intros Pl; simpl.
  - constructor.
  - inversion Pl as [|? ? Px Pl']; subst. apply insertBy_sorted.
    + exact Px.
    + apply Forall_forall. intros z Hz. apply (proj1 (sortBy_In l z)) in Hz.
      exact (proj1 (Forall_forall _ _) Pl' z Hz).
    + apply IH, Pl'.
Qed.


End Sorting.

Lemma sortBy_nonempty {A : Type} (cmpLe : A -> A -> bool) (x : A) (l : list A) :
  exists y rest, sortBy cmpLe (x :: l) = y :: rest.
Proof.
  destruct (sortBy cmpLe (x :: l)) as [|y rest] eqn:E.
  - apply (f_equal (@length A)) in E. rewrite sortBy_length in E. discriminate.
  - eauto.
Qed.

End JSFacts.

(* ================================================================== *)
(** * Facts about the Numbers *)
(* ================================================================== *)

Module DoubleFacts.

Import Double.









(** A multiple of the smallest positive double. *)
Definition Grid (q : Q) : Prop := exists z : Z, (q == inject_Z z * 2 ^ (-1074))%Q.

(** A double that is a number. *)
Definition Value (x : t) : Prop :=
  match x with
  | NaN => False
  | Infinity _ => True
  | Finite q => Grid q
  end.















Lemma leb_refl (x : t) : Value x -> leb x x = true.
Proof.
  destruct x as [|[]|q]; cbn [Value leb]; intros H; try reflexivity; [destruct H|].
  apply Qle_bool_iff. lra.
Qed.







End DoubleFacts.

(* ================================================================== *)
(** * The job queue: which job is claimed *)
(* ================================================================== *)

Module JobQueueFacts.

Import JobQueue.

Lemma jobStatus_eqb_eq (a b : jobStatus) : jobStatus_eqb a b = true <-> a = b.
Proof. destruct a, b; simpl; split; intros H; try reflexivity; discriminate. Qed.

(** PostgreSQL refuses the statement of [get_next_job] as it is
    redefined, whatever the table holds: its locking clause reaches the
    nullable side of its outer join. *)
Lemma get_next_job_raises (now : Z) (t : table) :
  get_next_job now t
  = raises (JS.lit "FOR UPDATE cannot be applied to the nullable side of an outer join").
Proof. reflexivity. Qed.

(** And that of [get_next_job] as it was first defined: [book_id] in its
    RETURNING list is a column of the table and a column of its RETURNS
    TABLE. *)
Lemma get_next_job_v1_raises (now : Z) (p_job_types : option (list jobType))
    (p_max_priority : Z) (t : table) :
  get_next_job_v1 now p_job_types p_max_priority t
  = raises (JS.lit "column reference " ++ [QUOTE] ++ JS.lit "book_id" ++ [QUOTE]
            ++ JS.lit " is ambiguous").
Proof. reflexivity. Qed.

(** A queue of two pending jobs without dependency, the second one the
    more urgent. *)
Definition twoJobs : table :=
  enqueue_job 2 2 7 detect_chapters [] 1 None
    (enqueue_job 1 1 7 extract_text [] 5 None []).

(** C2: the code at [twoJobs].  Both jobs are pending and depend on
    nothing, and job 2 has the lowest priority value, so the claim has it
    selected, which is also what the inner SELECT of either definition
    would find; but a call raises, in either definition, and no job is
    returned or marked as running. *)
Theorem get_next_job_hands_out_nothing :
  map id (JS.sortBy orderLe (filter (specCandidate twoJobs) twoJobs)) = [2%N; 1%N] /\
  next_id twoJobs = Some 2%N /\
  map id (snd (claimFirst 9 None 10 twoJobs)) = [2%N] /\
  get_next_job 9 twoJobs
  = raises (JS.lit "FOR UPDATE cannot be applied to the nullable side of an outer join") /\
  get_next_job_v1 9 None 10 twoJobs
  = raises (JS.lit "column reference " ++ [QUOTE] ++ JS.lit "book_id" ++ [QUOTE]
            ++ JS.lit " is ambiguous").
Proof. vm_compute. repeat split. Qed.

End JobQueueFacts.

(* ================================================================== *)
(** * The aggregate enhancement status *)
(* ================================================================== *)

Module EnhanceFacts.

Import Schema Enhance.

(** Every chapter is completed or failed. *)
Definition AllTerminal (l : list (option enhancementStatus)) : Prop :=
  Forall (fun s => s = Some completed \/ s = Some failed) l.

Lemma key_eqb_eq (a b : option enhancementStatus) : key_eqb a b = true <-> a = b.
Proof.
  destruct a as [[]|], b as [[]|]; simpl; split; intros H;
    try reflexivity; discriminate.
Qed.

(** The [counts] object holds, under each status, the number of chapters
    that have it, whatever it held before plus those seen. *)
Lemma fold_countOne (l : list (option enhancementStatus)) (acc : counts)
    (s : enhancementStatus) :
  fold_left countOne l acc (Some s) = acc (Some s) + occurrences s l.
Proof.
  revert acc. induction l as [|x l IH]; intros acc; simpl.
  - unfold occurrences. simpl. lia.
  - rewrite IH. unfold countOne, occurrences. simpl.
    destruct x as [x|]; simpl.
    + destruct (enhancementStatus_eqb s x) eqn:E; simpl; [|lia].
      assert (Some s = Some x) as Hsx by (apply key_eqb_eq; exact E).
      inversion Hsx; subst. lia.
    + lia.
Qed.

Lemma occurrences_le (s : enhancementStatus) (l : list (option enhancementStatus)) :
  occurrences s l <= length l.
Proof. apply filter_length_le. Qed.

Lemma occurrences_terminal (l : list (option enhancementStatus)) :
  occurrences completed l + occurrences failed l <= length l /\
  (occurrences completed l + occurrences failed l = length l <-> AllTerminal l).
Proof.
  unfold AllTerminal, occurrences.
  induction l as [|x l [IHle IH]]; simpl.
  - split; [lia|]. split; [constructor|reflexivity].
  - destruct x as [[]|]; simpl; (split; [lia|]); split; intros H;
      try (constructor; [auto | apply IH; lia]);
      try (inversion H as [|? ? [Hx|Hx] Ht]; subst; try discriminate;
           apply IH in Ht; lia);
      try lia.
Qed.

Lemma occurrences_all (l : list (option enhancementStatus)) :
  occurrences completed l = length l <-> Forall (fun s => s = Some completed) l.
Proof.
  unfold occurrences. induction l as [|x l IH]; simpl.
  - split; [constructor|reflexivity].
  - pose proof (filter_length_le (key_eqb (Some completed)) l) as Hle.
    destruct x as [[]|]; simpl; split; intros H;
      try (constructor; [reflexivity | apply IH; lia]);
      try (inversion H as [|? ? Hx Ht]; subst; try discriminate; apply IH in Ht; lia);
      try lia.
Qed.

(** C3, as amended.  The status written onto the book is: completed when
    every chapter is completed, and also when every chapter is completed
    or failed and the completed ones outnumber the failed ones; failed
    when every chapter is completed or failed, not all are completed, and
    the completed ones do not outnumber the failed ones; processing
    exactly when some chapter is neither completed nor failed. *)
Theorem enhancement_status_rule (l : list (option enhancementStatus)) (b : book) :
  enhancement_status (updateBookEnhancementStatus (Some l) b) = Some (overallStatus l) /\
  (overallStatus l = completed <->
     Forall (fun s => s = Some completed) l \/
     (AllTerminal l /\ occurrences failed l < occurrences completed l)) /\
  (overallStatus l = failed <->
     AllTerminal l /\ ~ Forall (fun s => s = Some completed) l /\
     occurrences completed l <= occurrences failed l) /\
  (overallStatus l = processing <-> ~ AllTerminal l).
Proof.
  split; [reflexivity|].
  unfold overallStatus. rewrite !fold_countOne. unfold noCounts. simpl.
  pose proof (occurrences_terminal l) as [Hle Hterm].
  pose proof (occurrences_all l) as Hall.
  pose proof (occurrences_le completed l) as Hc.
  destruct (Nat.eqb_spec (occurrences completed l) (length l)) as [E1|E1].
  - assert (Hf : occurrences failed l = 0) by lia.
    assert (Ht : AllTerminal l) by (apply Hterm; lia).
    assert (Ha : Forall (fun s => s = Some completed) l) by (apply Hall, E1).
    intuition (try discriminate; try lia).
  - assert (Ha : ~ Forall (fun s => s = Some completed) l)
      by (intros Ha; apply E1, Hall, Ha).
    destruct (Nat.eqb_spec (occurrences completed l + occurrences failed l) (length l))
      as [E2|E2].
    + assert (Ht : AllTerminal l) by (apply Hterm, E2).
      destruct (Nat.ltb_spec (occurrences failed l) (occurrences completed l)) as [E3|E3];
        intuition (try discriminate; try lia).
    + assert (Ht : ~ AllTerminal l) by (intros Ht; apply E2, Hterm, Ht).
      intuition (try discriminate; try lia).
Qed.

(** C3 as stated fails.  With two chapters completed and one failed the
    book is marked completed, and with one of each it is marked failed;
    the stated rule gives processing for both. *)
Lemma enhancement_status_majority_counterexample :
  overallStatus [Some completed; Some completed; Some failed] = completed /\
  specStatus [Some completed; Some completed; Some failed] = processing /\
  overallStatus [Some completed; Some failed] = failed /\
  specStatus [Some completed; Some failed] = processing.
Proof. repeat split. Qed.

End EnhanceFacts.

(* ================================================================== *)
(** * Cache eviction: the two passes *)
(* ================================================================== *)

Module CacheFacts.

Import Cache.

(** The rule of the specification: an entry goes when it is older than
    thirty days and has been hit fewer than two times. *)
Definition Stale (now : Z) (e : entry) : Prop :=
  (created_at e < now - 30 * day)%Z /\
  exists h, hit_count e = Some h /\ (h < 2)%Z.

Lemma evicted_Stale (now : Z) (e : entry) : evicted now e = true <-> Stale now e.
Proof.
  unfold evicted, Stale, sqlLtConst. rewrite andb_true_iff, Z.ltb_lt.
  destruct (hit_count e) as [h|].
  - rewrite Z.ltb_lt. split.
    + intros [H1 H2]. split; [exact H1|]. exists h. split; [reflexivity|exact H2].
    + intros [H1 [h' [E H2]]]. inversion E; subst. split; assumption.
  - split.
    + intros [_ H]. discriminate.
    + intros [_ [h [E _]]]. discriminate.
Qed.

(** The database function keeps exactly the entries that are not stale,
    in their order, and reports how many it deleted. *)
Theorem cleanup_old_cache_exact (now : Z) (t : table) :
  (forall e, In e (fst (cleanup_old_cache now t)) <-> In e t /\ ~ Stale now e) /\
  (forall e, In e t -> Stale now e -> ~ In e (fst (cleanup_old_cache now t))) /\
  (snd (cleanup_old_cache now t) + Z.of_nat (length (fst (cleanup_old_cache now t)))
   = Z.of_nat (length t))%Z.
Proof.
  unfold cleanup_old_cache. simpl. split; [|split].
  - intros e. rewrite filter_In, negb_true_iff, <- evicted_Stale.
    destruct (evicted now e); intuition congruence.
  - intros e _ Hs Hin. apply filter_In in Hin. destruct Hin as [_ Hin].
    apply evicted_Stale in Hs. rewrite Hs in Hin. discriminate.
  - induction t as [|e t IH]; [reflexivity|]. simpl.
    destruct (evicted now e); simpl length; lia.
Qed.

(** An entry written a hundred days ago and hit five times, and one
    written just now and never hit. *)
Definition hotEntry : entry := Entry (JS.lit "hot") (Some 4096%Z) (Some 5%Z) 0.
Definition freshEntry : entry :=
  Entry (JS.lit "fresh") (Some 1024%Z) (Some 0%Z) (100 * day).

(** C5 on [CacheManager.cleanup]: with the clock at day 100 neither entry
    is stale, and the database function keeps both, but
    [CacheManager.cleanup] deletes both, since its filter joins the two
    conditions with [or] and takes ninety days for the age. *)
Theorem CacheManager_cleanup_deletes_live_entries :
  evicted (100 * day) hotEntry = false /\
  evicted (100 * day) freshEntry = false /\
  fst (cleanup_old_cache (100 * day) [hotEntry; freshEntry]) = [hotEntry; freshEntry] /\
  fst (cleanup (100 * day) [hotEntry; freshEntry]) = [] /\
  deleted (snd (cleanup (100 * day) [hotEntry; freshEntry])) = 2.
Proof. vm_compute. repeat split. Qed.

End CacheFacts.

(* ================================================================== *)
(** * The chapter store: reading times and totals *)
(* ================================================================== *)

Module StoreFacts.

Import Store.

(** [rt] is [w / 200] rounded up. *)
Definition IsCeil200 (w rt : nat) : Prop := w <= 200 * rt /\ 200 * rt < w + 200.

Lemma readingTime_ceil (w : nat) : IsCeil200 w (readingTime w).
Proof.
  unfold IsCeil200, readingTime, Extract.ceilDiv.
  change (Z.of_nat 200) with 200%Z.
  unfold Qceiling, Qfloor, Qdiv, Qmult, Qinv, Qopp, inject_Z. simpl.
  rewrite Z.mul_1_r.
  pose proof (Z.div_mod (- Z.of_nat w) 200 ltac:(lia)) as Hdm.
  pose proof (Z.mod_pos_bound (- Z.of_nat w) 200 ltac:(lia)) as Hb.
  lia.
Qed.

Lemma fold_left_sum {A : Type} (f : A -> nat) (l : list A) (a : nat) :
  fold_left (fun sum x => sum + f x) l a = a + list_sum (map f l).
Proof.
  revert a. induction l as [|x l IH]; intros a; simpl; [lia|].
  rewrite IH. lia.
Qed.

Section Rows.

Variable extractPotentialQuotes : JS.str -> list JS.str.
Variable now : JS.str.
Variable bookId : JS.str.

Lemma prepareFrom_rows (chapters : list Chapter.t) (i : nat) :
  map ChapterForDB.word_count (prepareFrom extractPotentialQuotes now bookId i chapters)
  = map Chapter.wordCount chapters /\
  map ChapterForDB.reading_time_minutes
      (prepareFrom extractPotentialQuotes now bookId i chapters)
  = map (fun ch => readingTime (Chapter.wordCount ch)) chapters /\
  map ChapterForDB.chapter_number (prepareFrom extractPotentialQuotes now bookId i chapters)
  = seq (i + 1) (length chapters).
Proof.
  revert i. induction chapters as [|ch chapters IH]; intros i; simpl.
  - repeat split.
  - destruct (IH (S i)) as (H1 & H2 & H3). rewrite H1, H2, H3.
    repeat split.
Qed.

Lemma prepareFrom_reading_time (chapters : list Chapter.t) (i : nat)
    (row : ChapterForDB.t) :
  In row (prepareFrom extractPotentialQuotes now bookId i chapters) ->
  ChapterForDB.reading_time_minutes row = readingTime (ChapterForDB.word_count row).
Proof.
  revert i. induction chapters as [|ch l IH]; intros i Hin; [destruct Hin|].
  destruct Hin as [<-|Hin]; [reflexivity|]. apply (IH (S i)), Hin.
Qed.

(** C9.  For the chapters that pass validation, every row handed to the
    database has a reading time of its word count over 200, rounded up;
    the statistics hold the sum of the rows' word counts and the sum of
    their reading times; and the handler, which fails only when no
    chapter is valid, writes these two sums onto the book. *)
Theorem store_reading_time_and_totals (chapters : list Chapter.t) (b : Schema.book) :
  let validated := validateChapters chapters in
  let rows := prepareChaptersForDB extractPotentialQuotes now bookId validated in
  let stats := calculateBookStats validated in
  length rows = length validated /\
  Forall (fun row => IsCeil200 (ChapterForDB.word_count row)
                               (ChapterForDB.reading_time_minutes row)) rows /\
  map ChapterForDB.word_count rows = map Chapter.wordCount validated /\
  totalWordCount stats = list_sum (map ChapterForDB.word_count rows) /\
  totalReadingTime stats = list_sum (map ChapterForDB.reading_time_minutes rows) /\
  match storeChapters extractPotentialQuotes now bookId chapters b with
  | JS.returns s =>
      Store.rows s = rows /\
      Schema.total_word_count (bookAfter s)
      = Some (list_sum (map ChapterForDB.word_count rows)) /\
      Schema.estimated_total_reading_time (bookAfter s)
      = Some (list_sum (map ChapterForDB.reading_time_minutes rows))
  | JS.throws _ => validated = []
  end.
Proof.
  intros validated rows stats.
  destruct (prepareFrom_rows validated 0) as (Hw & Hr & Hn).
  fold (prepareChaptersForDB extractPotentialQuotes now bookId validated) in Hw, Hr, Hn.
  fold rows in Hw, Hr, Hn.
  assert (Htw : totalWordCount stats = list_sum (map ChapterForDB.word_count rows)).
  { rewrite Hw. unfold stats, calculateBookStats. simpl.
    apply (fold_left_sum Chapter.wordCount validated 0). }
  assert (Htr : totalReadingTime stats
                = list_sum (map ChapterForDB.reading_time_minutes rows)).
  { rewrite Hr. unfold stats, calculateBookStats. simpl.
    apply (fold_left_sum (fun ch => readingTime (Chapter.wordCount ch)) validated 0). }
  split.
  { rewrite <- (length_map ChapterForDB.word_count rows), Hw. apply length_map. }
  split.
  { apply Forall_forall. intros row Hin.
    rewrite (prepareFrom_reading_time validated 0 row Hin).
    apply readingTime_ceil. }
  split; [exact Hw|]. split; [exact Htw|]. split; [exact Htr|].
  unfold storeChapters. fold validated.
  destruct (Nat.eqb_spec (length validated) 0) as [E|E].
  - apply length_zero_iff_nil, E.
  - simpl. fold stats rows. rewrite <- Htw, <- Htr. repeat split.
Qed.

End Rows.

End StoreFacts.

(* ================================================================== *)
(** * The detector: boundary optimization *)
(* ================================================================== *)

Module OptimizeFacts.

Import JS Detect.

(** What one turn of [optimizeChapters] may change. *)
Lemma optimizeChapter_frame (fullText : str) (ch : Chapter.t) (next : option Chapter.t) :
  let ch' := optimizeChapter fullText ch next in
  Chapter.title ch' = Chapter.title ch /\
  Chapter.detectionMethod ch' = Chapter.detectionMethod ch /\
  Chapter.confidence ch' = Chapter.confidence ch /\
  Chapter.boundary_strength ch' = Chapter.boundary_strength ch /\
  Chapter.startIndex ch' = Chapter.startIndex ch /\
  Chapter.wordCount ch' = countWords (Chapter.content ch') /\
  ((Chapter.endIndex ch' = Chapter.endIndex ch /\
    Chapter.content ch' = Chapter.content ch)
   \/ exists nx, next = Some nx /\
        (Chapter.startIndex ch + 500 < Chapter.endIndex ch')%Z /\
        (Chapter.endIndex ch' < Chapter.startIndex nx - 100)%Z /\
        Chapter.content ch'
        = trim (substring fullText (Chapter.startIndex ch) (Chapter.endIndex ch'))).
Proof.
  unfold optimizeChapter.
  destruct next as [nx|]; [|simpl; repeat split; left; split; reflexivity].
  destruct (optimizedEndOf fullText ch nx) as [e|] eqn:E; simpl;
    repeat split; [right|left; split; reflexivity].
  exists nx. unfold optimizedEndOf in E. apply find_some in E.
  destruct E as [_ E]. unfold acceptableEnd in E.
  apply andb_true_iff in E. destruct E as [E1 E2].
  apply Z.ltb_lt in E1. apply Z.ltb_lt in E2. repeat split; assumption.
Qed.

Lemma optimizeChapters_nth (chapters : list Chapter.t) (fullText : str) (i : nat) :
  nth_error (optimizeChapters chapters fullText) i
  = option_map (fun ch => optimizeChapter fullText ch (nth_error chapters (S i)))
               (nth_error chapters i).
Proof.
  revert i. induction chapters as [|ch rest IH]; intros i.
  - destruct i; reflexivity.
  - destruct i as [|i]; simpl.
    + destruct rest; reflexivity.
    + apply IH.
Qed.

Lemma optimizeChapters_length (chapters : list Chapter.t) (fullText : str) :
  length (optimizeChapters chapters fullText) = length chapters.
Proof. induction chapters as [|ch rest IH]; simpl; [reflexivity|]. rewrite IH. reflexivity. Qed.

(** C10.  Boundary optimization keeps the number of chapters, and at each
    position the title, detection method, confidence and start offset
    (and the boundary strength) of the chapter; the word count is that of
    the resulting content.  The last chapter keeps its end offset and
    content.  A chapter followed by another either keeps both, or gets an
    end offset strictly between its start + 500 and the next chapter's
    start - 100, with the text between its start and that offset,
    trimmed, as content. *)
Theorem optimizeChapters_frame (chapters : list Chapter.t) (fullText : str) :
  length (optimizeChapters chapters fullText) = length chapters /\
  forall i ch, nth_error chapters i = Some ch ->
    exists ch', nth_error (optimizeChapters chapters fullText) i = Some ch' /\
      Chapter.title ch' = Chapter.title ch /\
      Chapter.detectionMethod ch' = Chapter.detectionMethod ch /\
      Chapter.confidence ch' = Chapter.confidence ch /\
      Chapter.boundary_strength ch' = Chapter.boundary_strength ch /\
      Chapter.startIndex ch' = Chapter.startIndex ch /\
      Chapter.wordCount ch' = countWords (Chapter.content ch') /\
      ((Chapter.endIndex ch' = Chapter.endIndex ch /\
        Chapter.content ch' = Chapter.content ch)
       \/ exists nx, nth_error chapters (S i) = Some nx /\
            (Chapter.startIndex ch + 500 < Chapter.endIndex ch')%Z /\
            (Chapter.endIndex ch' < Chapter.startIndex nx - 100)%Z /\
            Chapter.content ch'
            = trim (substring fullText (Chapter.startIndex ch) (Chapter.endIndex ch'))).
Proof.
  split; [apply optimizeChapters_length|].
  intros i ch Hi.
  exists (optimizeChapter fullText ch (nth_error chapters (S i))).
  split; [rewrite optimizeChapters_nth, Hi; reflexivity|].
  apply optimizeChapter_frame.
Qed.

End OptimizeFacts.

(* ================================================================== *)
(** * The detector: choosing among the strategies' results *)
(* ================================================================== *)

Module SelectFacts.

Import JS Detect.

(** ** The score, as the specification states it *)

Definition total (ws : list nat) : Q :=
  fold_right (fun w acc => inject_Z (Z.of_nat w) + acc)%Q 0%Q ws.

Definition mean (ws : list nat) : Q :=
  (total ws / inject_Z (Z.of_nat (length ws)))%Q.

Definition variance (ws : list nat) : Q :=
  (fold_right (fun w acc => (inject_Z (Z.of_nat w) - mean ws) ^ 2 + acc) 0 ws
   / inject_Z (Z.of_nat (length ws)))%Q.



(** ** The score of a result without a word *)






(** ** The comparator on scores that are numbers *)





(** Selection returns one of the results it is given one or more of. *)
Lemma selectBestDetection_returns (r : DetectionResult) (rs : list DetectionResult) :
  exists best rest,
    sortBy byScoreDesc (map scoreResult (r :: rs)) = best :: rest /\
    selectBestDetection (r :: rs) = returns best /\
    In (result best) (r :: rs) /\ score best = scoreOf (result best).
Proof.
  destruct (JSFacts.sortBy_nonempty byScoreDesc (scoreResult r) (map scoreResult rs))
    as [best [rest E]].
  exists best, rest. change (map scoreResult (r :: rs)) with (scoreResult r :: map scoreResult rs).
  split; [exact E|]. split.
  - unfold selectBestDetection. cbv zeta.
    change (map scoreResult (r :: rs)) with (scoreResult r :: map scoreResult rs).
    rewrite E. reflexivity.
  - assert (Hin : In best (map scoreResult (r :: rs))).
    { apply (proj1 (JSFacts.sortBy_In byScoreDesc _ best)).
      change (map scoreResult (r :: rs)) with (scoreResult r :: map scoreResult rs).
      rewrite E. left. reflexivity. }
    apply in_map_iff in Hin. destruct Hin as [x [<- Hx]]. split; [exact Hx|reflexivity].
Qed.


(** A pattern result of three chapters and an adaptive result of one. *)
Definition sampleChapter (words : nat) : Chapter.t :=
  Chapter.Make (lit "t") (lit "c") words 0 0 (lit "m") (1 # 2) None.









(** ** What selection is handed *)

Lemma usable_In (outs : list (settled DetectionResult)) (r : DetectionResult) :
  In r (flat_map usable outs) <-> In (fulfilled r) outs /\ chapters r <> [].
Proof.
  rewrite in_flat_map. split.
  - intros [o [Ho Hr]]. destruct o as [v|]; [|destruct Hr]. simpl in Hr.
    destruct (chapters v) as [|c cs] eqn:E; simpl in Hr; [destruct Hr|].
    destruct Hr as [<-|[]]. split; [exact Ho|]. rewrite E. discriminate.
  - intros [Ho Hc]. exists (fulfilled r). split; [exact Ho|]. simpl.
    destruct (chapters r); [contradiction|]. left. reflexivity.
Qed.

(** The result [runParallelDetection] makes up when no strategy is usable. *)
Definition fallbackResult (text : str) (book : bookInfo) : DetectionResult :=
  Result (createOptimizedChunks text (bookTitle book)) (lit "fallback_chunking") (3 # 10).

Lemma runParallelDetection_cases (text : str) (book : bookInfo)
    (outs : list (settled DetectionResult)) :
  (flat_map usable outs = [] /\
   runParallelDetection text book outs = [fallbackResult text book])
  \/ (exists r rs, flat_map usable outs = r :: rs /\
                   runParallelDetection text book outs = r :: rs).
Proof.
  unfold runParallelDetection.
  destruct (flat_map usable outs) as [|r rs]; [left|right; exists r, rs]; split; reflexivity.
Qed.

(** The [k]-th run of 2000 words of the text, joined, is longer than 100
    characters once trimmed. *)
Definition ChunkKept (text : str) (k : nat) : Prop :=
  2000 * k < length (splitSpaces text) /\
  100 < length (trim (join (lit " ")
                       (slice (splitSpaces text) (2000 * k) (2000 * k + 2000)))).

Lemma chunkLoop_nonempty (words : list str) (title : str) (fuel i : nat) :
  length words <= i + fuel ->
  (chunkLoop fuel words title i <> [] <->
   exists k, i + 2000 * k < length words /\
             100 < length (trim (join (lit " ")
                                  (slice words (i + 2000 * k) (i + 2000 * k + 2000))))).
Proof.
  revert i. induction fuel as [|fuel IH]; intros i Hfuel.
  - split; [intros H; contradiction H; reflexivity|].
    intros [k [Hk _]]. lia.
  - change (chunkLoop (S fuel) words title i) with
      (if i <? length words then
         let chunkWords := slice words i (i + 2000) in
         let content := join (lit " ") chunkWords in
         let rest := chunkLoop fuel words title (i + 2000) in
         if 100 <? length (trim content)
         then Chapter.Make (title ++ lit " - Part " ++ showNat (i / 2000 + 1)) content
                (length chunkWords) (Z.of_nat i) (Z.of_nat (i + length chunkWords))
                (lit "optimized_chunking") (4 # 10) None :: rest
         else rest
       else []).
    destruct (Nat.ltb_spec i (length words)) as [Hi|Hi].
    + cbv zeta.
      destruct (Nat.ltb_spec 100
                  (length (trim (join (lit " ") (slice words i (i + 2000)))))) as [Hc|Hc].
      * split; [intros _|intros _; discriminate].
        exists 0. replace (i + 2000 * 0) with i by lia. split; assumption.
      * rewrite (IH (i + 2000)) by lia. split.
        -- intros [k [Hk Hlen]]. exists (S k).
           replace (i + 2000 * S k) with (i + 2000 + 2000 * k) by lia.
           split; assumption.
        -- intros [k [Hk Hlen]]. destruct k as [|k].
           ++ replace (i + 2000 * 0) with i in Hlen by lia. lia.
           ++ exists k.
              replace (i + 2000 * S k) with (i + 2000 + 2000 * k) in Hk, Hlen by lia.
              split; assumption.
    + split; [intros H; contradiction H; reflexivity|].
      intros [k [Hk _]]. lia.
Qed.

Lemma createOptimizedChunks_nonempty (text title : str) :
  createOptimizedChunks text title <> [] <-> exists k, ChunkKept text k.
Proof.
  unfold createOptimizedChunks, ChunkKept.
  rewrite (chunkLoop_nonempty (splitSpaces text) title (length (splitSpaces text)) 0)
    by lia.
  reflexivity.
Qed.

(** C8, as amended.  Whatever the four strategies settle to, selection
    is handed at least one result and returns one of them, so its error
    branch is never taken and detection returns the optimized chapters of
    the result selected.  When some strategy produced a chapter, the
    result selected is a strategy's and has a chapter.  When none did,
    the result selected is the fallback chunker's, which has a chapter
    exactly when some run of 2000 words of the text is longer than 100
    characters once joined and trimmed. *)
Theorem detection_always_selects (text : str) (book : bookInfo)
    (outs : list (settled DetectionResult)) :
  exists best,
    selectBestDetection (runParallelDetection text book outs) = returns best /\
    detect text book outs = returns (optimizeChapters (chapters (result best)) text) /\
    length (optimizeChapters (chapters (result best)) text)
    = length (chapters (result best)) /\
    ((exists v, In (fulfilled v) outs /\ chapters v <> []) ->
     In (fulfilled (result best)) outs /\ chapters (result best) <> []) /\
    ((forall v, In (fulfilled v) outs -> chapters v = []) ->
     result best = fallbackResult text book /\
     (chapters (result best) <> [] <-> exists k, ChunkKept text k)).
Proof.
  destruct (runParallelDetection_cases text book outs)
    as [[Hnone Hrun]|[r [rs [Hsome Hrun]]]].
  - destruct (selectBestDetection_returns (fallbackResult text book) [])
      as [best [rest [_ [Hsel [Hin _]]]]].
    destruct Hin as [Hin|[]].
    exists best. unfold detect. rewrite Hrun, Hsel.
    split; [reflexivity|]. split; [reflexivity|].
    split; [apply OptimizeFacts.optimizeChapters_length|]. split.
    + intros [v [Hv Hc]].
      assert (Hin' : In v (flat_map usable outs)) by (apply usable_In; auto).
      rewrite Hnone in Hin'. destruct Hin'.
    + intros _. split; [symmetry; exact Hin|].
      rewrite <- Hin. apply createOptimizedChunks_nonempty.
  - destruct (selectBestDetection_returns r rs) as [best [rest [_ [Hsel [Hin _]]]]].
    exists best. unfold detect. rewrite Hrun, Hsel.
    split; [reflexivity|]. split; [reflexivity|].
    split; [apply OptimizeFacts.optimizeChapters_length|].
    rewrite <- Hsome in Hin. apply usable_In in Hin. split.
    + intros _. exact Hin.
    + intros Hall. destruct Hin as [Hin Hc]. contradiction Hc. apply Hall, Hin.
Qed.

(** C8 as stated fails: on the text "hello" no strategy produces a
    chapter, the fallback chunker produces none either, and detection
    returns an empty list of chapters. *)
Lemma detection_of_short_text_is_empty :
  createOptimizedChunks (lit "hello") (lit "A Book") = [] /\
  detectChapters (lit "hello") (BookInfo (lit "A Book") None) = returns [].
Proof. vm_compute. split; reflexivity. Qed.

End SelectFacts.

(* ================================================================== *)
(** * The detector: the pattern strategy *)
(* ================================================================== *)

Module PatternFacts.

Import JS Detect.

(** The outcome of the loop over [chapterPatterns]: the matches of the
    first pattern, in the order of the list, that matched two lines or
    more. *)
Lemma best_tier (text : str) :
  fold_left (tryPattern text) chapterPatterns ([], 0%Q)
  = if 2 <=? length (patternMatches text chapterHeading)
    then (patternMatches text chapterHeading, Pattern.confidence chapterHeading)
    else if 2 <=? length (patternMatches text partHeading)
    then (patternMatches text partHeading, Pattern.confidence partHeading)
    else if 2 <=? length (patternMatches text numberedSection)
    then (patternMatches text numberedSection, Pattern.confidence numberedSection)
    else if 2 <=? length (patternMatches text capsHeader)
    then (patternMatches text capsHeader, Pattern.confidence capsHeader)
    else ([], 0%Q).
Proof.
  unfold chapterPatterns, fold_left, tryPattern.
  generalize (patternMatches text chapterHeading) (patternMatches text partHeading)
             (patternMatches text numberedSection) (patternMatches text capsHeader).
  intros m1 m2 m3 m4.
  destruct (2 <=? length m1), (2 <=? length m2), (2 <=? length m3), (2 <=? length m4);
    reflexivity.
Qed.

Lemma best_tier_none (text : str) :
  (forall p, In p chapterPatterns -> length (patternMatches text p) < 2) ->
  fold_left (tryPattern text) chapterPatterns ([], 0%Q) = ([], 0%Q).
Proof.
  intros H. rewrite best_tier.
  assert (H1 := H chapterHeading ltac:(simpl; auto)).
  assert (H2 := H partHeading ltac:(simpl; auto)).
  assert (H3 := H numberedSection ltac:(simpl; auto)).
  assert (H4 := H capsHeader ltac:(simpl; auto)).
  destruct (Nat.leb_spec 2 (length (patternMatches text chapterHeading))); [lia|].
  destruct (Nat.leb_spec 2 (length (patternMatches text partHeading))); [lia|].
  destruct (Nat.leb_spec 2 (length (patternMatches text numberedSection))); [lia|].
  destruct (Nat.leb_spec 2 (length (patternMatches text capsHeader))); [lia|].
  reflexivity.
Qed.

Lemma best_tier_selected (text : str) (p : Pattern.t) :
  In p chapterPatterns ->
  2 <= length (patternMatches text p) ->
  (forall p', In p' chapterPatterns -> 2 <= length (patternMatches text p') ->
              (Pattern.confidence p' <= Pattern.confidence p)%Q) ->
  fold_left (tryPattern text) chapterPatterns ([], 0%Q)
  = (patternMatches text p, Pattern.confidence p).
Proof.
  intros Hin Hp Hmax. rewrite best_tier.
  assert (H1 := Hmax chapterHeading ltac:(simpl; auto)).
  assert (H2 := Hmax partHeading ltac:(simpl; auto)).
  assert (H3 := Hmax numberedSection ltac:(simpl; auto)).
  assert (H4 := Hmax capsHeader ltac:(simpl; auto)).
  destruct Hin as [<-|[<-|[<-|[<-|[]]]]];
    repeat match goal with
           | |- context [2 <=? length (patternMatches text ?q)] =>
               destruct (Nat.leb_spec 2 (length (patternMatches text q)))
           end;
    try reflexivity; try lia;
    exfalso;
    repeat match goal with
           | H : 2 <= _ -> (_ <= _)%Q, H' : 2 <= _ |- _ => specialize (H H')
           end;
    repeat match goal with
           | H : (Pattern.confidence _ <= Pattern.confidence _)%Q |- _ =>
               unfold Qle in H; simpl in H; try lia; clear H
           end.
Qed.

Lemma matchLines_confidence (text : str) (p : Pattern.t) (lines : list str) (i : nat)
    (m : LineMatch.t) :
  In m (matchLines text p i lines) -> LineMatch.confidence m = Pattern.confidence p.
Proof.
  revert i. induction lines as [|l lines IH]; intros i Hin; [destruct Hin|].
  simpl in Hin. destruct (matchLine text p i l) as [m'|] eqn:E.
  - destruct Hin as [<-|Hin]; [|apply (IH (S i)), Hin].
    unfold matchLine in E.
    destruct ((length (trim l) <? 3) || (150 <? length (trim l))); [discriminate|].
    destruct (exec (Pattern.flags p) (trim l) (Pattern.regex p) 0) as [[[? ?] c]|];
      [|discriminate].
    destruct (indexOf text (trim l) =? -1)%Z; [discriminate|].
    inversion E. reflexivity.
  - apply (IH (S i)), Hin.
Qed.

(** The chapters made of a sorted list of matches: one for each match
    whose span, trimmed, is longer than 500 characters. *)
Lemma patternChapters_In (text : str) (lines : list str) (ms : list LineMatch.t)
    (ch : Chapter.t) :
  In ch (patternChapters text lines ms) <->
  exists pre m post, ms = pre ++ m :: post /\
                     ch = patternChapter text lines m post /\
                     500 < length (Chapter.content ch).
Proof.
  induction ms as [|m0 ms IH].
  - simpl. split; [intros []|]. intros [pre [m [post [E _]]]]. destruct pre; discriminate.
  - change (patternChapters text lines (m0 :: ms)) with
      (if 500 <? length (Chapter.content (patternChapter text lines m0 ms))
       then patternChapter text lines m0 ms :: patternChapters text lines ms
       else patternChapters text lines ms).
    split.
    + intros Hin.
      destruct (Nat.ltb_spec 500 (length (Chapter.content (patternChapter text lines m0 ms))))
        as [Hlen|Hlen].
      * destruct Hin as [<-|Hin].
        -- exists [], m0, ms. repeat split. exact Hlen.
        -- apply IH in Hin. destruct Hin as [pre [m [post [E [Hch Hl]]]]].
           exists (m0 :: pre), m, post. rewrite E. repeat split; assumption.
      * apply IH in Hin. destruct Hin as [pre [m [post [E [Hch Hl]]]]].
        exists (m0 :: pre), m, post. rewrite E. repeat split; assumption.
    + intros [pre [m [post [E [Hch Hl]]]]].
      destruct pre as [|x pre]; simpl in E; inversion E; subst.
      * destruct (Nat.ltb_spec 500 (length (Chapter.content (patternChapter text lines m post))));
          [left; reflexivity|lia].
      * assert (Hin : In (patternChapter text lines m post)
                         (patternChapters text lines (pre ++ m :: post))).
        { apply IH. exists pre, m, post. repeat split. exact Hl. }
        destruct (500 <? _); [right|]; exact Hin.
Qed.

Lemma byIndex_le (a b : LineMatch.t) :
  byIndex a b = true <-> (LineMatch.index a <= LineMatch.index b)%Z.
Proof. unfold byIndex. rewrite Z.leb_le. lia. Qed.

Lemma sortBy_byIndex_sorted (ms : list LineMatch.t) :
  StronglySorted (fun a b => (LineMatch.index a <= LineMatch.index b)%Z)
                 (sortBy byIndex ms).
Proof.
  assert (H : StronglySorted (fun a b => byIndex a b = true) (sortBy byIndex ms)).
  { apply (JSFacts.sortBy_sorted byIndex (fun _ => True)).
    - intros a b _ _. rewrite !byIndex_le. lia.
    - intros a b c _ _ _. rewrite !byIndex_le. lia.
    - apply Forall_forall. intros; exact I. }
  induction H as [|a l Hs IH Ha]; constructor; [exact IH|].
  eapply Forall_impl; [|exact Ha]. intros b Hb. apply byIndex_le, Hb.
Qed.

(** The strategy on a pattern of highest confidence among those that
    matched two lines or more, and on a text no pattern matched twice. *)
Lemma pattern_strategy_for_tier (text : str) :
  let r := detectPatternBasedChapters text in
  method r = lit "pattern_based" /\
  ((forall p, In p chapterPatterns -> length (patternMatches text p) < 2) ->
   chapters r = []) /\
  (forall p, In p chapterPatterns ->
     2 <= length (patternMatches text p) ->
     (forall p', In p' chapterPatterns -> 2 <= length (patternMatches text p') ->
                 (Pattern.confidence p' <= Pattern.confidence p)%Q) ->
     confidence r = Pattern.confidence p /\
     exists ms,
       Permutation ms (patternMatches text p) /\
       StronglySorted (fun a b => (LineMatch.index a <= LineMatch.index b)%Z) ms /\
       chapters r = patternChapters text (splitOn LF text) ms /\
       forall ch, In ch (chapters r) <->
         exists pre m post,
           ms = pre ++ m :: post /\
           LineMatch.confidence m = Pattern.confidence p /\
           Chapter.title ch = LineMatch.title m /\
           Chapter.startIndex ch = LineMatch.index m /\
           Chapter.endIndex ch
           = match post with
             | next :: _ => LineMatch.index next
             | [] => Z.of_nat (length text)
             end /\
           Chapter.content ch
           = trim (substring text (Chapter.startIndex ch) (Chapter.endIndex ch)) /\
           Chapter.confidence ch = Pattern.confidence p /\
           500 < length (Chapter.content ch) /\
           ch = patternChapter text (splitOn LF text) m post).
Proof.
  intros r. split; [|split].
  - unfold r, detectPatternBasedChapters.
    destruct (fold_left (tryPattern text) chapterPatterns ([], 0%Q)). reflexivity.
  - intros Hnone. unfold r, detectPatternBasedChapters.
    rewrite (best_tier_none text Hnone). reflexivity.
  - intros p Hin Hp Hmax. unfold r, detectPatternBasedChapters.
    rewrite (best_tier_selected text p Hin Hp Hmax).
    split; [reflexivity|].
    exists (sortBy byIndex (patternMatches text p)).
    split; [apply JSFacts.sortBy_perm|].
    split; [apply sortBy_byIndex_sorted|].
    split; [reflexivity|].
    intros ch. cbn [chapters]. rewrite patternChapters_In.
    split.
    + intros [pre [m [post [E [Hch Hlen]]]]].
      exists pre, m, post.
      assert (Hm : LineMatch.confidence m = Pattern.confidence p).
      { apply (matchLines_confidence text p (splitOn LF text) 0).
        apply (proj1 (JSFacts.sortBy_In byIndex (patternMatches text p) m)).
        rewrite E. apply in_or_app. right. left. reflexivity. }
      subst ch. repeat split; try assumption.
    + intros [pre [m [post [E H]]]]. exists pre, m, post.
      destruct H as (_ & _ & _ & _ & _ & _ & Hlen & Hch). repeat split; assumption.
Qed.

(** Either no pattern matched two lines, or one pattern has the highest
    confidence among those that did. *)
Lemma tier_cases (text : str) :
  (forall p, In p chapterPatterns -> length (patternMatches text p) < 2)
  \/ exists p, In p chapterPatterns /\ 2 <= length (patternMatches text p) /\
       forall p', In p' chapterPatterns -> 2 <= length (patternMatches text p') ->
                  (Pattern.confidence p' <= Pattern.confidence p)%Q.
Proof.
  destruct (Nat.leb_spec 2 (length (patternMatches text chapterHeading))) as [H1|H1];
    [right; exists chapterHeading|
  destruct (Nat.leb_spec 2 (length (patternMatches text partHeading))) as [H2|H2];
    [right; exists partHeading|
  destruct (Nat.leb_spec 2 (length (patternMatches text numberedSection))) as [H3|H3];
    [right; exists numberedSection|
  destruct (Nat.leb_spec 2 (length (patternMatches text capsHeader))) as [H4|H4];
    [right; exists capsHeader|left]]]].
  1-4: split; [simpl; auto 6|]; split; [assumption|];
       intros p' [<-|[<-|[<-|[<-|[]]]]] Hq; try lia;
       unfold Qle; simpl; lia.
  intros p [<-|[<-|[<-|[<-|[]]]]]; assumption.
Qed.

(** The offset recorded for a match is that of the first occurrence, in
    the text, of the line it was found in, trimmed. *)
Lemma matchLines_line (text : str) (p : Pattern.t) (lines : list str) (i : nat)
    (m : LineMatch.t) :
  In m (matchLines text p i lines) ->
  exists rawLine,
    nth_error lines (LineMatch.lineNum m - i) = Some rawLine /\
    i <= LineMatch.lineNum m /\
    LineMatch.index m = indexOf text (trim rawLine).
Proof.
  revert i. induction lines as [|l lines IH]; intros i Hin; [destruct Hin|].
  assert (Hrest : In m (matchLines text p (S i) lines) ->
                  exists rawLine,
                    nth_error (l :: lines) (LineMatch.lineNum m - i) = Some rawLine /\
                    i <= LineMatch.lineNum m /\
                    LineMatch.index m = indexOf text (trim rawLine)).
  { intros H. destruct (IH (S i) H) as [rawLine (Hn & Hle & Hi)].
    exists rawLine. split; [|split; [lia|exact Hi]].
    replace (LineMatch.lineNum m - i) with (S (LineMatch.lineNum m - S i)) by lia.
    exact Hn. }
  simpl in Hin. destruct (matchLine text p i l) as [m'|] eqn:E; [|exact (Hrest Hin)].
  destruct Hin as [<-|Hin]; [|exact (Hrest Hin)].
  unfold matchLine in E.
  destruct ((length (trim l) <? 3) || (150 <? length (trim l))); [discriminate|].
  destruct (exec (Pattern.flags p) (trim l) (Pattern.regex p) 0) as [[[? ?] c]|];
    [|discriminate].
  destruct (indexOf text (trim l) =? -1)%Z; [discriminate|].
  inversion E. cbn [LineMatch.lineNum LineMatch.index].
  exists l. rewrite Nat.sub_diag. repeat split. lia.
Qed.

(** The pattern strategy always reports the method [pattern_based].
    When no pattern matched two lines, it emits no chapter.  Otherwise
    there is a pattern [p] of highest confidence among those that matched
    two lines or more, and: the reported confidence is that of [p]; the
    matches used are those of [p] alone, sorted by the offset recorded
    for them; the chapters emitted are, in that order, one for each match
    whose span, from its offset to the offset of the next match or to the
    end of the text, is longer than 500 characters once trimmed, with the
    title of the match, that span as content, and the confidence of [p];
    and the offset recorded for a match is that of the first occurrence
    in the text of its line, trimmed. *)
Theorem pattern_strategy_single_tier (text : str) :
  let r := detectPatternBasedChapters text in
  method r = lit "pattern_based" /\
  (((forall p, In p chapterPatterns -> length (patternMatches text p) < 2) /\
    chapters r = [])
   \/ exists p,
        In p chapterPatterns /\
        2 <= length (patternMatches text p) /\
        (forall p', In p' chapterPatterns -> 2 <= length (patternMatches text p') ->
                    (Pattern.confidence p' <= Pattern.confidence p)%Q) /\
        confidence r = Pattern.confidence p /\
        exists ms,
          Permutation ms (patternMatches text p) /\
          StronglySorted (fun a b => (LineMatch.index a <= LineMatch.index b)%Z) ms /\
          chapters r = patternChapters text (splitOn LF text) ms /\
          (forall ch, In ch (chapters r) <->
            exists pre m post,
              ms = pre ++ m :: post /\
              LineMatch.confidence m = Pattern.confidence p /\
              Chapter.title ch = LineMatch.title m /\
              Chapter.startIndex ch = LineMatch.index m /\
              Chapter.endIndex ch
              = match post with
                | next :: _ => LineMatch.index next
                | [] => Z.of_nat (length text)
                end /\
              Chapter.content ch
              = trim (substring text (Chapter.startIndex ch) (Chapter.endIndex ch)) /\
              Chapter.confidence ch = Pattern.confidence p /\
              500 < length (Chapter.content ch) /\
              ch = patternChapter text (splitOn LF text) m post) /\
          (forall m, In m ms ->
             exists rawLine,
               nth_error (splitOn LF text) (LineMatch.lineNum m) = Some rawLine /\
               LineMatch.index m = indexOf text (trim rawLine))).
Proof.
  intros r. destruct (pattern_strategy_for_tier text) as (Hm & Hnone & Hsome).
  split; [exact Hm|].
  destruct (tier_cases text) as [Hn|[p (Hin & Hq & Hmax)]].
  - left. split; [exact Hn|apply Hnone, Hn].
  - right. exists p. destruct (Hsome p Hin Hq Hmax) as [Hc [ms (Hp & Hs & Hch & Hall)]].
    split; [exact Hin|]. split; [exact Hq|]. split; [exact Hmax|]. split; [exact Hc|].
    exists ms. split; [exact Hp|]. split; [exact Hs|]. split; [exact Hch|].
    split; [exact Hall|].
    intros m Hm'. apply (Permutation_in _ Hp) in Hm'.
    destruct (matchLines_line text p (splitOn LF text) 0 m Hm') as [rawLine (Hn & _ & Hi)].
    exists rawLine. rewrite Nat.sub_0_r in Hn. split; assumption.
Qed.

(** ** A heading whose text occurs earlier *)

Definition padding : str := concat (repeat (lit "lorem ipsum dolor sit amet. ") 25).

(** A first line that mentions the second chapter, then two headings,
    each followed by 700 characters. *)
Definition earlierMention : str :=
  lit "As Chapter 2 shows, " ++ padding ++ [LF]
  ++ lit "Chapter 1" ++ [LF] ++ padding ++ [LF]
  ++ lit "Chapter 2" ++ [LF] ++ padding.

(** Where line [i] of a text begins. *)
Definition lineStart (text : str) (i : nat) : Z :=
  Z.of_nat (length (concat (map (fun l => l ++ [LF]) (firstn i (splitOn LF text))))).

(** C7: the code at [earlierMention].  The headings are the lines 1 and
    3, which begin at the offsets 721 and 1432; the claim has the first
    chapter span from 721 to 1432 and the second from 1432 to the end,
    2142.  The strategy looks for the text of a heading from the start of
    the text, and finds that of the second in the first line, at offset
    3: it emits a chapter with the title of the second heading over the
    first line, and one with the title of the first from 721 to the end,
    across the second heading. *)
Theorem pattern_chapter_starts_off_its_marker :
  let r := detectPatternBasedChapters earlierMention in
  map trim (splitOn LF earlierMention)
  = [lit "As Chapter 2 shows, " ++ trim padding; lit "Chapter 1"; trim padding;
     lit "Chapter 2"; trim padding] /\
  map (lineStart earlierMention) [1; 3] = [721; 1432]%Z /\
  Z.of_nat (length earlierMention) = 2142%Z /\
  map (fun ch => (Chapter.title ch, Chapter.startIndex ch, Chapter.endIndex ch))
      (chapters r)
  = [(lit "Chapter 2", 3, 721); (lit "Chapter 1", 721, 2142)]%Z.
Proof. vm_compute. repeat split. Qed.

End PatternFacts.

(* ================================================================== *)
(** * Text extraction: when it fails for want of text *)
(* ================================================================== *)

Module ExtractFacts.

Import JS Extract.

(** A text of white space only (the empty text included). *)
Definition Blank (s : str) : Prop := Forall (fun c => isSpace c = true) s.

Lemma trimStart_split (s : str) :
  exists pre, s = pre ++ trimStart s /\ Blank pre.
Proof.
  induction s as [|c s [pre [E Hb]]].
  - exists []. split; [reflexivity|constructor].
  - simpl. destruct (isSpace c) eqn:Ec.
    + exists (c :: pre). split; [simpl; rewrite <- E; reflexivity|].
      constructor; assumption.
    + exists []. split; [reflexivity|constructor].
Qed.

Lemma trimStart_Blank (s : str) : trimStart s = [] <-> Blank s.
Proof.
  split.
  - intros E. destruct (trimStart_split s) as [pre [Hs Hb]].
    rewrite E, app_nil_r in Hs. rewrite Hs. exact Hb.
  - intros Hb. induction Hb as [|c s Hc _ IH]; simpl; [reflexivity|].
    rewrite Hc. exact IH.
Qed.

Lemma Blank_rev (s : str) : Blank (rev s) <-> Blank s.
Proof.
  unfold Blank. rewrite !Forall_forall. split; intros H c Hc; apply H.
  - apply (proj1 (in_rev s c)), Hc.
  - apply (proj2 (in_rev s c)), Hc.
Qed.

Lemma trim_Blank (s : str) : trim s = [] <-> Blank s.
Proof.
  unfold trim, trimEnd. split.
  - intros E. apply (f_equal (@rev char)) in E. rewrite rev_involutive in E.
    simpl in E. apply (proj1 (trimStart_Blank _)) in E.
    apply (proj1 (Blank_rev _)) in E.
    destruct (trimStart_split s) as [pre [Hs Hb]]. rewrite Hs.
    apply Forall_app. split; assumption.
  - intros Hb. apply trimStart_Blank in Hb. rewrite Hb. reflexivity.
Qed.

Lemma Blank_firstn (n : nat) (s : str) : Blank s -> Blank (firstn n s).
Proof.
  intros Hb. rewrite <- (firstn_skipn n s) in Hb. apply Forall_app in Hb. tauto.
Qed.

Lemma Blank_skipn (n : nat) (s : str) : Blank s -> Blank (skipn n s).
Proof.
  intros Hb. rewrite <- (firstn_skipn n s) in Hb. apply Forall_app in Hb. tauto.
Qed.

(** A replacement puts pieces of the text and copies of the replacement
    together, so it keeps a blank text blank when the replacement is. *)
Lemma buildReplace_Blank (s repl : str) (ms : list (nat * nat)) (next : nat) :
  Blank s -> Blank repl -> Blank (buildReplace s ms repl next).
Proof.
  intros Hs Hr. revert next. induction ms as [|[st en] ms IH]; intros next; simpl.
  - apply Blank_skipn, Hs.
  - destruct (next <=? st); [|apply IH].
    apply Forall_app. split; [apply Blank_firstn, Blank_skipn, Hs|].
    apply Forall_app. split; [exact Hr|apply IH].
Qed.

Lemma cleanupPasses_Blank :
  Forall (fun pass : regex * flags * str => Blank (snd pass)) cleanupPasses.
Proof. repeat constructor. Qed.

Lemma cleanup_Blank (raw : str) : Blank raw -> cleanupExtractedText raw = [].
Proof.
  intros Hb. unfold cleanupExtractedText. apply trim_Blank.
  revert raw Hb. induction cleanupPasses_Blank as [|[[r fl] repl] passes Hp _ IH];
    intros raw Hb; simpl.
  - exact Hb.
  - apply IH. unfold replaceAll. apply buildReplace_Blank; assumption.
Qed.

(** The capability returned no text, or white space only. *)
Definition NoText (r : extracted) : Prop :=
  match text r with
  | None => True
  | Some raw => Blank raw
  end.

Lemma extraction_cases (r : extracted) :
  (NoText r /\ extractTextWithProgress (returns r) = noTextFailure)
  \/ (exists raw pages,
        text r = Some raw /\ ~ Blank raw /\
        extractTextWithProgress (returns r)
        = returns (cleanupExtractedText raw, pages)).
Proof.
  unfold NoText, extractTextWithProgress, extractionAttempt, noTextFailure.
  destruct (text r) as [raw|]; [|left; split; [exact I|reflexivity]].
  destruct raw as [|c raw']; [left; split; [constructor|reflexivity]|].
  set (raw := c :: raw').
  destruct (Nat.eqb_spec (length (trim raw)) 0) as [E|E].
  - left. split; [|reflexivity]. apply trim_Blank, length_zero_iff_nil, E.
  - right. eexists raw, _. split; [reflexivity|]. split; [|reflexivity].
    intros Hb. apply trim_Blank in Hb. rewrite Hb in E. contradiction E. reflexivity.
Qed.

(** C6, as amended.  Extraction raises the no-text failure, and the
    handler marks the book failed, exactly when the text the capability
    returned is missing or is white space only, which is decided before
    the cleanup pass; in every other case extraction returns the cleaned
    text and the handler records its word count.  Cleaned text that is
    not empty therefore never comes with the failure. *)
Theorem no_text_failure_rule (r : extracted) (b : Schema.book) :
  (extractTextWithProgress (returns r) = noTextFailure <-> NoText r) /\
  (NoText r -> extractStage (returns r) b = (markFailed b, noTextFailure)) /\
  (~ NoText r <->
   exists raw pages, text r = Some raw /\
     extractStage (returns r) b
     = (recordExtraction b (cleanupExtractedText raw),
        returns (cleanupExtractedText raw, pages))) /\
  (forall raw, text r = Some raw -> cleanupExtractedText raw <> [] ->
     exists pages,
       extractTextWithProgress (returns r) = returns (cleanupExtractedText raw, pages)).
Proof.
  unfold extractStage.
  destruct (extraction_cases r) as [[Hn Hf]|[raw [pages [Ht [Hnb Hret]]]]].
  - rewrite Hf. split; [tauto|]. split; [intros _; reflexivity|]. split.
    + split; [tauto|]. intros [raw [pages [_ Hret]]]. discriminate.
    + intros raw Ht Hc. exfalso. apply Hc. apply cleanup_Blank.
      unfold NoText in Hn. rewrite Ht in Hn. exact Hn.
  - assert (Hnn : ~ NoText r) by (unfold NoText; rewrite Ht; exact Hnb).
    rewrite Hret. split.
    + split; [|tauto]. intros Hf. discriminate.
    + split; [tauto|]. split.
      * split; [|tauto]. intros _. exists raw, pages. split; [exact Ht|reflexivity].
      * intros raw' Ht' _. rewrite Ht in Ht'. inversion Ht'; subst.
        exists pages. reflexivity.
Qed.

(** C6 as stated fails: a text that is only a page number is not empty,
    the cleanup pass reduces it to the empty text, and extraction returns
    that empty text without a failure; the book is not marked failed. *)
Lemma page_number_text_passes_extraction :
  trim (lit "42") = lit "42" /\
  cleanupExtractedText (lit "42") = [] /\
  extractTextWithProgress (returns (Extracted (Some (lit "42")) None)) = returns ([], 1) /\
  extractStage (returns (Extracted (Some (lit "42")) None))
               (Schema.Book Schema.ps_processing None None None)
  = (Schema.Book Schema.ps_processing (Some 1) None None, returns ([], 1)).
Proof. vm_compute. repeat split. Qed.

End ExtractFacts.

(* ================================================================== *)
(** * The detector: what the strategies hand to selection *)
(* ================================================================== *)

Module PipelineFacts.

Import JS Detect.

Lemma splitLoop_nonempty (fl : flags) (s : str) (r : regex) (fuel p q : nat) :
  splitLoop fl s r fuel p q <> [].
Proof.
  revert p q. induction fuel as [|fuel IH]; intros p q; simpl; [discriminate|].
  destruct (length s <=? q); [discriminate|].
  destruct (matchAt fl s r q) as [[e c]|]; [|apply IH].
  destruct (Nat.min e (length s) =? p); [apply IH|discriminate].
Qed.

(** A text always splits into at least one word. *)
Lemma countWords_pos (s : str) : 0 < countWords s.
Proof.
  unfold countWords, splitSpaces, split. destruct s as [|c s].
  - vm_compute. lia.
  - change (length (c :: s) =? 0) with false. cbv iota.
    pose proof (splitLoop_nonempty noFlags (c :: s) reSpaces
                  (2 * length (c :: s) + 2) 0 0) as H.
    destruct (splitLoop noFlags (c :: s) reSpaces (2 * length (c :: s) + 2) 0 0);
      [contradiction|simpl; lia].
Qed.









(** The two loops over the words end within their fuel: more of it
    changes nothing. *)
Lemma chunkLoop_fuel (fuel : nat) (words : list str) (title : str) (i : nat) :
  length words <= i + fuel ->
  chunkLoop (S fuel) words title i = chunkLoop fuel words title i.
Proof.
  revert i. induction fuel as [|fuel IH]; intros i Hfuel.
  - simpl. destruct (Nat.ltb_spec i (length words)); [lia|reflexivity].
  - change (chunkLoop (S (S fuel)) words title i) with
      (if i <? length words then
         let chunkWords := slice words i (i + 2000) in
         let content := join (lit " ") chunkWords in
         let rest := chunkLoop (S fuel) words title (i + 2000) in
         if 100 <? length (trim content)
         then Chapter.Make (title ++ lit " - Part " ++ showNat (i / 2000 + 1)) content
                (length chunkWords) (Z.of_nat i) (Z.of_nat (i + length chunkWords))
                (lit "optimized_chunking") (4 # 10) None :: rest
         else rest
       else []).
    cbv zeta. rewrite (IH (i + 2000)) by lia. reflexivity.
Qed.

Lemma adaptiveLoop_fuel (fuel : nat) (words : list str) (config : envelope)
    (s : strategy) (title : str) (chapterStart chapterNum : nat) :
  1 <= minWords config -> 1 <= maxWords config ->
  length words <= chapterStart + fuel ->
  adaptiveLoop (S fuel) words config s title chapterStart chapterNum
  = adaptiveLoop fuel words config s title chapterStart chapterNum.
Proof.
  intros Hmin Hmax. revert chapterStart chapterNum.
  induction fuel as [|fuel IH]; intros chapterStart chapterNum Hfuel.
  - simpl. destruct (Nat.ltb_spec chapterStart (length words)); [lia|reflexivity].
  - change (adaptiveLoop (S (S fuel)) words config s title chapterStart chapterNum) with
      (if chapterStart <? length words then
         let remainingWords := length words - chapterStart in
         let chapterSize :=
           Nat.min (Nat.max (minWords config) (Nat.min (targetWords config) remainingWords))
                   (maxWords config) in
         let chapterWords := slice words chapterStart (chapterStart + chapterSize) in
         let content := join (lit " ") chapterWords in
         let rest := adaptiveLoop (S fuel) words config s title
                                  (chapterStart + chapterSize) (chapterNum + 1) in
         if 100 <? length (trim content)
         then Chapter.Make (title ++ lit " - Part " ++ showNat chapterNum) content
                (length chapterWords) (Z.of_nat chapterStart)
                (Z.of_nat (chapterStart + chapterSize))
                (lit "adaptive_" ++ strategyName s) (8 # 10) None :: rest
         else rest
       else []).
    cbv zeta. rewrite IH by lia. reflexivity.
Qed.

Lemma strategyConfig_positive (s : strategy) :
  1 <= minWords (strategyConfig s) /\ 1 <= maxWords (strategyConfig s).
Proof. destruct s; split; apply Nat.leb_le; vm_compute; reflexivity. Qed.


End PipelineFacts.

(* ================================================================== *)
(** * Facts about sequences of calls on the job queue *)
(* ================================================================== *)

Module JobTraceFacts.

Import JobQueue JobTrace.

Lemma find_update (k : N) (f : job -> job) (sel : job -> bool) (t : table) :
  (forall r, id (f r) = id r) ->
  find (fun r => (id r =? k)%N) (map (fun r => if sel r then f r else r) t)
  = option_map (fun r => if sel r then f r else r) (find (fun r => (id r =? k)%N) t).
Proof.
  intros Hid. induction t as [|x t IH]; [reflexivity|]. simpl.
  assert (E : id (if sel x then f x else x) = id x) by (destruct (sel x); auto).
  rewrite E. destruct (id x =? k)%N; [reflexivity|exact IH].
Qed.

Lemma find_some_id (k : N) (t : table) (j : job) :
  find (fun r => (id r =? k)%N) t = Some j -> In j t /\ id j = k.
Proof.
  intros H. apply find_some in H. destruct H as [Hin E].
  split; [exact Hin|]. apply N.eqb_eq, E.
Qed.

Lemma find_app_new (k : N) (t : table) (j : job) :
  find (fun r => (id r =? k)%N) (t ++ [j])
  = match find (fun r => (id r =? k)%N) t with
    | Some r => Some r
    | None => if (id j =? k)%N then Some j else None
    end.
Proof.
  induction t as [|x t IH]; simpl; [reflexivity|].
  destruct (id x =? k)%N; [reflexivity|exact IH].
Qed.

Lemma complete_id (now : Z) (ok : bool) (j : job) : id (complete now ok j) = id j.
Proof. destruct ok; reflexivity. Qed.

(** A reported failure costs an attempt, and leaves the job pending
    only when there was one left. *)
Lemma complete_budget (now : Z) (j : job) :
  (if jobStatus_eqb (status (complete now false j)) pending then 1 else 0)
  + budget (complete now false j) <= budget j.
Proof.
  unfold complete, budget. cbn [status retry_count max_retries option_map].
  destruct (retry_count j) as [r|], (max_retries j) as [m|]; cbn [sqlLt isTrue option_map];
    try (cbn; lia).
  destruct (Z.ltb_spec r m); cbn [jobStatus_eqb]; lia.
Qed.

Lemma complete_budget_success (now : Z) (j : job) :
  budget (complete now true j) = budget j.
Proof. reflexivity. Qed.

Lemma step_GetNext (now : Z) (t : table) : step (GetNext now) t = t.
Proof. reflexivity. Qed.

(** One call: what it puts back of job [k] is paid for out of the
    attempts the job has left. *)
Lemma step_budget (c : call) (t : table) (k : N) :
  (if requeues k c t then 1 else 0) + budgetOf k (step c t) <= budgetOf k t.
Proof.
  destruct c as [now nid b ty inp p d|now|now kid ok].
  - cbn [requeues step]. destruct (existsb (fun r => (id r =? nid)%N) t); [lia|].
    unfold budgetOf, enqueue_job. rewrite find_app_new.
    destruct (find (fun r => (id r =? k)%N) t) as [j|]; [lia|]. cbn [id].
    destruct (nid =? k)%N; [|lia]. unfold budget. simpl. lia.
  - rewrite step_GetNext. cbn [requeues]. lia.
  - unfold requeues, hasStatus, budgetOf. cbn [step]. unfold complete_job.
    rewrite (find_update k (complete now ok) (fun r => (id r =? kid)%N) t)
      by (intros r; apply complete_id).
    destruct (find (fun r => (id r =? k)%N) t) as [x|] eqn:Ef; cbn [option_map].
    + apply find_some_id in Ef. destruct Ef as [_ Ex]. rewrite Ex.
      destruct (N.eqb_spec k kid) as [E|E].
      * subst kid. rewrite N.eqb_refl. destruct ok.
        -- rewrite complete_budget_success. lia.
        -- cbn [andb]. apply complete_budget.
      * rewrite (proj2 (N.eqb_neq kid k)) by congruence.
        destruct ok; cbn [andb]; lia.
    + destruct ok; [lia|]. destruct (kid =? k)%N; cbn [andb]; lia.
Qed.

Lemma run_budget (cs : list call) (t : table) (k : N) :
  requeued k cs t <= budgetOf k t.
Proof.
  revert t. induction cs as [|c cs IH]; intros t; cbn [requeued]; [lia|].
  pose proof (step_budget c t k). specialize (IH (step c t)). lia.
Qed.

(** A job that is running was so from the start. *)
Definition RunningFrom (t t' : table) : Prop :=
  forall j, In j t' -> status j = running ->
            exists j0, In j0 t /\ id j0 = id j /\ status j0 = running.

Lemma step_running (c : call) (t : table) : RunningFrom t (step c t).
Proof.
  intros j Hin Hs. destruct c as [now nid b ty inp p d|now|now kid ok].
  - cbn [step] in Hin. destruct (existsb (fun r => (id r =? nid)%N) t); [eauto|].
    unfold enqueue_job in Hin. apply in_app_iff in Hin.
    destruct Hin as [Hin|[<-|[]]]; [eauto|discriminate Hs].
  - rewrite step_GetNext in Hin. eauto.
  - cbn [step] in Hin. unfold complete_job in Hin. apply in_map_iff in Hin.
    destruct Hin as [x [<- Hx]]. destruct (id x =? kid)%N; [|eauto].
    exfalso. unfold complete in Hs. destruct ok; cbn [status] in Hs; [discriminate|].
    destruct (isTrue _); discriminate.
Qed.

Lemma run_running (cs : list call) (t : table) : RunningFrom t (run cs t).
Proof.
  revert t. induction cs as [|c cs IH]; intros t; cbn [run].
  - intros j Hin Hs. eauto.
  - intros j Hin Hs. destruct (IH (step c t) j Hin Hs) as [j1 [H1 [E1 S1]]].
    destruct (step_running c t j1 H1 S1) as [j0 [H0 [E0 S0]]].
    exists j0. repeat split; [exact H0|congruence|exact S0].
Qed.

(** Whatever calls are made and in whatever order, the reported
    failures of a job put it back in the queue at most as often as its
    retry cap exceeds its retry count at the start, a job enqueued on
    the way at most three times; and no call marks a job as running:
    [get_next_job] raises each time. *)
Theorem job_requeues_within_retry_budget (cs : list call) (t : table) (k : N) :
  requeued k cs t <= budgetOf k t /\ RunningFrom t (run cs t).
Proof. split; [apply run_budget|apply run_running]. Qed.

End JobTraceFacts.

(* ================================================================== *)
(** * Facts about the result cache *)
(* ================================================================== *)

Module CacheStoreFacts.

Import CacheStore.

Lemma str_eqb_eq (a b : JS.str) : str_eqb a b = true <-> a = b.
Proof.
  revert b. induction a as [|x a IH]; destruct b as [|y b]; simpl;
    try (split; [discriminate|discriminate]); [tauto|].
  rewrite andb_true_iff, N.eqb_eq, IH. split.
  - intros [-> ->]. reflexivity.
  - intros E. injection E. auto.
Qed.

Lemma str_eqb_refl (a : JS.str) : str_eqb a a = true.
Proof. apply str_eqb_eq. reflexivity. Qed.

Lemma cacheType_eqb_eq (a b : cacheType) : cacheType_eqb a b = true <-> a = b.
Proof. destruct a, b; simpl; split; intros H; try reflexivity; discriminate. Qed.

Section Rows.

Context {json : Type}.

(** The type under which the key [k] is held: that of its row, and [ty]
    when the table has none. *)
Definition typeOf (k : JS.str) (ty : cacheType) (t : list (row json)) : cacheType :=
  match find (hasKey k) t with
  | Some r => cache_type r
  | None => ty
  end.

Lemma hasKey_eq (k : JS.str) (r : row json) : hasKey k r = true <-> cache_key r = k.
Proof. apply str_eqb_eq. Qed.

Lemma existsb_find (k : JS.str) (t : list (row json)) :
  existsb (hasKey k) t = match find (hasKey k) t with Some _ => true | None => false end.
Proof.
  induction t as [|x t IH]; simpl; [reflexivity|].
  destruct (hasKey k x); [reflexivity|exact IH].
Qed.

Lemma store_keys (now : Z) (nid : N) (k : JS.str) (ty : cacheType) (h : JS.str)
    (d : json) (fs pt : option Z) (t : list (row json)) :
  map cache_key (store_cached_result now nid k ty h d fs pt t)
  = if existsb (hasKey k) t then map cache_key t else map cache_key t ++ [k].
Proof.
  unfold store_cached_result. destruct (existsb (hasKey k) t).
  - rewrite map_map. apply map_ext. intros r. destruct (hasKey k r); reflexivity.
  - rewrite map_app. reflexivity.
Qed.

Lemma store_unique (now : Z) (nid : N) (k : JS.str) (ty : cacheType) (h : JS.str)
    (d : json) (fs pt : option Z) (t : list (row json)) :
  NoDup (map cache_key t) ->
  NoDup (map cache_key (store_cached_result now nid k ty h d fs pt t)).
Proof.
  intros Hu. rewrite store_keys. destruct (existsb (hasKey k) t) eqn:Ex; [exact Hu|].
  assert (Hfresh : ~ In k (map cache_key t)).
  { intros Hin. apply in_map_iff in Hin. destruct Hin as [r [E Hr]].
    assert (existsb (hasKey k) t = true); [|congruence].
    apply existsb_exists. exists r. split; [exact Hr|apply hasKey_eq, E]. }
  clear Ex. induction t as [|x t IH]; simpl.
  - constructor; [intros []|constructor].
  - inversion Hu as [|? ? Hx Hnd]; subst. constructor.
    + rewrite in_app_iff. intros [H|[H|[]]]; [contradiction|].
      apply Hfresh. left. symmetry. exact H.
    + apply IH; [exact Hnd|]. intros H. apply Hfresh. right. exact H.
Qed.

Lemma find_refresh (k : JS.str) (f : row json -> row json) (t : list (row json)) :
  (forall r, cache_key (f r) = cache_key r) ->
  find (hasKey k) (map (fun r => if hasKey k r then f r else r) t)
  = option_map f (find (hasKey k) t).
Proof.
  intros Hf. induction t as [|x t IH]; simpl; [reflexivity|].
  destruct (hasKey k x) eqn:Ek.
  - unfold hasKey at 1. rewrite Hf. fold (hasKey k x). rewrite Ek. reflexivity.
  - rewrite Ek. exact IH.
Qed.

Lemma find_new (k : JS.str) (r : row json) (t : list (row json)) :
  find (hasKey k) t = None -> hasKey k r = true ->
  find (hasKey k) (t ++ [r]) = Some r.
Proof.
  intros Hn Hr. induction t as [|x t IH]; simpl in *; [rewrite Hr; reflexivity|].
  destruct (hasKey k x); [discriminate|apply IH, Hn].
Qed.

(** The row of key [k] after a store. *)
Lemma store_find (now : Z) (nid : N) (k : JS.str) (ty : cacheType) (h : JS.str)
    (d : json) (fs pt : option Z) (t : list (row json)) :
  exists r,
    find (hasKey k) (store_cached_result now nid k ty h d fs pt t) = Some r /\
    cache_key r = k /\ cache_type r = typeOf k ty t /\ output_data r = d /\
    hit_count r = Some 0%Z /\ last_accessed_at r = now /\
    created_at r = match find (hasKey k) t with
                   | Some r0 => created_at r0
                   | None => now
                   end.
Proof.
  unfold store_cached_result, typeOf. rewrite existsb_find.
  destruct (find (hasKey k) t) as [r0|] eqn:Ef.
  - rewrite find_refresh by reflexivity. rewrite Ef. simpl.
    eexists. split; [reflexivity|]. simpl. repeat split; try reflexivity.
    apply find_some in Ef. apply hasKey_eq, Ef.
  - rewrite (find_new k _ t Ef) by (apply hasKey_eq; reflexivity).
    eexists. split; [reflexivity|]. simpl. repeat split; reflexivity.
Qed.

Lemma find_hit (k : JS.str) (ty : cacheType) (t : list (row json)) :
  NoDup (map cache_key t) ->
  find (hit k ty) t
  = match find (hasKey k) t with
    | Some r => if cacheType_eqb (cache_type r) ty then Some r else None
    | None => None
    end.
Proof.
  induction t as [|x t IH]; intros Hu; simpl; [reflexivity|].
  inversion Hu as [|? ? Hx Hnd]; subst. unfold hit at 1.
  destruct (hasKey k x) eqn:Ek; simpl.
  - destruct (cacheType_eqb (cache_type x) ty) eqn:Et; [reflexivity|].
    destruct (find (hit k ty) t) as [r|] eqn:Ef; [|reflexivity].
    exfalso. apply find_some in Ef. destruct Ef as [Hin Hh].
    unfold hit in Hh. apply andb_true_iff in Hh. destruct Hh as [Hk _].
    apply Hx. apply hasKey_eq in Ek. apply hasKey_eq in Hk. rewrite Ek, <- Hk.
    apply in_map, Hin.
  - apply IH, Hnd.
Qed.

(** The row of key [k] after a lookup of [k]. *)
Lemma get_find (now : Z) (k : JS.str) (ty : cacheType) (t : list (row json)) :
  find (hasKey k) (fst (get_cached_result now k ty t))
  = option_map (fun r => if hit k ty r then touch now r else r) (find (hasKey k) t).
Proof.
  unfold get_cached_result. simpl. induction t as [|x t IH]; simpl; [reflexivity|].
  assert (E : hasKey k (if hit k ty x then touch now x else x) = hasKey k x)
    by (destruct (hit k ty x); reflexivity).
  rewrite E. destruct (hasKey k x); [reflexivity|exact IH].
Qed.

Lemma get_keys (now : Z) (k : JS.str) (ty : cacheType) (t : list (row json)) :
  map cache_key (fst (get_cached_result now k ty t)) = map cache_key t.
Proof.
  unfold get_cached_result. simpl. rewrite map_map. apply map_ext.
  intros r. destruct (hit k ty r); reflexivity.
Qed.

(** Store, then look up.  On a cache whose keys are unique, a store
    keeps them unique, and a lookup of the stored key returns the stored
    output under the type the key is held under (the type of the store,
    unless the key was there before under another one), and NULL under
    every other type. *)
Theorem store_then_get (now now' : Z) (nid : N) (k : JS.str) (ty ty' : cacheType)
    (h : JS.str) (d : json) (fs pt : option Z) (t : list (row json)) :
  NoDup (map cache_key t) ->
  let t' := store_cached_result now nid k ty h d fs pt t in
  NoDup (map cache_key t') /\
  snd (get_cached_result now' k ty' t')
  = if cacheType_eqb (typeOf k ty t) ty' then Some d else None.
Proof.
  intros Hu t'. assert (Hu' : NoDup (map cache_key t')) by (apply store_unique, Hu).
  split; [exact Hu'|]. unfold get_cached_result. simpl.
  rewrite (find_hit k ty' t' Hu').
  destruct (store_find now nid k ty h d fs pt t) as [r [Hf [_ [Hty [Hd _]]]]].
  fold t' in Hf. rewrite Hf, Hty.
  destruct (cacheType_eqb (typeOf k ty t) ty'); simpl; congruence.
Qed.

(** A lookup of another key, or a miss, returns nothing of the stored
    row and leaves it as it is. *)
Lemma get_other (now : Z) (k k' : JS.str) (ty : cacheType) (t : list (row json)) (r : row json) :
  cache_key r <> k' -> In r t -> In r (fst (get_cached_result now k' ty t)).
Proof.
  intros Hne Hin. unfold get_cached_result. simpl. apply in_map_iff.
  exists r. split; [|exact Hin].
  unfold hit. destruct (hasKey k' r) eqn:E; [|reflexivity].
  apply hasKey_eq in E. contradiction.
Qed.

Lemma lookups_cons (now : Z) (times : list Z) (k : JS.str) (ty : cacheType)
    (t : list (row json)) :
  lookups (now :: times) k ty t
  = (fst (lookups times k ty (fst (get_cached_result now k ty t))),
     snd (get_cached_result now k ty t)
     :: snd (lookups times k ty (fst (get_cached_result now k ty t)))).
Proof.
  simpl. destruct (lookups times k ty _) as [t2 ress]. reflexivity.
Qed.

Lemma find_hit_held (k : JS.str) (ty : cacheType) (t : list (row json)) (r : row json) :
  find (hasKey k) t = Some r -> cache_type r = ty -> find (hit k ty) t = Some r.
Proof.
  intros Hf Hty. induction t as [|x t IH]; simpl in *; [discriminate|].
  unfold hit at 1. destruct (hasKey k x) eqn:Ek; simpl.
  - injection Hf as ->. rewrite (proj2 (cacheType_eqb_eq _ _) Hty). reflexivity.
  - apply IH, Hf.
Qed.

Lemma lookups_find (times : list Z) (k : JS.str) (ty : cacheType)
    (t : list (row json)) (r : row json) :
  find (hasKey k) t = Some r -> cache_type r = ty ->
  exists r',
    find (hasKey k) (fst (lookups times k ty t)) = Some r' /\
    cache_type r' = ty /\ output_data r' = output_data r /\
    created_at r' = created_at r /\
    hit_count r' = option_map (fun n => n + Z.of_nat (length times))%Z (hit_count r) /\
    snd (lookups times k ty t) = map (fun _ => Some (output_data r)) times.
Proof.
  revert t r. induction times as [|now times IH]; intros t r Hf Hty.
  - exists r. simpl. repeat split; try assumption.
    destruct (hit_count r); simpl; [f_equal; lia|reflexivity].
  - rewrite lookups_cons.
    pose proof (get_find now k ty t) as Hg. rewrite Hf in Hg.
    unfold get_cached_result in *. cbn [fst snd option_map] in *.
    pose proof (find_hit_held k ty t r Hf Hty) as Hfh.
    assert (Hh : hit k ty r = true) by (apply find_some in Hfh; apply Hfh).
    rewrite Hh in Hg.
    destruct (IH _ (touch now r) Hg Hty) as [r' [Hf' [Hty' [Hd' [Hc' [Hh' Hs']]]]]].
    exists r'. repeat split; try assumption.
    + rewrite Hh'. simpl. destruct (hit_count r); simpl; [f_equal; lia|reflexivity].
    + rewrite Hs', Hfh. reflexivity.
Qed.

Lemma evicted_entry (now : Z) (t : list (row json)) (r : row json) :
  In r t -> Cache.evicted now (toEntry r) = false ->
  In (toEntry r) (fst (Cache.cleanup_old_cache now (map toEntry t))).
Proof.
  intros Hin He. unfold Cache.cleanup_old_cache. simpl.
  apply filter_In. split; [apply in_map, Hin|]. rewrite He. reflexivity.
Qed.

(** Hits and eviction.  After a store, every lookup of the key under
    its type returns the stored output and counts one hit; once the count
    has reached 2, no later [cleanup_old_cache] deletes the entry, and
    an entry that was new at the store is kept by every cleanup of the
    30 days that follow it. *)
Theorem stored_entry_survives_cleanup (now : Z) (nid : N) (k : JS.str) (ty : cacheType)
    (h : JS.str) (d : json) (fs pt : option Z) (times : list Z) (later : Z) (t : list (row json)) :
  typeOf k ty t = ty ->
  let '(t', results) :=
    lookups times k ty (store_cached_result now nid k ty h d fs pt t) in
  results = map (fun _ => Some d) times /\
  exists r,
    find (hasKey k) t' = Some r /\ output_data r = d /\
    hit_count r = Some (Z.of_nat (length times)) /\
    ((2 <= length times \/
      (find (hasKey k) t = None /\ (later <= now + 30 * Cache.day)%Z)) ->
     In (toEntry r) (fst (Cache.cleanup_old_cache later (map toEntry t')))).
Proof.
  intros Hty.
  destruct (store_find now nid k ty h d fs pt t)
    as [r0 [Hf0 [_ [Hty0 [Hd0 [Hh0 [_ Hc0]]]]]]].
  rewrite Hty in Hty0.
  destruct (lookups_find times k ty _ r0 Hf0 Hty0)
    as [r [Hf [_ [Hd [Hc [Hh Hs]]]]]].
  destruct (lookups times k ty (store_cached_result now nid k ty h d fs pt t))
    as [t' results]. simpl in *.
  split; [rewrite Hs, Hd0; reflexivity|].
  exists r. rewrite Hh0 in Hh. simpl in Hh.
  split; [exact Hf|]. split; [congruence|]. split; [exact Hh|].
  intros Hkeep. apply evicted_entry; [apply find_some in Hf; apply Hf|].
  unfold Cache.evicted, toEntry. simpl. rewrite Hh. simpl.
  destruct Hkeep as [H2|[Hnew Hlate]].
  - apply andb_false_iff. right. apply Z.ltb_ge. lia.
  - apply andb_false_iff. left. rewrite Hc, Hc0, Hnew. apply Z.ltb_ge. lia.
Qed.

End Rows.

Lemma store_then_get_witness :
  NoDup (map cache_key
           (store_cached_result 5 1 (JS.lit "k") text_extraction (JS.lit "h") 42%Z None None [])) /\
  snd (get_cached_result 6 (JS.lit "k") text_extraction
         (store_cached_result 5 1 (JS.lit "k") text_extraction (JS.lit "h") 42%Z None None []))
  = Some 42%Z.
Proof.
  apply (store_then_get 5 6 1 (JS.lit "k") text_extraction text_extraction
           (JS.lit "h") 42%Z None None []).
  constructor.
Defined.

Lemma stored_entry_survives_cleanup_witness :
  let '(t', results) :=
    lookups [6; 7]%Z (JS.lit "k") text_extraction
      (store_cached_result 5 1 (JS.lit "k") text_extraction (JS.lit "h") 42%Z None None []) in
  results = map (fun _ => Some 42%Z) [6; 7]%Z /\
  exists r,
    find (hasKey (JS.lit "k")) t' = Some r /\ output_data r = 42%Z /\
    hit_count r = Some 2%Z /\
    ((2 <= 2 \/ (@find (row Z) (hasKey (JS.lit "k")) [] = None /\
                 (10000000 <= 5 + 30 * Cache.day)%Z)) ->
     In (toEntry r) (fst (Cache.cleanup_old_cache 10000000 (map toEntry t')))).
Proof.
  apply (stored_entry_survives_cleanup 5 1 (JS.lit "k") text_extraction
           (JS.lit "h") 42%Z None None [6; 7]%Z 10000000 []).
  reflexivity.
Defined.

End CacheStoreFacts.

(* ================================================================== *)
(** * Facts about progress tracking *)
(* ================================================================== *)

Module ProgressFacts.

Import Progress.

Definition key (r : row) : N * stage := (book_id r, stage_of r).

Lemma stage_eqb_eq (a b : stage) : stage_eqb a b = true <-> a = b.
Proof. destruct a, b; simpl; split; intros H; try reflexivity; discriminate. Qed.

Lemma sameKey_eq (b : N) (s : stage) (r : row) : sameKey b s r = true <-> key r = (b, s).
Proof.
  unfold sameKey, key. rewrite andb_true_iff, N.eqb_eq, stage_eqb_eq. split.
  - intros [-> ->]. reflexivity.
  - intros E. injection E. auto.
Qed.

Lemma upsert_keys (now : Z) (nid b : N) (s : stage) (sp op : option Z)
    (cs m : option JS.str) (t : list row) :
  map key (upsert now nid b s sp op cs m t)
  = if existsb (sameKey b s) t then map key t else map key t ++ [(b, s)].
Proof.
  unfold upsert. destruct (existsb (sameKey b s) t).
  - rewrite map_map. apply map_ext. intros r. destruct (sameKey b s r); reflexivity.
  - rewrite map_app. reflexivity.
Qed.

Lemma NoDup_snoc {A : Type} (l : list A) (x : A) :
  NoDup l -> ~ In x l -> NoDup (l ++ [x]).
Proof.
  intros Hnd Hx. induction l as [|y l IH]; simpl.
  - constructor; [intros []|constructor].
  - inversion Hnd as [|? ? Hy Hnd']; subst. constructor.
    + rewrite in_app_iff. intros [H|[H|[]]]; [contradiction|].
      apply Hx. left. symmetry. exact H.
    + apply IH; [exact Hnd'|]. intros H. apply Hx. right. exact H.
Qed.

Lemma not_existsb_key (b : N) (s : stage) (t : list row) :
  existsb (sameKey b s) t = false -> ~ In (b, s) (map key t).
Proof.
  intros Ex Hin. apply in_map_iff in Hin. destruct Hin as [r [E Hr]].
  assert (existsb (sameKey b s) t = true); [|congruence].
  apply existsb_exists. exists r. split; [exact Hr|apply sameKey_eq, E].
Qed.

(** A progress update that goes through.  It does so exactly when the
    book exists and both progress values are NULL or within 0..100.  The
    table keeps one row for each book and stage; it then holds exactly
    one row for the stage of the call, with the progress values of the
    call, the time of the call, and the step and message of the call
    where they are given and those of the row it replaces where they are
    NULL; every row of another book or stage is as it was, and no other
    row is new. *)
Theorem progress_update_keeps_one_row (now : Z) (nid b : N) (s : stage)
    (sp op : option Z) (cs m : option JS.str) (t : list row) (books : list book) :
  NoDup (map key t) ->
  match update_processing_progress now nid b s sp op cs m t books with
  | None =>
      ~ (In b (map book_key books) /\ inRange sp = true /\ inRange op = true)
  | Some (t', books') =>
      In b (map book_key books) /\ inRange sp = true /\ inRange op = true /\
      NoDup (map key t') /\
      (exists r,
         filter (sameKey b s) t' = [r] /\
         stage_progress r = sp /\ overall_progress r = op /\ updated_at r = now /\
         current_step r
         = coalesce cs (match find (sameKey b s) t with
                        | Some r0 => current_step r0 | None => None end) /\
         message r
         = coalesce m (match find (sameKey b s) t with
                       | Some r0 => message r0 | None => None end)) /\
      (forall r, key r <> (b, s) -> (In r t' <-> In r t))
  end.
Proof.
  intros Hu. unfold update_processing_progress.
  assert (Hbook : existsb (fun x => (book_key x =? b)%N) books = true
                  <-> In b (map book_key books)).
  { rewrite existsb_exists, in_map_iff. split; intros [x [H1 H2]]; exists x.
    - split; [apply N.eqb_eq, H2|exact H1].
    - split; [exact H2|apply N.eqb_eq, H1]. }
  destruct (existsb (fun x => (book_key x =? b)%N) books) eqn:Eb; simpl.
  2:{ intros [H _]. apply Hbook in H. discriminate. }
  destruct (inRange sp) eqn:Es; simpl.
  2:{ intros [_ [H _]]. discriminate. }
  destruct (inRange op) eqn:Eo; simpl.
  2:{ intros [_ [_ H]]. discriminate. }
  split; [apply Hbook; reflexivity|]. split; [reflexivity|]. split; [reflexivity|].
  split; [|split].
  - rewrite upsert_keys. destruct (existsb (sameKey b s) t) eqn:Ex; [exact Hu|].
    apply NoDup_snoc; [exact Hu|apply not_existsb_key, Ex].
  - unfold upsert. destruct (existsb (sameKey b s) t) eqn:Ex.
    + clear Eb Hbook. induction t as [|x t IH]; simpl in *; [discriminate|].
      inversion Hu as [|? ? Hx Hnd]; subst.
      destruct (sameKey b s x) eqn:Ek; simpl.
      * unfold sameKey at 1. simpl. fold (sameKey b s x). rewrite Ek.
        eexists. split; [f_equal|simpl; repeat split; reflexivity].
        apply sameKey_eq in Ek.
        assert (Hno : forall y, In y t -> sameKey b s y = false).
        { intros y Hy. destruct (sameKey b s y) eqn:Ey; [|reflexivity].
          exfalso. apply Hx. apply sameKey_eq in Ey. rewrite Ek, <- Ey.
          apply in_map, Hy. }
        clear -Hno. induction t as [|y t IH]; [reflexivity|]. simpl.
        rewrite (Hno y) by (left; reflexivity). rewrite (Hno y) by (left; reflexivity).
        apply IH. intros z Hz. apply Hno. right. exact Hz.
      * rewrite Ek. apply IH; assumption.
    + assert (Hf : find (sameKey b s) t = None).
      { destruct (find (sameKey b s) t) as [r|] eqn:Ef; [|reflexivity].
        apply find_some in Ef. destruct Ef as [Hin Hk].
        assert (existsb (sameKey b s) t = true); [|congruence].
        apply existsb_exists. exists r. split; assumption. }
      rewrite Hf.
      assert (Hnone : filter (sameKey b s) t = []).
      { clear -Ex. induction t as [|y t IH]; [reflexivity|]. simpl in *.
        apply orb_false_iff in Ex. destruct Ex as [Ey Et]. rewrite Ey. apply IH, Et. }
      rewrite filter_app, Hnone. simpl.
      rewrite (proj2 (sameKey_eq b s _)) by reflexivity.
      eexists. split; [reflexivity|]. simpl.
      destruct cs, m; repeat split; reflexivity.
  - intros r Hr. unfold upsert. destruct (existsb (sameKey b s) t).
    + rewrite in_map_iff. split.
      * intros [x [E Hx]]. destruct (sameKey b s x) eqn:Ek; [|subst; exact Hx].
        exfalso. apply Hr. subst r. apply sameKey_eq in Ek. exact Ek.
      * intros Hin. exists r. split; [|exact Hin].
        destruct (sameKey b s r) eqn:Ek; [|reflexivity].
        exfalso. apply Hr, sameKey_eq, Ek.
    + rewrite in_app_iff. split; [|auto].
      intros [H|[H|[]]]; [exact H|]. exfalso. apply Hr. subst r. reflexivity.
Qed.

Definition sampleRows : list row :=
  [Row 1 7 storing_chapters (Some 20%Z) (Some 39%Z) (Some (JS.lit "storing"))
       (Some (JS.lit "a")) 5 5].

Definition sampleBooks : list book := [Book 7 Schema.ps_processing None].

Lemma progress_update_keeps_one_row_witness :
  match update_processing_progress 9 2 7 storing_chapters (Some 40%Z) (Some 41%Z)
          None (Some (JS.lit "b")) sampleRows sampleBooks with
  | None =>
      ~ (In 7%N (map book_key sampleBooks) /\
         inRange (Some 40%Z) = true /\ inRange (Some 41%Z) = true)
  | Some (t', books') =>
      In 7%N (map book_key sampleBooks) /\
      inRange (Some 40%Z) = true /\ inRange (Some 41%Z) = true /\
      NoDup (map key t') /\
      (exists r,
         filter (sameKey 7 storing_chapters) t' = [r] /\
         stage_progress r = Some 40%Z /\ overall_progress r = Some 41%Z /\
         updated_at r = 9%Z /\
         current_step r
         = coalesce None (match find (sameKey 7 storing_chapters) sampleRows with
                          | Some r0 => current_step r0 | None => None end) /\
         message r
         = coalesce (Some (JS.lit "b"))
                    (match find (sameKey 7 storing_chapters) sampleRows with
                     | Some r0 => message r0 | None => None end)) /\
      (forall r, key r <> (7%N, storing_chapters) -> (In r t' <-> In r sampleRows))
  end.
Proof.
  apply (progress_update_keeps_one_row 9 2 7 storing_chapters (Some 40%Z) (Some 41%Z)
           None (Some (JS.lit "b")) sampleRows sampleBooks).
  repeat constructor. simpl. intuition.
Defined.

End ProgressFacts.

(* ================================================================== *)
(** * Facts about the enhancement status trigger *)
(* ================================================================== *)

Module EnhanceTriggerFacts.

Import EnhanceTrigger.

Lemma status_eqb_eq (a b : status) : status_eqb a b = true <-> a = b.
Proof. destruct a, b; simpl; split; intros H; try reflexivity; discriminate. Qed.

Lemma countIn_pos (among : list status) (l : list (option status)) :
  0 < countIn among l <-> exists x, In (Some x) l /\ In x among.
Proof.
  unfold countIn. induction l as [|s l IH]; simpl.
  - split; [lia|intros [x [[] _]]].
  - destruct s as [y|].
    + destruct (existsb (status_eqb y) among) eqn:Ex; simpl.
      * split; [|lia]. intros _. apply existsb_exists in Ex.
        destruct Ex as [z [Hz E]]. apply status_eqb_eq in E. subst z.
        exists y. split; [left; reflexivity|exact Hz].
      * rewrite IH. split; intros [x [Hin Ha]]; exists x.
        -- split; [right; exact Hin|exact Ha].
        -- split; [|exact Ha]. destruct Hin as [E|Hin]; [|exact Hin].
           injection E as ->. exfalso.
           assert (existsb (status_eqb x) among = true); [|congruence].
           apply existsb_exists. exists x. split; [exact Ha|apply status_eqb_eq; reflexivity].
    + rewrite IH. split; intros [x [Hin Ha]]; exists x.
      * split; [right; exact Hin|exact Ha].
      * split; [|exact Ha]. destruct Hin as [E|Hin]; [discriminate|exact Hin].
Qed.

Lemma countIn_le (among : list status) (l : list (option status)) :
  countIn among l <= length l.
Proof. unfold countIn. apply filter_length_le. Qed.

Lemma countIn_all (l : list (option status)) :
  countIn [completed] l = length l <-> forall s, In s l -> s = Some completed.
Proof.
  unfold countIn.
  set (f := fun s : option status =>
              match s with
              | Some x => existsb (status_eqb x) [completed]
              | None => false
              end).
  induction l as [|s l IH]; [split; [intros _ ? []|reflexivity]|].
  pose proof (filter_length_le f l) as Hle. cbn [filter length].
  destruct (f s) eqn:Ef; cbn [length].
  - split.
    + intros E x [<-|Hx].
      * destruct s as [[]|]; try discriminate Ef; reflexivity.
      * apply IH; [lia|exact Hx].
    + intros H. f_equal. apply IH. intros x Hx. apply H. right. exact Hx.
  - split; [lia|].
    intros H. specialize (H s (or_introl eq_refl)). subst s. discriminate Ef.
Qed.

(** The trigger, when the status of a chapter has changed.  The book is
    failed exactly when some chapter of it is failed; completed exactly
    when every chapter of it is completed, and exactly then it carries
    a completion time, that of the change; in every other case it is
    processing. *)
Theorem trigger_status_rule (now : Z) (old new : option status)
    (chapters : list (option status)) (b : book) :
  changed old new = true ->
  let b' := update_book_enhancement_status now old new chapters b in
  (enhancement_status b' = Some failed <-> In (Some failed) chapters) /\
  (enhancement_status b' = Some completed
   <-> forall s, In s chapters -> s = Some completed) /\
  (enhancement_completed_at b' = Some now
   <-> enhancement_status b' = Some completed) /\
  (enhancement_completed_at b' = Some now \/ enhancement_completed_at b' = None) /\
  (enhancement_status b' = Some failed \/ enhancement_status b' = Some completed \/
   enhancement_status b' = Some processing).
Proof.
  intros Hch b'. unfold b', update_book_enhancement_status. rewrite Hch. simpl.
  unfold newStatus, newCompletedAt.
  pose proof (countIn_pos [failed] chapters) as Hf.
  pose proof (countIn_pos [pending; processing] chapters) as Hp.
  pose proof (countIn_all chapters) as Hc.
  assert (Hf' : 0 < countIn [failed] chapters <-> In (Some failed) chapters).
  { rewrite Hf. split.
    - intros [x [Hin [<-|[]]]]. exact Hin.
    - intros Hin. exists failed. split; [exact Hin|left; reflexivity]. }
  destruct (Nat.ltb_spec 0 (countIn [failed] chapters)) as [H1|H1].
  - assert (Hin : In (Some failed) chapters) by (apply (proj1 Hf'); exact H1).
    assert (Hnc : countIn [completed] chapters <> length chapters).
    { intros E. pose proof (proj1 Hc E _ Hin). discriminate. }
    destruct (Nat.eqb_spec (countIn [completed] chapters) (length chapters)); [contradiction|].
    assert (Hnall : ~ forall s, In s chapters -> s = Some completed).
    { intros H. specialize (H _ Hin). discriminate. }
    repeat split; try tauto; try discriminate; auto.
  - assert (Hnf : ~ In (Some failed) chapters) by (intros H; apply (proj2 Hf') in H; lia).
    destruct (Nat.ltb_spec 0 (countIn [pending; processing] chapters)) as [H2|H2].
    + assert (Hnc : countIn [completed] chapters <> length chapters).
      { intros E. apply (proj1 Hp) in H2. destruct H2 as [x [Hin Hx]].
        pose proof (proj1 Hc E _ Hin) as E'. injection E' as ->.
        simpl in Hx. intuition discriminate. }
      destruct (Nat.eqb_spec (countIn [completed] chapters) (length chapters)); [contradiction|].
      assert (Hnall : ~ forall s, In s chapters -> s = Some completed).
      { intros H. apply Hnc, (proj2 Hc), H. }
      repeat split; try tauto; try discriminate; auto.
    + destruct (Nat.eqb_spec (countIn [completed] chapters) (length chapters)) as [E|E].
      * pose proof (proj1 Hc E) as Hall.
        repeat split; try tauto; try discriminate; auto.
      * assert (Hnall : ~ forall s, In s chapters -> s = Some completed).
        { intros H. apply E, (proj2 Hc), H. }
        repeat split; try tauto; try discriminate; auto.
Qed.

Lemma trigger_status_rule_witness :
  let b' := update_book_enhancement_status 9 (Some processing) (Some completed)
              [Some completed; Some completed] (Book (Some processing) None) in
  (enhancement_status b' = Some failed <-> In (Some failed) [Some completed; Some completed]) /\
  (enhancement_status b' = Some completed
   <-> forall s, In s [Some completed; Some completed] -> s = Some completed) /\
  (enhancement_completed_at b' = Some 9%Z
   <-> enhancement_status b' = Some completed) /\
  (enhancement_completed_at b' = Some 9%Z \/ enhancement_completed_at b' = None) /\
  (enhancement_status b' = Some failed \/ enhancement_status b' = Some completed \/
   enhancement_status b' = Some processing).
Proof.
  apply (trigger_status_rule 9 (Some processing) (Some completed)
           [Some completed; Some completed] (Book (Some processing) None)).
  reflexivity.
Defined.

End EnhanceTriggerFacts.

(* ================================================================== *)
(** * Facts about validation and the prepared rows *)
(* ================================================================== *)

Module ValidateFacts.

Import JS Store.

(** What validation lets through: a title, and a content of at least 100
    code units that splits into at least 50 words. *)
Definition acceptable (ch : Chapter.t) : bool :=
  negb (length (Chapter.title ch) =? 0)
  && (100 <=? length (Chapter.content ch))
  && (50 <=? Detect.countWords (Chapter.content ch)).

Lemma validateChapter_cases (ch : Chapter.t) :
  match validateChapter ch with
  | Some v =>
      acceptable ch = true /\
      Chapter.content v = Chapter.content ch /\
      Chapter.detectionMethod v = Chapter.detectionMethod ch /\
      Chapter.boundary_strength v = Chapter.boundary_strength ch /\
      Chapter.wordCount v = Detect.countWords (Chapter.content ch) /\
      1 <= length (Chapter.title v) <= 200 /\
      (length (Chapter.title ch) <= 200 -> Chapter.title v = Chapter.title ch) /\
      (200 < length (Chapter.title ch) ->
       Chapter.title v = firstn 197 (Chapter.title ch) ++ lit "...") /\
      (0 <= Chapter.startIndex v)%Z /\
      (0 <= Chapter.confidence v <= 1)%Q
  | None => acceptable ch = false
  end.
Proof.
  unfold validateChapter, acceptable.
  destruct (Chapter.title ch) as [|c title] eqn:Et.
  { destruct (Chapter.content ch); reflexivity. }
  destruct (Chapter.content ch) as [|d content] eqn:Ec; [reflexivity|].
  rewrite <- Et, <- Ec.
  assert (Hlen : (length (Chapter.title ch) =? 0) = false) by (rewrite Et; reflexivity).
  rewrite Hlen. simpl negb. cbv iota.
  destruct (Nat.ltb_spec (length (Chapter.content ch)) 100) as [H1|H1].
  { rewrite (proj2 (Nat.leb_gt _ _) H1). reflexivity. }
  rewrite (proj2 (Nat.leb_le _ _) H1). cbv zeta.
  destruct (Nat.ltb_spec (Detect.countWords (Chapter.content ch)) 50) as [H2|H2].
  { rewrite (proj2 (Nat.leb_gt _ _) H2). reflexivity. }
  rewrite (proj2 (Nat.leb_le _ _) H2). simpl.
  assert (Hsub : 200 < length (Chapter.title ch) ->
                 substring (Chapter.title ch) 0 197 = firstn 197 (Chapter.title ch)).
  { intros Hl. unfold substring, clampIndex.
    replace (Z.to_nat (Z.min (Z.max 0 0) (Z.of_nat (length (Chapter.title ch))))) with 0 by lia.
    replace (Z.to_nat (Z.min (Z.max 197 0) (Z.of_nat (length (Chapter.title ch)))))
      with 197 by lia.
    reflexivity. }
  repeat split; try reflexivity.
  - destruct (Nat.ltb_spec 200 (length (Chapter.title ch))) as [Hl|Hl].
    + rewrite length_app. simpl. lia.
    + rewrite Et. simpl. lia.
  - destruct (Nat.ltb_spec 200 (length (Chapter.title ch))) as [Hl|Hl].
    + rewrite (Hsub Hl), length_app, length_firstn.
      change (length (lit "...")) with 3. lia.
    + exact Hl.
  - intros Hl. destruct (Nat.ltb_spec 200 (length (Chapter.title ch))); [lia|reflexivity].
  - intros Hl. destruct (Nat.ltb_spec 200 (length (Chapter.title ch))); [|lia].
    rewrite (Hsub Hl). reflexivity.
  - apply Z.le_max_l.
  - apply Q.le_max_l.
  - apply Q.max_lub; [discriminate|apply Q.le_min_l].
Qed.

Lemma validateChapters_filter (chapters : list Chapter.t) :
  map Chapter.content (validateChapters chapters)
  = map Chapter.content (filter acceptable chapters).
Proof.
  induction chapters as [|ch chapters IH]; [reflexivity|]. simpl.
  pose proof (validateChapter_cases ch) as H.
  destruct (validateChapter ch) as [v|].
  - destruct H as [Ha [Hc _]]. rewrite Ha. simpl. rewrite Hc, IH. reflexivity.
  - rewrite H. exact IH.
Qed.

Lemma validateChapters_Forall (chapters : list Chapter.t) :
  Forall (fun v =>
            1 <= length (Chapter.title v) <= 200 /\
            100 <= length (Chapter.content v) /\
            Chapter.wordCount v = Detect.countWords (Chapter.content v) /\
            50 <= Chapter.wordCount v /\
            (0 <= Chapter.startIndex v)%Z /\
            (0 <= Chapter.confidence v <= 1)%Q)
         (validateChapters chapters).
Proof.
  induction chapters as [|ch chapters IH]; [constructor|]. simpl.
  pose proof (validateChapter_cases ch) as H.
  destruct (validateChapter ch) as [v|]; [|exact IH].
  constructor; [|exact IH].
  destruct H as (Ha & Hc & _ & _ & Hw & Ht & _ & _ & Hs & Hq).
  unfold acceptable in Ha. rewrite !andb_true_iff in Ha. destruct Ha as [[_ H1] H2].
  apply Nat.leb_le in H1, H2. rewrite Hc, Hw. repeat split; try tauto; assumption.
Qed.

(** Validation.  The chapters that pass are, in order, those with a
    title and a content of at least 100 code units and 50 words; each
    keeps its content, has a title of 1 to 200 code units, the word
    count of its content (at least 50), a start offset that is not
    negative and a confidence between 0 and 1. *)
Theorem validated_chapters_are_well_formed (chapters : list Chapter.t) :
  map Chapter.content (validateChapters chapters)
  = map Chapter.content (filter acceptable chapters) /\
  Forall (fun v =>
            1 <= length (Chapter.title v) <= 200 /\
            100 <= length (Chapter.content v) /\
            Chapter.wordCount v = Detect.countWords (Chapter.content v) /\
            50 <= Chapter.wordCount v /\
            (0 <= Chapter.startIndex v)%Z /\
            (0 <= Chapter.confidence v <= 1)%Q)
         (validateChapters chapters).
Proof.
  split; [apply validateChapters_filter|apply validateChapters_Forall].
Qed.

Section Rows.

Variable extractPotentialQuotes : str -> list str.
Variable now : str.
Variable bookId : str.

(** The key of the UNIQUE constraint on [chapters]. *)
Definition rowKey (row : ChapterForDB.t) : str * nat * nat :=
  (ChapterForDB.book_id row, ChapterForDB.chapter_number row, ChapterForDB.part_number row).

Lemma prepareFrom_shape (chapters : list Chapter.t) (i : nat) (row : ChapterForDB.t) :
  In row (prepareFrom extractPotentialQuotes now bookId i chapters) ->
  ChapterForDB.book_id row = bookId /\ ChapterForDB.part_number row = 1 /\
  ChapterForDB.summary row = None /\
  ChapterForDB.enhancement_status row = Schema.pending /\
  exists ch, In ch chapters /\ ChapterForDB.word_count row = Chapter.wordCount ch /\
             ChapterForDB.title row = Chapter.title ch /\
             ChapterForDB.content row = Chapter.content ch.
Proof.
  revert i. induction chapters as [|ch l IH]; intros i Hin; [destruct Hin|].
  destruct Hin as [<-|Hin].
  - simpl. repeat split. exists ch. simpl. auto.
  - destruct (IH (S i) Hin) as (H1 & H2 & H3 & H4 & ch' & Hch & H5).
    repeat split; try assumption. exists ch'. split; [right; exact Hch|exact H5].
Qed.

Lemma readingTime_pos (w : nat) : 1 <= w -> 1 <= readingTime w.
Proof.
  intros Hw. destruct (StoreFacts.readingTime_ceil w) as [H _]. lia.
Qed.

(** The rows handed to the database.  The chapters that pass validation
    are numbered 1, 2, ... in order, all in part 1 of the book, so no two
    rows share the key of the UNIQUE constraint on (book, chapter number,
    part number); every row waits for its enhancement, without a summary,
    and has a reading time of at least one minute. *)
Theorem prepared_rows_are_numbered (chapters : list Chapter.t) :
  let rows := prepareChaptersForDB extractPotentialQuotes now bookId
                (validateChapters chapters) in
  map ChapterForDB.chapter_number rows = seq 1 (length rows) /\
  NoDup (map rowKey rows) /\
  Forall (fun row =>
            ChapterForDB.book_id row = bookId /\
            ChapterForDB.part_number row = 1 /\
            ChapterForDB.summary row = None /\
            ChapterForDB.enhancement_status row = Schema.pending /\
            1 <= ChapterForDB.reading_time_minutes row) rows.
Proof.
  intros rows. unfold rows, prepareChaptersForDB.
  set (validated := validateChapters chapters).
  destruct (StoreFacts.prepareFrom_rows extractPotentialQuotes now bookId validated 0)
    as (Hw & _ & Hn).
  assert (Hlen : length (prepareFrom extractPotentialQuotes now bookId 0 validated)
                 = length validated).
  { rewrite <- (length_map ChapterForDB.word_count), Hw. apply length_map. }
  assert (Hshape : forall row,
             In row (prepareFrom extractPotentialQuotes now bookId 0 validated) ->
             ChapterForDB.book_id row = bookId /\ ChapterForDB.part_number row = 1).
  { intros row Hin. destruct (prepareFrom_shape validated 0 row Hin) as (H1 & H2 & _).
    split; assumption. }
  split; [rewrite Hlen; exact Hn|]. split.
  - apply (NoDup_map_inv (fun k => snd (fst k))). rewrite map_map.
    change (fun x => snd (fst (rowKey x))) with ChapterForDB.chapter_number.
    rewrite Hn. apply seq_NoDup.
  - apply Forall_forall. intros row Hin.
    destruct (prepareFrom_shape validated 0 row Hin) as (H1 & H2 & H3 & H4 & ch & Hch & H5 & _).
    repeat split; try assumption.
    rewrite (StoreFacts.prepareFrom_reading_time extractPotentialQuotes now bookId
               validated 0 row Hin), H5.
    apply readingTime_pos.
    pose proof (proj1 (Forall_forall _ _) (validateChapters_Forall chapters) ch Hch)
      as (_ & _ & _ & H50 & _).
    lia.
Qed.

End Rows.

Lemma list_sum_ceil (ws : list nat) :
  list_sum ws <= 200 * list_sum (map readingTime ws) /\
  200 * list_sum (map readingTime ws) + 200 <= list_sum ws + 200 * length ws + 200.
Proof.
  induction ws as [|w ws IH]; simpl; [lia|].
  destruct (StoreFacts.readingTime_ceil w). lia.
Qed.

(** The totals of a book.  The total reading time, which adds up the
    rounded reading times of the chapters, is never below the reading
    time of the total word count at 200 words a minute, and exceeds it
    by less than a minute for each chapter; the average chapter length
    is defined whenever there is a chapter. *)
Theorem total_reading_time_bounds (chapters : list Chapter.t) :
  let stats := calculateBookStats chapters in
  totalWordCount stats <= 200 * totalReadingTime stats /\
  (chapters <> [] ->
   200 * totalReadingTime stats < totalWordCount stats + 200 * chapterCount stats) /\
  (averageWordsPerChapter stats = None <-> chapters = []).
Proof.
  intros stats. unfold stats, calculateBookStats. simpl.
  rewrite (StoreFacts.fold_left_sum Chapter.wordCount chapters 0).
  rewrite (StoreFacts.fold_left_sum (fun ch => readingTime (Chapter.wordCount ch)) chapters 0).
  simpl. rewrite <- (map_map Chapter.wordCount readingTime).
  pose proof (list_sum_ceil (map Chapter.wordCount chapters)) as [H1 H2].
  rewrite length_map in H2.
  split; [exact H1|]. split.
  - intros Hne. destruct chapters as [|ch l]; [contradiction|]. clear H1 H2.
    simpl. destruct (StoreFacts.readingTime_ceil (Chapter.wordCount ch)) as [_ Hc].
    pose proof (list_sum_ceil (map Chapter.wordCount l)) as [_ H2].
    rewrite length_map in H2. lia.
  - unfold roundDiv. destruct chapters; simpl; split; intros H; try reflexivity; discriminate.
Qed.

End ValidateFacts.

(* ================================================================== *)
(** * Facts about the batches of the chapter store *)
(* ================================================================== *)

Module BatchFacts.

Import JS Batches.

(** [l1] is [l2] with some elements left out. *)
Inductive Subseq {A : Type} : list A -> list A -> Prop :=
| Subseq_nil : Subseq [] []
| Subseq_keep (x : A) (l1 l2 : list A) : Subseq l1 l2 -> Subseq (x :: l1) (x :: l2)
| Subseq_drop (x : A) (l1 l2 : list A) : Subseq l1 l2 -> Subseq l1 (x :: l2).

Lemma Subseq_refl {A : Type} (l : list A) : Subseq l l.
Proof. induction l; constructor; assumption. Qed.

Lemma Subseq_nil_l {A : Type} (l : list A) : Subseq [] l.
Proof. induction l; constructor; assumption. Qed.

Lemma Subseq_app {A : Type} (a a' b b' : list A) :
  Subseq a a' -> Subseq b b' -> Subseq (a ++ b) (a' ++ b').
Proof.
  intros Ha Hb. induction Ha; simpl; [exact Hb| |]; constructor; assumption.
Qed.

Lemma Subseq_length {A : Type} (a b : list A) : Subseq a b -> length a <= length b.
Proof. intros H. induction H; simpl; lia. Qed.

(** The chunks of what is left of the list. *)
Fixpoint chunkList {A : Type} (fuel size : nat) (l : list A) : list (list A) :=
  match fuel with
  | O => []
  | S fuel' =>
      match l with
      | [] => []
      | _ :: _ => firstn size l :: chunkList fuel' size (skipn size l)
      end
  end.

Lemma chunkFrom_chunkList {A : Type} (fuel size : nat) (items : list A) (i : nat) :
  chunkFrom fuel size items i = chunkList fuel size (skipn i items).
Proof.
  revert i. induction fuel as [|fuel IH]; intros i; [reflexivity|]. simpl.
  destruct (Nat.ltb_spec i (length items)) as [Hi|Hi].
  - destruct (skipn i items) as [|x rest] eqn:Es.
    { exfalso. pose proof (length_skipn i items) as Hl. rewrite Es in Hl. simpl in Hl. lia. }
    rewrite IH. unfold slice. rewrite <- Es.
    replace (i + size - i) with size by lia.
    rewrite Nat.add_comm, <- skipn_skipn. reflexivity.
  - rewrite skipn_all2 by lia. reflexivity.
Qed.

Lemma chunkList_spec {A : Type} (fuel size : nat) (l : list A) :
  1 <= size -> length l <= fuel ->
  concat (chunkList fuel size l) = l /\
  Forall (fun c => 1 <= length c <= size) (chunkList fuel size l) /\
  (length (chunkList fuel size l) = 0 <-> l = []) /\
  size * length (chunkList fuel size l) < length l + size /\
  length l <= size * length (chunkList fuel size l).
Proof.
  intros Hs. revert l. induction fuel as [|fuel IH]; intros l Hl.
  - destruct l; [|simpl in Hl; lia]. simpl. repeat split; auto; lia.
  - destruct l as [|x l]; [simpl; repeat split; auto; lia|].
    cbn [chunkList].
    set (l0 := x :: l) in *.
    assert (Hf : length (firstn size l0) = Nat.min size (length l0)) by apply length_firstn.
    assert (Hk : length (skipn size l0) = length l0 - size) by apply length_skipn.
    assert (Hl0 : 1 <= length l0) by (unfold l0; simpl; lia).
    destruct (IH (skipn size l0)) as (H1 & H2 & H3 & H4 & H5); [lia|].
    assert (Hz : length l0 <= size -> length (chunkList fuel size (skipn size l0)) = 0).
    { intros Hle. apply (proj2 H3), length_zero_iff_nil. lia. }
    clearbody l0. cbn [concat length]. repeat split.
    + rewrite H1. apply firstn_skipn.
    + constructor; [lia|exact H2].
    + intros E. discriminate E.
    + intros E. subst l0. simpl in Hl0. lia.
    + destruct (Nat.le_gt_cases (length l0) size) as [Hle|Hgt]; [rewrite (Hz Hle)|]; lia.
    + destruct (Nat.le_gt_cases (length l0) size) as [Hle|Hgt]; [rewrite (Hz Hle)|]; lia.
Qed.

(** The batching loop, for a batch size of at least 1: the batches put
    end to end are the list, and each holds between 1 and [size] items. *)
Lemma chunksOf_spec {A : Type} (size : nat) (items : list A) :
  1 <= size ->
  concat (chunksOf size items) = items /\
  Forall (fun c => 1 <= length c <= size) (chunksOf size items) /\
  size * length (chunksOf size items) < length items + size /\
  length items <= size * length (chunksOf size items).
Proof.
  intros Hs. unfold chunksOf. rewrite chunkFrom_chunkList. simpl.
  destruct (chunkList_spec (length items) size items Hs (le_n _)) as (H1 & H2 & _ & H4 & H5).
  repeat split; assumption.
Qed.

(** The database hands back the rows it was given. *)
Definition Echoes (db : nat -> list ChapterForDB.t -> response) : Prop :=
  forall n rows data, db n rows = Rows data -> data = rows.

Lemma insertSingly_Subseq (db : nat -> list ChapterForDB.t -> response) (n : nat)
    (batch : list ChapterForDB.t) :
  Echoes db -> Subseq (snd (insertSingly db n batch)) batch.
Proof.
  intros He. revert n. induction batch as [|ch rest IH]; intros n; simpl; [constructor|].
  specialize (IH (S n)). destruct (insertSingly db (S n) rest) as [n' inserted].
  simpl in *. destruct (db n [ch]) as [data| | |] eqn:E; try (constructor; exact IH).
  rewrite (He _ _ _ E). simpl. constructor. exact IH.
Qed.

Lemma insertBatches_Subseq (db : nat -> list ChapterForDB.t -> response) (n : nat)
    (batches : list (list ChapterForDB.t)) :
  Echoes db -> Subseq (insertBatches db n batches) (concat batches).
Proof.
  intros He. revert n. induction batches as [|batch rest IH]; intros n; simpl; [constructor|].
  destruct (db n batch) as [data| | |] eqn:E.
  - rewrite (He _ _ _ E). apply Subseq_app; [apply Subseq_refl|apply IH].
  - apply (Subseq_app [] batch); [apply Subseq_nil_l|apply IH].
  - pose proof (insertSingly_Subseq db (S n) batch He) as Hs.
    destruct (insertSingly db (S n) batch) as [n' inserted]. simpl in Hs.
    apply Subseq_app; [exact Hs|apply IH].
  - apply (Subseq_app [] batch); [apply Subseq_nil_l|apply IH].
Qed.

Lemma insertBatches_all (db : nat -> list ChapterForDB.t -> response) (n : nat)
    (batches : list (list ChapterForDB.t)) :
  (forall k rows, db k rows = Rows rows) ->
  insertBatches db n batches = concat batches.
Proof.
  intros Hok. revert n. induction batches as [|batch rest IH]; intros n; simpl; [reflexivity|].
  rewrite Hok, IH. reflexivity.
Qed.

(** The batch insert.  With a database that hands back the rows it
    stored, the rows reported as inserted are rows of the input, in the
    order of the input and each at most once; when no request fails they
    are all of them. *)
Theorem inserted_rows_are_input_rows (db : nat -> list ChapterForDB.t -> response)
    (chapters : list ChapterForDB.t) :
  Echoes db ->
  Subseq (insertChaptersInBatches db chapters) chapters /\
  length (insertChaptersInBatches db chapters) <= length chapters /\
  ((forall k rows, db k rows = Rows rows) ->
   insertChaptersInBatches db chapters = chapters).
Proof.
  intros He. unfold insertChaptersInBatches.
  destruct (chunksOf_spec 10 chapters ltac:(lia)) as (Hc & _).
  pose proof (insertBatches_Subseq db 0 (chunksOf 10 chapters) He) as Hs.
  rewrite Hc in Hs. split; [exact Hs|]. split; [apply Subseq_length, Hs|].
  intros Hok. rewrite insertBatches_all by exact Hok. exact Hc.
Qed.

Definition sampleRow (n : nat) : ChapterForDB.t :=
  ChapterForDB.Make (lit "book") n 1 (lit "title") (lit "content") None 60 1 []
    Schema.pending
    (Metadata.Make (lit "pattern") (9 # 10) None 0 7 (lit "now") (lit "v2_optimized")).

(** A database whose first request fails. *)
Definition flakyDb (n : nat) (rows : list ChapterForDB.t) : response :=
  match n with O => Failure | _ => Rows rows end.

Lemma inserted_rows_are_input_rows_witness :
  Subseq (insertChaptersInBatches flakyDb [sampleRow 1; sampleRow 2])
         [sampleRow 1; sampleRow 2] /\
  length (insertChaptersInBatches flakyDb [sampleRow 1; sampleRow 2])
  <= length [sampleRow 1; sampleRow 2] /\
  ((forall k rows, flakyDb k rows = Rows rows) ->
   insertChaptersInBatches flakyDb [sampleRow 1; sampleRow 2] = [sampleRow 1; sampleRow 2]).
Proof.
  apply (inserted_rows_are_input_rows flakyDb [sampleRow 1; sampleRow 2]).
  intros n rows data H. destruct n; [discriminate|]. injection H as <-. reflexivity.
Defined.

Lemma enqueueFrom_spec (bookId : str) (total i : nat) (batches : list (list ChapterForDB.t)) :
  map job_chapters (enqueueFrom bookId total i batches) = batches /\
  map batch_number (enqueueFrom bookId total i batches) = seq (i + 1) (length batches) /\
  map p_priority (enqueueFrom bookId total i batches)
  = map (fun k => Nat.min (5 + k) 10) (seq i (length batches)) /\
  Forall (fun j => total_batches j = total /\ p_book_id j = bookId)
         (enqueueFrom bookId total i batches).
Proof.
  revert i. induction batches as [|b rest IH]; intros i; simpl.
  - repeat split. constructor.
  - destruct (IH (S i)) as (H1 & H2 & H3 & H4). rewrite H1, H2, H3.
    repeat split. constructor; [split; reflexivity|exact H4].
Qed.

(** The enhancement jobs.  Every chapter goes into exactly one job, in
    order; a job holds 1 to 5 chapters; the jobs are numbered 1, 2, ...
    and each knows how many there are; the job at position [k] (from 0)
    is enqueued with priority [min (5 + k) 10], so priorities lie in
    5..10 and never decrease along the jobs. *)
Theorem enhancement_jobs_cover_chapters (bookId : str) (chapters : list ChapterForDB.t) :
  let jobs := enqueueEnhancementJobs bookId chapters in
  concat (map job_chapters jobs) = chapters /\
  map batch_number jobs = seq 1 (length jobs) /\
  map p_priority jobs = map (fun k => Nat.min (5 + k) 10) (seq 0 (length jobs)) /\
  5 * length jobs < length chapters + 5 /\
  Forall (fun j =>
            1 <= length (job_chapters j) <= 5 /\
            total_batches j = length jobs /\
            5 <= p_priority j <= 10) jobs.
Proof.
  intros jobs. unfold jobs, enqueueEnhancementJobs.
  set (batches := chunksOf 5 chapters).
  destruct (chunksOf_spec 5 chapters ltac:(lia)) as (Hc & Hf & Hn & _).
  fold batches in Hc, Hf, Hn.
  destruct (enqueueFrom_spec bookId (length batches) 0 batches) as (H1 & H2 & H3 & H4).
  assert (Hlen : length (enqueueFrom bookId (length batches) 0 batches) = length batches).
  { rewrite <- (length_map job_chapters), H1. reflexivity. }
  rewrite H1, Hlen. repeat split; try assumption.
  apply Forall_forall. intros j Hj.
  pose proof (proj1 (Forall_forall _ _) H4 j Hj) as [Ht _].
  assert (Hjc : In (job_chapters j) batches).
  { rewrite <- H1. apply in_map, Hj. }
  pose proof (proj1 (Forall_forall _ _) Hf _ Hjc) as Hb. simpl in Hb.
  assert (Hp : In (p_priority j) (map (fun k => Nat.min (5 + k) 10) (seq 0 (length batches)))).
  { rewrite <- H3. apply in_map, Hj. }
  apply in_map_iff in Hp. destruct Hp as [k [Hk _]].
  repeat split; try lia; try assumption.
Qed.

End BatchFacts.

(* ================================================================== *)
(** * Facts about global replacement *)
(* ================================================================== *)

Module ReplaceFacts.

Import JS.

(** The length of the run of characters of a class at the head of a text. *)
Fixpoint runLen (p : char -> bool) (l : str) : nat :=
  match l with
  | c :: l' => if p c then S (runLen p l') else 0
  | [] => 0
  end.

(** What [replace(/[p]{mn,}/g, repl)] comes to, for [mn >= 1]: a run of
    at least [mn] characters of the class becomes [repl], every other
    character stays. *)
Fixpoint collapseFuel (fuel mn : nat) (p : char -> bool) (repl l : str) : str :=
  match fuel with
  | O => []
  | S fuel' =>
      match l with
      | [] => []
      | c :: l' =>
          if mn <=? runLen p l
          then repl ++ collapseFuel fuel' mn p repl (skipn (runLen p l) l)
          else c :: collapseFuel fuel' mn p repl l'
      end
  end.

Definition collapse (mn : nat) (p : char -> bool) (repl l : str) : str :=
  collapseFuel (length l) mn p repl l.

Lemma skipn_nth (i : nat) (s : str) (c : char) :
  nth_error s i = Some c -> skipn i s = c :: skipn (S i) s.
Proof.
  revert s. induction i as [|i IH]; intros [|x s] H; simpl in *; try discriminate.
  - injection H as ->. reflexivity.
  - apply IH, H.
Qed.

Lemma nth_error_skipn_hd (i : nat) (s : str) :
  nth_error s i = match skipn i s with c :: _ => Some c | [] => None end.
Proof.
  revert s. induction i as [|i IH]; intros [|x s]; simpl; try reflexivity. apply IH.
Qed.

Section Engine.

Variable fl : flags.
Variable s : str.
Variable r : regex.
Variable repl : str.

(** The replacement of the text from offset [i] on. *)
Definition replFrom (fuel i : nat) : str :=
  buildReplace s (allMatches fl s r fuel i) repl i.

Lemma searchFrom_ge (fuel i st en : nat) (c : caps) :
  searchFrom fl s r fuel i = Some (st, en, c) ->
  i <= st /\ matchAt fl s r st = Some (en, c).
Proof.
  revert i. induction fuel as [|fuel IH]; intros i; simpl.
  - destruct (matchAt fl s r i) as [[j c']|] eqn:E; [|discriminate].
    intros H. injection H as <- <- <-. split; [lia|exact E].
  - destruct (matchAt fl s r i) as [[j c']|] eqn:E.
    + intros H. injection H as <- <- <-. split; [lia|exact E].
    + intros H. apply IH in H. split; [lia|tauto].
Qed.

Lemma exec_ge (i st en : nat) (c : caps) :
  exec fl s r i = Some (st, en, c) -> i <= st.
Proof.
  unfold exec. destruct (length s <? i); [discriminate|].
  intros H. apply searchFrom_ge in H. tauto.
Qed.

Lemma exec_here (i j : nat) (c : caps) :
  i <= length s -> matchAt fl s r i = Some (j, c) -> exec fl s r i = Some (i, j, c).
Proof.
  intros Hi H. unfold exec. rewrite (proj2 (Nat.ltb_ge _ _) Hi).
  destruct (length s - i); simpl; rewrite H; reflexivity.
Qed.

Lemma exec_skip (i : nat) :
  i < length s -> matchAt fl s r i = None -> exec fl s r i = exec fl s r (S i).
Proof.
  intros Hi H. unfold exec.
  rewrite (proj2 (Nat.ltb_ge (length s) i)) by lia.
  rewrite (proj2 (Nat.ltb_ge (length s) (S i))) by lia.
  replace (length s - i) with (S (length s - S i)) by lia.
  simpl. rewrite H. reflexivity.
Qed.

Lemma exec_end : matchAt fl s r (length s) = None -> exec fl s r (length s) = None.
Proof.
  intros H. unfold exec. rewrite Nat.ltb_irrefl, Nat.sub_diag. simpl. rewrite H. reflexivity.
Qed.

Lemma replFrom_zero (i : nat) : replFrom 0 i = skipn i s.
Proof. reflexivity. Qed.

Lemma replFrom_end (fuel : nat) :
  matchAt fl s r (length s) = None -> replFrom fuel (length s) = [].
Proof.
  intros H. unfold replFrom. destruct fuel; cbn [allMatches].
  - apply skipn_all.
  - rewrite (exec_end H). apply skipn_all.
Qed.

Lemma replFrom_skip (fuel i : nat) (c : char) :
  nth_error s i = Some c -> matchAt fl s r i = None ->
  replFrom (S fuel) i = c :: replFrom (S fuel) (S i).
Proof.
  intros Hc H. assert (Hi : i < length s) by (apply nth_error_Some; congruence).
  unfold replFrom. cbn [allMatches]. rewrite (exec_skip i Hi H).
  destruct (exec fl s r (S i)) as [[[st en] c']|] eqn:E; cbn [buildReplace].
  - apply exec_ge in E.
    rewrite (proj2 (Nat.leb_le i st)) by lia.
    rewrite (proj2 (Nat.leb_le (S i) st)) by lia.
    rewrite (skipn_nth i s c Hc).
    replace (st - i) with (S (st - S i)) by lia. reflexivity.
  - apply skipn_nth, Hc.
Qed.

Lemma replFrom_match (fuel i j : nat) (c : caps) :
  i <= length s -> matchAt fl s r i = Some (j, c) -> i < j ->
  replFrom (S fuel) i = repl ++ replFrom fuel j.
Proof.
  intros Hi H Hj. unfold replFrom. cbn [allMatches]. rewrite (exec_here i j c Hi H).
  rewrite (proj2 (Nat.eqb_neq j i)) by lia. cbn [buildReplace].
  rewrite Nat.leb_refl, Nat.sub_diag. reflexivity.
Qed.

End Engine.

Section Runs.

Variable fl : flags.
Variable s : str.
Variable p : char -> bool.

(** The class as the flags make it match. *)
Definition cls : char -> bool := inClass fl p.

Lemma matchAt_cls (i : nat) :
  matchAt fl s (Cls p) i
  = match nth_error s i with
    | Some c => if cls c then Some (S i, []) else None
    | None => None
    end.
Proof. reflexivity. Qed.

Lemma repeat_run (fuel mn i : nat) :
  runLen cls (skipn i s) < fuel ->
  repeatMatcher (matchRegex fl s (Cls p)) [] fuel mn None i [] (fun j c => Some (j, c))
  = if mn <=? runLen cls (skipn i s)
    then Some (i + runLen cls (skipn i s), [])
    else None.
Proof.
  revert mn i. induction fuel as [|fuel IH]; intros mn i Hf; [lia|].
  cbn [repeatMatcher matchRegex clearCaps filter].
  rewrite (nth_error_skipn_hd i s).
  destruct (skipn i s) as [|c rest] eqn:Es.
  - cbn [runLen]. destruct mn; cbn [Nat.ltb Nat.leb];
      [rewrite Nat.add_0_r; reflexivity|reflexivity].
  - assert (Hrest : rest = skipn (S i) s).
    { assert (Hn : nth_error s i = Some c) by (rewrite nth_error_skipn_hd, Es; reflexivity).
      rewrite (skipn_nth i s c Hn) in Es. injection Es as <-. reflexivity. }
    cbn [runLen] in *. fold cls. destruct (cls c) eqn:Ec.
    + rewrite (proj2 (Nat.eqb_neq (S i) i)) by lia. rewrite andb_false_r.
      remember (skipn (S i) s) as tl eqn:Etl. subst rest.
      rewrite IH by (rewrite <- Etl; lia). rewrite <- Etl.
      destruct mn as [|mn]; cbn [Nat.ltb Nat.leb pred].
      * rewrite Nat.add_succ_r. reflexivity.
      * destruct (mn <=? runLen cls tl); [|reflexivity].
        rewrite Nat.add_succ_r. reflexivity.
    + destruct mn; cbn [Nat.ltb Nat.leb];
        [rewrite Nat.add_0_r; reflexivity|reflexivity].
Qed.

Lemma runLen_le (l : str) : runLen cls l <= length l.
Proof. induction l as [|c l IH]; simpl; [lia|]. destruct (cls c); lia. Qed.

Lemma matchAt_run (mn i : nat) :
  matchAt fl s (Rep mn None (Cls p)) i
  = if mn <=? runLen cls (skipn i s)
    then Some (i + runLen cls (skipn i s), [])
    else None.
Proof.
  unfold matchAt. cbn [matchRegex groups]. apply repeat_run.
  pose proof (runLen_le (skipn i s)). rewrite length_skipn in H. lia.
Qed.

Variable repl : str.

Lemma replFrom_cls (fuel i : nat) :
  length s < fuel + i ->
  replFrom fl s (Cls p) repl fuel i
  = flat_map (fun c => if cls c then repl else [c]) (skipn i s).
Proof.
  remember (length s - i) as d eqn:Ed. revert fuel i Ed.
  induction d as [|d IH]; intros fuel i Ed Hf.
  - rewrite skipn_all2 by lia.
    destruct fuel as [|fuel]; [rewrite replFrom_zero; apply skipn_all2; lia|].
    destruct (Nat.eq_dec i (length s)) as [->|Hne].
    + apply replFrom_end. rewrite matchAt_cls.
      rewrite (proj2 (nth_error_None s (length s))) by lia. reflexivity.
    + unfold replFrom. cbn [allMatches]. unfold exec.
      rewrite (proj2 (Nat.ltb_lt _ _)) by lia. apply skipn_all2. lia.
  - assert (Hi : i < length s) by lia.
    destruct (nth_error s i) as [c|] eqn:En;
      [|apply nth_error_None in En; lia].
    rewrite (skipn_nth i s c En). cbn [flat_map].
    destruct fuel as [|fuel]; [lia|].
    destruct (cls c) eqn:Ec.
    + rewrite (replFrom_match fl s (Cls p) repl fuel i (S i) []); try lia.
      * rewrite (IH fuel (S i)) by lia. reflexivity.
      * rewrite matchAt_cls, En, Ec. reflexivity.
    + rewrite (replFrom_skip fl s (Cls p) repl fuel i c En).
      * rewrite (IH (S fuel) (S i)) by lia. reflexivity.
      * rewrite matchAt_cls, En, Ec. reflexivity.
Qed.

(** [replace(/[p]/g, repl)]: each character of the class becomes [repl]. *)
Lemma replaceAll_cls :
  replaceAll fl s (Cls p) repl = flat_map (fun c => if cls c then repl else [c]) s.
Proof.
  unfold replaceAll. fold (replFrom fl s (Cls p) repl (length s + 2) 0).
  rewrite replFrom_cls by lia. reflexivity.
Qed.

Lemma replFrom_run (mn fuel fuel' i : nat) :
  1 <= mn -> length s < fuel + i -> length s <= fuel' + i ->
  replFrom fl s (Rep mn None (Cls p)) repl fuel i
  = collapseFuel fuel' mn cls repl (skipn i s).
Proof.
  intros Hmn. remember (length s - i) as d eqn:Ed. revert fuel fuel' i Ed.
  induction d as [d IH] using lt_wf_ind; intros fuel fuel' i Ed Hf Hf'.
  destruct (Nat.le_gt_cases (length s) i) as [Hge|Hi].
  - rewrite skipn_all2 by lia.
    replace (collapseFuel fuel' mn cls repl []) with (@nil char) by (destruct fuel'; reflexivity).
    destruct fuel as [|fuel]; [rewrite replFrom_zero; apply skipn_all2; lia|].
    destruct (Nat.eq_dec i (length s)) as [->|Hne].
    + apply replFrom_end. rewrite matchAt_run, skipn_all. cbn [runLen].
      rewrite (proj2 (Nat.leb_gt mn 0)) by lia. reflexivity.
    + unfold replFrom. cbn [allMatches]. unfold exec.
      rewrite (proj2 (Nat.ltb_lt _ _)) by lia. apply skipn_all2. lia.
  - destruct (nth_error s i) as [c|] eqn:En;
      [|apply nth_error_None in En; lia].
    pose proof (matchAt_run mn i) as Hm.
    pose proof (runLen_le (skipn i s)) as Hrl. rewrite length_skipn in Hrl.
    rewrite (skipn_nth i s c En) in *.
    destruct fuel as [|fuel]; [lia|]. destruct fuel' as [|fuel']; [lia|].
    cbn [collapseFuel].
    set (rl := runLen cls (c :: skipn (S i) s)) in *.
    destruct (mn <=? rl) eqn:El.
    + apply Nat.leb_le in El.
      rewrite (replFrom_match fl s _ repl fuel i (i + rl) [] (Nat.lt_le_incl _ _ Hi) Hm)
        by lia.
      f_equal. rewrite <- (skipn_nth i s c En), skipn_skipn.
      rewrite (Nat.add_comm rl i).
      apply (IH (length s - (i + rl))); lia.
    + rewrite (replFrom_skip fl s _ repl fuel i c En Hm). f_equal.
      apply (IH (length s - S i)); lia.
Qed.

(** [replace(/[p]{mn,}/g, repl)] for [mn >= 1]. *)
Lemma replaceAll_run (mn : nat) :
  1 <= mn -> replaceAll fl s (Rep mn None (Cls p)) repl = collapse mn cls repl s.
Proof.
  intros Hmn. unfold replaceAll, collapse.
  fold (replFrom fl s (Rep mn None (Cls p)) repl (length s + 2) 0).
  rewrite (replFrom_run mn (length s + 2) (length s) 0) by lia. reflexivity.
Qed.

End Runs.

Section Collapse.

Variable p : char -> bool.
Variable repl : str.

Lemma runLen_skipn (l : str) : runLen p (skipn (runLen p l) l) = 0.
Proof.
  induction l as [|c l IH]; [reflexivity|]. cbn [runLen].
  destruct (p c) eqn:Ec; [exact IH|]. cbn [skipn runLen]. rewrite Ec. reflexivity.
Qed.

Lemma runLen_length (l : str) : runLen p l <= length l.
Proof. induction l as [|c l IH]; simpl; [lia|]. destruct (p c); lia. Qed.

Lemma runLen_app (a b : str) : runLen p (a ++ b) <= length a + runLen p b.
Proof. induction a as [|c a IH]; simpl; [lia|]. destruct (p c); lia. Qed.

(** Every character of the result is one of the replacement or one of
    the text. *)
Lemma collapse_In (fuel mn : nat) (l : str) (c : char) :
  In c (collapseFuel fuel mn p repl l) -> In c repl \/ In c l.
Proof.
  revert l. induction fuel as [|fuel IH]; intros l; [intros []|].
  destruct l as [|x l]; [intros []|]. cbn [collapseFuel].
  destruct (mn <=? runLen p (x :: l)).
  - rewrite in_app_iff. intros [H|H]; [left; exact H|].
    apply IH in H. destruct H as [H|H]; [left; exact H|right].
    rewrite <- (firstn_skipn (runLen p (x :: l)) (x :: l)). apply in_or_app. right. exact H.
  - intros [<-|H]; [right; left; reflexivity|].
    apply IH in H. destruct H as [H|H]; [left; exact H|right; right; exact H].
Qed.

(** With [mn = 1] no character of the class is left of the text. *)
Lemma collapse1_In (fuel : nat) (l : str) (c : char) :
  In c (collapseFuel fuel 1 p repl l) -> In c repl \/ (In c l /\ p c = false).
Proof.
  revert l. induction fuel as [|fuel IH]; intros l; [intros []|].
  destruct l as [|x l]; [intros []|]. cbn [collapseFuel].
  destruct (1 <=? runLen p (x :: l)) eqn:E.
  - rewrite in_app_iff. intros [H|H]; [left; exact H|].
    apply IH in H. destruct H as [H|[H Hc]]; [left; exact H|right].
    split; [|exact Hc].
    rewrite <- (firstn_skipn (runLen p (x :: l)) (x :: l)). apply in_or_app. right. exact H.
  - intros [<-|H].
    + right. split; [left; reflexivity|].
      apply Nat.leb_gt in E. cbn [runLen] in E. destruct (p x); [lia|reflexivity].
    + apply IH in H. destruct H as [H|[H Hc]]; [left; exact H|right].
      split; [right; exact H|exact Hc].
Qed.

(** A run that is too short to be replaced comes out as it is. *)
Lemma collapse_short_run (fuel mn : nat) (l : str) :
  length l <= fuel -> runLen p l < mn ->
  runLen p (collapseFuel fuel mn p repl l) = runLen p l.
Proof.
  revert l. induction fuel as [|fuel IH]; intros l Hf Hr.
  - destruct l; [reflexivity|simpl in Hf; lia].
  - destruct l as [|x l]; [reflexivity|]. cbn [collapseFuel].
    rewrite (proj2 (Nat.leb_gt _ _) Hr). cbn [runLen] in *.
    destruct (p x); [|reflexivity]. f_equal. apply IH; simpl in Hf; lia.
Qed.

(** In the result no run of the class is longer than the replacement,
    or than the longest run that is left alone. *)
Lemma collapse_runs (fuel mn : nat) (l : str) (i : nat) :
  1 <= mn -> length l <= fuel ->
  runLen p (skipn i (collapseFuel fuel mn p repl l)) <= Nat.max (length repl) (mn - 1).
Proof.
  intros Hmn. revert l i. induction fuel as [|fuel IH]; intros l i Hf.
  - rewrite skipn_nil. simpl. lia.
  - destruct l as [|x l]; [rewrite skipn_nil; simpl; lia|]. cbn [collapseFuel].
    set (rl := runLen p (x :: l)).
    destruct (mn <=? rl) eqn:E.
    + assert (Hlen : length (skipn rl (x :: l)) <= fuel).
      { apply Nat.leb_le in E. rewrite length_skipn. lia. }
      destruct (Nat.le_gt_cases i (length repl)) as [Hi|Hi].
      * rewrite skipn_app. replace (i - length repl) with 0 by lia. cbn [skipn].
        pose proof (runLen_app (skipn i repl)
                      (collapseFuel fuel mn p repl (skipn rl (x :: l)))) as Ha.
        rewrite (collapse_short_run fuel mn _ Hlen) in Ha
          by (unfold rl; rewrite runLen_skipn; lia).
        unfold rl in Ha. rewrite runLen_skipn in Ha. rewrite length_skipn in Ha.
        fold rl in Ha. lia.
      * rewrite skipn_app. rewrite (skipn_all2 repl) by lia. cbn [app].
        apply IH, Hlen.
    + apply Nat.leb_gt in E. destruct i as [|i].
      * cbn [skipn]. fold (collapseFuel (S fuel) mn p repl (x :: l)) || idtac.
        pose proof (collapse_short_run (S fuel) mn (x :: l) Hf E) as Hs.
        cbn [collapseFuel] in Hs. fold rl in Hs.
        rewrite (proj2 (Nat.leb_gt _ _) E) in Hs. rewrite Hs. fold rl. lia.
      * cbn [skipn]. apply IH. simpl in Hf. lia.
Qed.

(** Where no run is long enough, nothing is replaced. *)
Lemma collapse_id (fuel mn : nat) (l : str) :
  length l <= fuel -> (forall i, runLen p (skipn i l) < mn) ->
  collapseFuel fuel mn p repl l = l.
Proof.
  revert l. induction fuel as [|fuel IH]; intros l Hf Hr.
  - destruct l; [reflexivity|simpl in Hf; lia].
  - destruct l as [|x l]; [reflexivity|]. cbn [collapseFuel].
    pose proof (Hr 0) as H0. cbn [skipn] in H0.
    rewrite (proj2 (Nat.leb_gt _ _) H0). f_equal.
    apply IH; [simpl in Hf; lia|]. intros i. apply (Hr (S i)).
Qed.

(** The runs of another class, one that the replacement does not touch,
    get no longer. *)
Lemma collapse_other_runs (q : char -> bool) (bound fuel mn : nat) (l : str) :
  1 <= mn -> 1 <= length repl -> (forall c, In c repl -> q c = false) ->
  (forall i, runLen q (skipn i l) <= bound) ->
  runLen q (collapseFuel fuel mn p repl l) <= runLen q l /\
  forall i, runLen q (skipn i (collapseFuel fuel mn p repl l)) <= bound.
Proof.
  intros Hmn Hne Hq. revert l. induction fuel as [|fuel IH]; intros l Hb.
  - split; [simpl; lia|]. intros i. rewrite skipn_nil. simpl. lia.
  - destruct l as [|x l]; [split; [simpl; lia|intros i; rewrite skipn_nil; simpl; lia]|].
    cbn [collapseFuel]. set (rl := runLen p (x :: l)).
    destruct (mn <=? rl) eqn:E.
    + assert (Hb' : forall i, runLen q (skipn i (skipn rl (x :: l))) <= bound).
      { intros i. rewrite skipn_skipn. apply Hb. }
      destruct (IH _ Hb') as [_ H2].
      assert (Hhd : forall rest, runLen q (repl ++ rest) = 0).
      { intros rest. destruct repl as [|y repl'] eqn:Er; [simpl in Hne; lia|].
        cbn [app runLen]. rewrite (Hq y) by (left; reflexivity). reflexivity. }
      split; [rewrite Hhd; lia|].
      intros i. destruct (Nat.le_gt_cases i (length repl)) as [Hi|Hi].
      * rewrite skipn_app. replace (i - length repl) with 0 by lia. cbn [skipn].
        destruct (skipn i repl) as [|y tl] eqn:Es.
        -- cbn [app]. apply (H2 0).
        -- cbn [app runLen]. rewrite (Hq y); [lia|].
           rewrite <- (firstn_skipn i repl). apply in_or_app. right. rewrite Es.
           left. reflexivity.
      * rewrite skipn_app. rewrite (skipn_all2 repl) by lia. cbn [app]. apply H2.
    + assert (Hb' : forall i, runLen q (skipn i l) <= bound).
      { intros i. apply (Hb (S i)). }
      destruct (IH _ Hb') as [H1 H2].
      assert (Hhead : runLen q (x :: collapseFuel fuel mn p repl l) <= runLen q (x :: l)).
      { cbn [runLen]. destruct (q x); lia. }
      split; [exact Hhead|].
      intros [|i]; cbn [skipn]; [|apply H2].
      pose proof (Hb 0) as H0. cbn [skipn] in H0. lia.
Qed.

End Collapse.

Lemma flat_map_In (p : char -> bool) (repl l : str) (c : char) :
  In c (flat_map (fun x => if p x then repl else [x]) l) ->
  In c repl \/ (In c l /\ p c = false).
Proof.
  rewrite in_flat_map. intros [x [Hx Hc]]. destruct (p x) eqn:E; [left; exact Hc|].
  destruct Hc as [<-|[]]. right. split; assumption.
Qed.

Lemma flat_map_id (p : char -> bool) (repl l : str) :
  (forall c, In c l -> p c = false) ->
  flat_map (fun x => if p x then repl else [x]) l = l.
Proof.
  induction l as [|x l IH]; intros H; [reflexivity|]. cbn [flat_map].
  rewrite (H x) by (left; reflexivity). cbn [app]. f_equal.
  apply IH. intros c Hc. apply H. right. exact Hc.
Qed.

(** Runs in a text without a character of the class, and in the pieces
    of a text. *)
Lemma runLen_none (p : char -> bool) (l : str) (i : nat) :
  (forall c, In c l -> p c = false) -> runLen p (skipn i l) = 0.
Proof.
  intros H. destruct (skipn i l) as [|c rest] eqn:E; [reflexivity|].
  cbn [runLen]. rewrite (H c); [reflexivity|].
  rewrite <- (firstn_skipn i l). apply in_or_app. right. rewrite E. left. reflexivity.
Qed.

Lemma runLen_firstn (p : char -> bool) (k : nat) (l : str) :
  runLen p (firstn k l) <= runLen p l.
Proof.
  revert k. induction l as [|c l IH]; intros [|k]; simpl; try lia.
  destruct (p c); [specialize (IH k)|]; lia.
Qed.

Lemma runs_firstn (p : char -> bool) (bound k : nat) (l : str) :
  (forall i, runLen p (skipn i l) <= bound) ->
  forall i, runLen p (skipn i (firstn k l)) <= bound.
Proof.
  intros H i. destruct (Nat.le_gt_cases i k) as [Hi|Hi].
  - rewrite skipn_firstn_comm.
    pose proof (runLen_firstn p (k - i) (skipn i l)). specialize (H i). lia.
  - rewrite skipn_all2; [simpl; lia|]. rewrite length_firstn. lia.
Qed.

Lemma runs_skipn (p : char -> bool) (bound k : nat) (l : str) :
  (forall i, runLen p (skipn i l) <= bound) ->
  forall i, runLen p (skipn i (skipn k l)) <= bound.
Proof. intros H i. rewrite skipn_skipn. apply H. Qed.

(** [trim] keeps a piece of the text. *)
Lemma trimStart_skipn (l : str) : exists k, trimStart l = skipn k l.
Proof.
  induction l as [|c l [k IH]]; [exists 0; reflexivity|]. simpl.
  destruct (isSpace c); [exists (S k); exact IH|exists 0; reflexivity].
Qed.

Lemma trim_piece (l : str) : exists a b, trim l = firstn b (skipn a l).
Proof.
  unfold trim, trimEnd. destruct (trimStart_skipn l) as [a Ha]. rewrite Ha.
  destruct (trimStart_skipn (rev (skipn a l))) as [b Hb].
  rewrite Hb, skipn_rev, rev_involutive.
  exists a, (length (skipn a l) - b). reflexivity.
Qed.

Lemma trim_In (l : str) (c : char) : In c (trim l) -> In c l.
Proof.
  destruct (trim_piece l) as [a [b E]]. rewrite E. intros H.
  rewrite <- (firstn_skipn a l). apply in_or_app. right.
  rewrite <- (firstn_skipn b (skipn a l)). apply in_or_app. left. exact H.
Qed.

Lemma trim_runs (p : char -> bool) (bound : nat) (l : str) :
  (forall i, runLen p (skipn i l) <= bound) ->
  forall i, runLen p (skipn i (trim l)) <= bound.
Proof.
  intros H. destruct (trim_piece l) as [a [b E]]. rewrite E.
  apply runs_firstn, runs_skipn, H.
Qed.

Lemma trimStart_head (l : str) :
  match trimStart l with c :: _ => isSpace c = false | [] => True end.
Proof.
  induction l as [|c l IH]; simpl; [exact I|].
  destruct (isSpace c) eqn:E; [exact IH|exact E].
Qed.

(** A trimmed text neither starts nor ends with white space. *)
Lemma trim_ends (l : str) :
  match trim l with c :: _ => isSpace c = false | [] => True end /\
  match rev (trim l) with c :: _ => isSpace c = false | [] => True end.
Proof.
  unfold trim, trimEnd. split.
  - pose proof (trimStart_head l) as H1.
    pose proof (trimStart_head (rev (trimStart l))) as H2.
    destruct (trimStart_skipn (rev (trimStart l))) as [b Hb].
    destruct (rev (trimStart (rev (trimStart l)))) as [|c rest] eqn:E; [exact I|].
    assert (Hpre : exists k, trimStart l = (c :: rest) ++ k).
    { rewrite <- E, Hb. exists (rev (firstn b (rev (trimStart l)))).
      rewrite <- rev_app_distr, firstn_skipn, rev_involutive. reflexivity. }
    destruct Hpre as [k Hk]. rewrite Hk in H1. exact H1.
  - rewrite rev_involutive. apply trimStart_head.
Qed.

(** Two characters next to each other in a text. *)
Definition Adjacent (c1 c2 : char) (l : str) : Prop :=
  exists a b, l = a ++ c1 :: c2 :: b.

Lemma runs_not_adjacent (p : char -> bool) (l : str) (c1 c2 : char) :
  (forall i, runLen p (skipn i l) <= 1) -> p c1 = true -> p c2 = true ->
  ~ Adjacent c1 c2 l.
Proof.
  intros H H1 H2 [a [b E]]. specialize (H (length a)).
  rewrite E, skipn_app, skipn_all, Nat.sub_diag in H. cbn [app skipn runLen] in H.
  rewrite H1, H2 in H. lia.
Qed.

(** [k] copies of a character in a row somewhere in a text. *)
Definition HasRun (c : char) (k : nat) (l : str) : Prop :=
  exists a b, l = a ++ repeat c k ++ b.

Lemma runLen_repeat (p : char -> bool) (c : char) (k : nat) (b : str) :
  p c = true -> k <= runLen p (repeat c k ++ b).
Proof.
  intros Hc. induction k as [|k IH]; cbn [repeat app runLen]; [lia|]. rewrite Hc. lia.
Qed.

Lemma runs_no_run (p : char -> bool) (bound k : nat) (l : str) (c : char) :
  (forall i, runLen p (skipn i l) <= bound) -> p c = true -> bound < k ->
  ~ HasRun c k l.
Proof.
  intros H Hc Hk [a [b E]]. specialize (H (length a)).
  rewrite E, skipn_app, skipn_all, Nat.sub_diag in H. cbn [app skipn] in H.
  pose proof (runLen_repeat p c k b Hc). lia.
Qed.

End ReplaceFacts.

(* ================================================================== *)
(** * Facts about the name of the stored file *)
(* ================================================================== *)

Module FileNameFacts.

Import JS FileName ReplaceFacts.

(** An ASCII letter, a digit, [_], [.] or [-]. *)
Definition safe (c : char) : bool := isWord c || (c =? 46)%N || (c =? 45)%N.

Lemma safe_not_space (c : char) : safe c = true -> isSpace c = false.
Proof.
  unfold safe, isWord, isDigit, isUpper, isLower, isSpace.
  rewrite !orb_true_iff, !andb_true_iff, !N.leb_le, !N.eqb_eq.
  intros H.
  repeat match goal with
         | |- (_ || _) = false => apply orb_false_iff; split
         | |- (_ && _) = false => apply andb_false_iff
         end;
    try (apply N.eqb_neq; lia);
    try (destruct (N.leb_spec 9 c); [right; apply N.leb_gt; lia|left; reflexivity]);
    try (destruct (N.leb_spec 8192 c); [right; apply N.leb_gt; lia|left; reflexivity]).
Qed.

Lemma safe_not_unsafe (c : char) : safe c = true -> unsafe c = false.
Proof.
  unfold safe, unsafe. intros H. apply negb_false_iff.
  rewrite !orb_true_iff in *. tauto.
Qed.

Lemma kept_is_safe (c : char) : unsafe c = false -> isSpace c = false -> safe c = true.
Proof.
  unfold safe, unsafe. intros H Hs. apply negb_false_iff in H.
  rewrite !orb_true_iff in *. rewrite Hs in H. intuition discriminate.
Qed.

Lemma sanitize_passes (fileName : str) :
  sanitizeFileName fileName
  = collapse 2 (N.eqb 95) (lit "_")
      (collapse 1 isSpace (lit "_")
         (flat_map (fun c => if unsafe c then [] else [c]) fileName)).
Proof.
  unfold sanitizeFileName, atLeast, plus, chr.
  rewrite (replaceAll_cls noFlags fileName unsafe []).
  rewrite (replaceAll_run noFlags _ isSpace (lit "_") 1) by lia.
  rewrite (replaceAll_run noFlags _ (N.eqb 95) (lit "_") 2) by lia.
  reflexivity.
Qed.

Lemma sanitize_safe (fileName : str) (c : char) :
  In c (sanitizeFileName fileName) -> safe c = true.
Proof.
  rewrite sanitize_passes. unfold collapse. intros H.
  apply collapse_In in H. destruct H as [[<-|[]]|H]; [reflexivity|].
  apply collapse1_In in H. destruct H as [[<-|[]]|[H Hs]]; [reflexivity|].
  apply flat_map_In in H. destruct H as [[]|[_ Hu]].
  apply kept_is_safe; assumption.
Qed.

Lemma sanitize_runs (fileName : str) (i : nat) :
  runLen (N.eqb 95) (skipn i (sanitizeFileName fileName)) <= 1.
Proof.
  rewrite sanitize_passes. unfold collapse.
  apply (collapse_runs (N.eqb 95) (lit "_") _ 2); lia.
Qed.

(** The sanitized name.  It holds only ASCII letters, digits, [_], [.]
    and [-] (so neither white space nor a [/]), never two [_] in a row,
    and sanitizing it again changes nothing. *)
Theorem sanitized_name_is_safe (fileName : str) :
  let name := sanitizeFileName fileName in
  Forall (fun c => safe c = true) name /\
  ~ In 47%N name /\
  Forall (fun c => isSpace c = false) name /\
  ~ Adjacent 95%N 95%N name /\
  sanitizeFileName name = name.
Proof.
  intros name.
  assert (Hsafe : forall c, In c name -> safe c = true) by apply sanitize_safe.
  split; [apply Forall_forall, Hsafe|]. split.
  { intros H. apply Hsafe in H. discriminate. } split.
  { apply Forall_forall. intros c Hc. apply safe_not_space, Hsafe, Hc. } split.
  { apply (runs_not_adjacent (N.eqb 95)); try reflexivity. apply sanitize_runs. }
  rewrite (sanitize_passes name).
  rewrite flat_map_id by (intros c Hc; apply safe_not_unsafe, Hsafe, Hc).
  unfold collapse at 2. rewrite collapse_id; [|lia|].
  - unfold collapse. apply collapse_id; [lia|].
    intros i. pose proof (sanitize_runs fileName i). fold name in H. lia.
  - intros i. rewrite runLen_none; [lia|].
    intros c Hc. apply safe_not_space, Hsafe, Hc.
Qed.

End FileNameFacts.

(* ================================================================== *)
(** * Facts about the cleaned text *)
(* ================================================================== *)

Module CleanupFacts.

Import JS Extract ReplaceFacts.

Definition TAB : char := 9%N.
Definition SPACE : char := 32%N.

Definition isBlankChar (c : char) : bool := ((c =? 32) || (c =? 9))%N.

(** The text after the first four passes. *)
Definition headerPasses (text : str) : str :=
  fold_left applyPass (firstn 4 cleanupPasses) text.

Lemma cleanup_passes (text : str) :
  cleanupExtractedText text
  = trim (collapse 1 isBlankChar (lit " ")
            (collapse 4 (N.eqb LF) [LF; LF; LF]
               (flat_map (fun c => if N.eqb FF c then [LF; LF] else [c])
                         (headerPasses text)))).
Proof.
  unfold cleanupExtractedText.
  assert (E : fold_left applyPass cleanupPasses text
              = fold_left applyPass (skipn 4 cleanupPasses) (headerPasses text)).
  { unfold headerPasses. rewrite <- fold_left_app. reflexivity. }
  rewrite E. generalize (headerPasses text). intros t.
  cbn [cleanupPasses skipn fold_left applyPass].
  unfold chr, atLeast, plus.
  rewrite (replaceAll_cls g t (N.eqb FF) [LF; LF]).
  rewrite (replaceAll_run g _ (N.eqb LF) [LF; LF; LF] 4) by lia.
  rewrite (replaceAll_run g _ (fun c => (c =? 32) || (c =? 9))%N (lit " ") 1) by lia.
  reflexivity.
Qed.

(** The cleaned text.  It holds no form feed and no tab, never two
    spaces in a row and never four line feeds in a row, and neither
    starts nor ends with white space. *)
Theorem cleaned_text_is_normalised (text : str) :
  let cleaned := cleanupExtractedText text in
  ~ In FF cleaned /\ ~ In TAB cleaned /\
  ~ Adjacent SPACE SPACE cleaned /\
  ~ HasRun LF 4 cleaned /\
  match cleaned with c :: _ => isSpace c = false | [] => True end /\
  match rev cleaned with c :: _ => isSpace c = false | [] => True end.
Proof.
  intros cleaned. unfold cleaned. rewrite cleanup_passes.
  set (a := flat_map (fun c => if N.eqb FF c then [LF; LF] else [c]) (headerPasses text)).
  set (b := collapse 4 (N.eqb LF) [LF; LF; LF] a).
  set (c := collapse 1 isBlankChar (lit " ") b).
  assert (Ha : forall x, In x a -> x <> FF).
  { intros x Hx. apply flat_map_In in Hx.
    destruct Hx as [[<-|[<-|[]]]|[_ Hx]]; try discriminate.
    intros ->. discriminate. }
  assert (Hb : forall x, In x b -> x <> FF).
  { intros x Hx. apply collapse_In in Hx.
    destruct Hx as [[<-|[<-|[<-|[]]]]|Hx]; try discriminate. apply Ha, Hx. }
  assert (Hc : forall x, In x c -> x <> FF /\ x <> TAB).
  { intros x Hx. apply collapse1_In in Hx.
    destruct Hx as [[<-|[]]|[Hx Hp]]; [split; discriminate|].
    split; [apply Hb, Hx|]. intros ->. discriminate. }
  assert (Hbl : forall i, runLen (N.eqb LF) (skipn i b) <= 3).
  { intros i. apply (collapse_runs (N.eqb LF) [LF; LF; LF] _ 4); lia. }
  assert (Hcl : forall i, runLen (N.eqb LF) (skipn i c) <= 3).
  { apply (collapse_other_runs isBlankChar (lit " ") (N.eqb LF) 3 _ 1 b); try lia.
    - simpl. lia.
    - intros x [<-|[]]. reflexivity.
    - exact Hbl. }
  assert (Hcs : forall i, runLen isBlankChar (skipn i c) <= 1).
  { intros i. apply (collapse_runs isBlankChar (lit " ") _ 1); lia. }
  split; [intros H; apply trim_In in H; apply (proj1 (Hc _ H)); reflexivity|].
  split; [intros H; apply trim_In in H; apply (proj2 (Hc _ H)); reflexivity|].
  split.
  { apply (runs_not_adjacent isBlankChar); try reflexivity. apply trim_runs, Hcs. }
  split.
  { apply (runs_no_run (N.eqb LF) 3); [apply trim_runs, Hcl|reflexivity|lia]. }
  apply trim_ends.
Qed.

End CleanupFacts.

(* ================================================================== *)
(** * Facts about the highlight quotes *)
(* ================================================================== *)

Module QuotesFacts.

Import JS Quotes ReplaceFacts.




End QuotesFacts.

(* ================================================================== *)
(** * Facts about the pages and words of an extraction *)
(* ================================================================== *)

Module PagesFacts.

Import JS Extract.

Lemma ceilDiv_pos (a b : nat) : 1 <= a -> 1 <= b -> 1 <= ceilDiv a b.
Proof.
  intros Ha Hb. unfold ceilDiv.
  assert (H : (0 < inject_Z (Z.of_nat a) / inject_Z (Z.of_nat b))%Q).
  { apply Qlt_shift_div_l.
    - change 0%Q with (inject_Z 0). rewrite <- Zlt_Qlt. lia.
    - rewrite Qmult_0_l. change 0%Q with (inject_Z 0). rewrite <- Zlt_Qlt. lia. }
  pose proof (Qle_ceiling (inject_Z (Z.of_nat a) / inject_Z (Z.of_nat b))) as Hc.
  assert (Hz : (0 < Qceiling (inject_Z (Z.of_nat a) / inject_Z (Z.of_nat b)))%Z).
  { rewrite Zlt_Qlt. change (inject_Z 0) with 0%Q.
    eapply Qlt_le_trans; eassumption. }
  lia.
Qed.

(** A successful extraction.  The text it returns is a cleaned text; it
    reports at least one page (the page count of the capability when
    that is not 0, the word count over 250 rounded up otherwise), and
    the handler records a word count of at least 1 on the book: a text
    always splits into one word or more, the empty text too. *)
Theorem extraction_reports_pages_and_words (result : outcome extracted)
    (cleaned : str) (pages : nat) (b : Schema.book) :
  extractTextWithProgress result = returns (cleaned, pages) ->
  1 <= pages /\
  (exists r raw, result = returns r /\ text r = Some raw /\
                 cleaned = cleanupExtractedText raw /\
                 pages = match totalPages r with
                         | Some (S n) => S n
                         | _ => estimatePages cleaned
                         end) /\
  (exists words, Schema.total_word_count (fst (extractStage result b)) = Some words /\
                 1 <= words).
Proof.
  intros H. unfold extractStage. rewrite H. cbn [fst recordExtraction Schema.total_word_count].
  assert (Hw : 1 <= length (splitSpaces cleaned))
    by apply (PipelineFacts.countWords_pos cleaned).
  assert (He : 1 <= estimatePages cleaned) by (apply ceilDiv_pos; [exact Hw|lia]).
  unfold extractTextWithProgress, extractionAttempt in H.
  destruct result as [r|m]; [|discriminate].
  destruct (text r) as [raw|] eqn:Et; [|discriminate].
  destruct raw as [|c raw']; [discriminate|].
  destruct (length (trim (c :: raw')) =? 0); [discriminate|].
  injection H as Hc Hp.
  split; [|split].
  - rewrite <- Hp. rewrite Hc. destruct (totalPages r) as [[|n]|]; try exact He. lia.
  - exists r, (c :: raw'). rewrite <- Hc.
    repeat split; [exact Et|]. rewrite <- Hp. reflexivity.
  - exists (length (splitSpaces cleaned)). split; [reflexivity|exact Hw].
Qed.

Lemma extraction_reports_pages_and_words_witness :
  1 <= 1 /\
  (exists r raw, returns (Extracted (Some (lit "x")) None) = returns r /\
                 text r = Some raw /\
                 lit "x" = cleanupExtractedText raw /\
                 1 = match totalPages r with
                     | Some (S n) => S n
                     | _ => estimatePages (lit "x")
                     end) /\
  (exists words,
     Schema.total_word_count
       (fst (extractStage (returns (Extracted (Some (lit "x")) None))
               (Schema.Book Schema.ps_processing None None None))) = Some words /\
     1 <= words).
Proof.
  apply (extraction_reports_pages_and_words
           (returns (Extracted (Some (lit "x")) None)) (lit "x") 1
           (Schema.Book Schema.ps_processing None None None)).
  vm_compute. reflexivity.
Defined.

End PagesFacts.

(* ================================================================== *)
(** * Facts about the spans of the detected chapters *)
(* ================================================================== *)

Module SpanFacts.

Import JS Detect.

(** ** The fallback chunker *)

(** The [k]-th window of 2000 words. *)
Definition window (words : list str) (k : nat) : list str :=
  slice words (2000 * k) (2000 * k + 2000).

Definition IsWindow (words : list str) (bookTitle : str) (ch : Chapter.t) : Prop :=
  exists k,
    2000 * k < length words /\
    Chapter.content ch = join (lit " ") (window words k) /\
    Chapter.wordCount ch = length (window words k) /\
    1 <= Chapter.wordCount ch <= 2000 /\
    Chapter.startIndex ch = Z.of_nat (2000 * k) /\
    Chapter.endIndex ch = Z.of_nat (2000 * k + Chapter.wordCount ch) /\
    Chapter.title ch = bookTitle ++ lit " - Part " ++ showNat (k + 1) /\
    100 < length (trim (Chapter.content ch)).

Lemma slice_length {A : Type} (l : list A) (a n : nat) :
  length (slice l a (a + n)) = Nat.min n (length l - a).
Proof.
  unfold slice. replace (a + n - a) with n by lia.
  rewrite length_firstn, length_skipn. reflexivity.
Qed.

Lemma chunkLoop_windows (fuel : nat) (words : list str) (bookTitle : str) (k : nat) :
  Forall (IsWindow words bookTitle) (chunkLoop fuel words bookTitle (2000 * k)) /\
  Forall (fun ch => (Z.of_nat (2000 * k) <= Chapter.startIndex ch)%Z)
         (chunkLoop fuel words bookTitle (2000 * k)) /\
  StronglySorted (fun a b => (Chapter.endIndex a <= Chapter.startIndex b)%Z)
                 (chunkLoop fuel words bookTitle (2000 * k)).
Proof.
  revert k. induction fuel as [|fuel IH]; intros k; cbn [chunkLoop].
  - repeat split; constructor.
  - destruct (Nat.ltb_spec (2000 * k) (length words)) as [Hk|Hk];
      [|repeat split; constructor].
    replace (2000 * k + 2000) with (2000 * S k) by lia.
    destruct (IH (S k)) as (H1 & H2 & H3).
    assert (H2' : Forall (fun ch => (Z.of_nat (2000 * k) <= Chapter.startIndex ch)%Z)
                         (chunkLoop fuel words bookTitle (2000 * S k))).
    { eapply Forall_impl; [|exact H2]. simpl. intros ch Hch. lia. }
    replace (2000 * S k) with (2000 * k + 2000) in * by lia.
    pose proof (slice_length words (2000 * k) 2000) as Hlen.
    destruct (100 <? length (trim (join (lit " ")
                (slice words (2000 * k) (2000 * k + 2000))))) eqn:E;
      [|repeat split; assumption].
    apply Nat.ltb_lt in E. repeat split.
    + constructor; [|exact H1]. exists k. cbn [Chapter.content Chapter.wordCount
        Chapter.startIndex Chapter.endIndex Chapter.title]. unfold window.
      repeat split; try reflexivity; try lia; try exact E.
      replace (2000 * k / 2000) with k; [reflexivity|].
      rewrite Nat.mul_comm, Nat.div_mul; lia.
    + constructor; [cbn [Chapter.startIndex]; lia|exact H2'].
    + constructor; [exact H3|].
      eapply Forall_impl; [|exact H2]. cbn [Chapter.endIndex]. intros ch Hch. lia.
Qed.

Lemma chunkLoop_words (fuel : nat) (words : list str) (bookTitle : str) (i : nat) :
  list_sum (map Chapter.wordCount (chunkLoop fuel words bookTitle i)) + i
  <= Nat.max i (length words).
Proof.
  revert i. induction fuel as [|fuel IH]; intros i; cbn [chunkLoop]; [simpl; lia|].
  destruct (Nat.ltb_spec i (length words)) as [Hi|Hi]; [|simpl; lia].
  specialize (IH (i + 2000)). pose proof (slice_length words i 2000) as Hlen.
  destruct (100 <? _); simpl map; simpl list_sum; cbn [Chapter.wordCount]; lia.
Qed.

(** The fallback chunker.  Every chapter it makes is one of the windows
    of 2000 words of the text: between 1 and 2000 words joined by single
    spaces, longer than 100 code units once trimmed, numbered by its
    window; the chapters come in the order of their windows, none
    overlapping another, and together hold no more words than the text. *)
Theorem fallback_chunks_are_windows (text bookTitle : str) :
  let words := splitSpaces text in
  let chunks := createOptimizedChunks text bookTitle in
  Forall (IsWindow words bookTitle) chunks /\
  StronglySorted (fun a b => (Chapter.endIndex a <= Chapter.startIndex b)%Z) chunks /\
  list_sum (map Chapter.wordCount chunks) <= length words.
Proof.
  intros words chunks. unfold chunks, createOptimizedChunks. fold words.
  destruct (chunkLoop_windows (length words) words bookTitle 0) as (H1 & _ & H3).
  change (2000 * 0) with 0 in *.
  pose proof (chunkLoop_words (length words) words bookTitle 0).
  repeat split; try assumption. lia.
Qed.

(** ** The semantic strategy *)

(** Each chapter starts where the one before it ends, the first at
    [start]. *)
Fixpoint Chain (start : Z) (chs : list Chapter.t) : Prop :=
  match chs with
  | [] => True
  | ch :: rest => Chapter.startIndex ch = start /\ Chain (Chapter.endIndex ch) rest
  end.

(** Where a chain ends. *)
Definition chainEnd (start : Z) (chs : list Chapter.t) : Z :=
  match rev chs with
  | [] => start
  | ch :: _ => Chapter.endIndex ch
  end.

Lemma Chain_snoc (start : Z) (chs : list Chapter.t) (ch : Chapter.t) :
  Chain start chs -> Chapter.startIndex ch = chainEnd start chs ->
  Chain start (chs ++ [ch]).
Proof.
  revert start. induction chs as [|c chs IH]; intros start Hc Hs; simpl in *.
  - unfold chainEnd in Hs. simpl in Hs. split; [exact Hs|exact I].
  - destruct Hc as [H1 H2]. split; [exact H1|]. apply IH; [exact H2|].
    rewrite Hs. unfold chainEnd. simpl.
    destruct (rev chs) as [|x xs] eqn:E; simpl; [|reflexivity].
    reflexivity.
Qed.

Lemma chainEnd_snoc (start : Z) (chs : list Chapter.t) (ch : Chapter.t) :
  chainEnd start (chs ++ [ch]) = Chapter.endIndex ch.
Proof. unfold chainEnd. rewrite rev_app_distr. reflexivity. Qed.

(** What the strategy makes of a span of the text. *)
Definition Spans (text : str) (ch : Chapter.t) : Prop :=
  Chapter.content ch
  = trim (substring text (Chapter.startIndex ch) (Chapter.endIndex ch)) /\
  Chapter.detectionMethod ch = lit "semantic".

Lemma semanticStep_chain (text bookTitle : str) (st : semanticState) (bp : breakPoint) :
  Chain 0 (semChapters st) /\ chapterStart st = chainEnd 0 (semChapters st) /\
  Forall (Spans text) (semChapters st) ->
  let st' := semanticStep text bookTitle st bp in
  Chain 0 (semChapters st') /\ chapterStart st' = chainEnd 0 (semChapters st') /\
  Forall (Spans text) (semChapters st').
Proof.
  intros (Hc & Hs & Hf). unfold semanticStep. cbv zeta.
  destruct (_ && (500 <? _)); cbn [semChapters chapterStart]; [|repeat split; assumption].
  split; [|split].
  - apply Chain_snoc; [exact Hc|exact Hs].
  - rewrite chainEnd_snoc. reflexivity.
  - apply Forall_app. split; [exact Hf|]. constructor; [|constructor].
    split; reflexivity.
Qed.

Lemma semantic_fold_chain (text bookTitle : str) (breaks : list breakPoint)
    (st : semanticState) :
  Chain 0 (semChapters st) /\ chapterStart st = chainEnd 0 (semChapters st) /\
  Forall (Spans text) (semChapters st) ->
  let st' := fold_left (semanticStep text bookTitle) breaks st in
  Chain 0 (semChapters st') /\ chapterStart st' = chainEnd 0 (semChapters st') /\
  Forall (Spans text) (semChapters st').
Proof.
  revert st. induction breaks as [|bp breaks IH]; intros st H; [exact H|].
  cbn [fold_left]. apply IH, semanticStep_chain, H.
Qed.

(** The semantic strategy.  Its chapters divide the text without a gap
    from the start on: the first starts at offset 0 and every other one
    where the one before it ends; each holds the trimmed text between
    its two offsets. *)
Theorem semantic_chapters_form_a_chain (text bookTitle : str) :
  let chs := chapters (detectSemanticChapters text bookTitle) in
  Chain 0 chs /\ Forall (Spans text) chs.
Proof.
  intros chs. unfold chs, detectSemanticChapters. cbv zeta.
  set (breaks := findSemanticBreaks text _).
  assert (H0 : Chain 0 (semChapters (SemanticState [] 0 1 0)) /\
               chapterStart (SemanticState [] 0 1 0)
               = chainEnd 0 (semChapters (SemanticState [] 0 1 0)) /\
               Forall (Spans text) (semChapters (SemanticState [] 0 1 0))).
  { repeat split; constructor. }
  pose proof (semantic_fold_chain text bookTitle breaks _ H0) as Hinv.
  cbv zeta in Hinv. destruct Hinv as (Hc & Hs & Hf).
  set (st := fold_left (semanticStep text bookTitle) breaks (SemanticState [] 0 1 0)) in *.
  cbn [chapters].
  destruct (chapterStart st <? Z.of_nat (length text) - 500)%Z; [|split; assumption].
  destruct (300 <? _); [|split; assumption].
  split.
  - apply Chain_snoc; [exact Hc|exact Hs].
  - apply Forall_app. split; [exact Hf|]. constructor; [|constructor].
    split; reflexivity.
Qed.

(** ** The pattern strategy *)

Lemma indexOfFrom_bound (s pat : str) (i j : nat) :
  indexOfFrom s pat i = Some j -> i <= j <= i + length s.
Proof.
  revert i. induction s as [|c s IH]; intros i; simpl.
  - destruct (isPrefix pat []); [|discriminate]. intros H. injection H as <-. lia.
  - destruct (isPrefix pat (c :: s)).
    + intros H. injection H as <-. lia.
    + intros H. apply IH in H. lia.
Qed.

Lemma indexOf_bound (s pat : str) :
  indexOf s pat = (-1)%Z \/ (0 <= indexOf s pat <= Z.of_nat (length s))%Z.
Proof.
  unfold indexOf. destruct (indexOfFrom s pat 0) as [j|] eqn:E; [right|left; reflexivity].
  apply indexOfFrom_bound in E. lia.
Qed.

Lemma matchLine_index (text : str) (p : Pattern.t) (i : nat) (rawLine : str)
    (m : LineMatch.t) :
  matchLine text p i rawLine = Some m ->
  (0 <= LineMatch.index m <= Z.of_nat (length text))%Z.
Proof.
  unfold matchLine. cbv zeta.
  destruct (_ || _); [discriminate|].
  destruct (exec _ _ _ _) as [[[st en] c]|]; [|discriminate].
  destruct (Z.eqb_spec (indexOf text (trim rawLine)) (-1)) as [E|E]; [discriminate|].
  intros H. injection H as <-. cbn [LineMatch.index].
  destruct (indexOf_bound text (trim rawLine)); [contradiction|assumption].
Qed.

Lemma matchLines_index (text : str) (p : Pattern.t) (lines : list str) (i : nat)
    (m : LineMatch.t) :
  In m (matchLines text p i lines) ->
  (0 <= LineMatch.index m <= Z.of_nat (length text))%Z.
Proof.
  revert i. induction lines as [|l lines IH]; intros i; simpl; [intros []|].
  destruct (matchLine text p i l) as [m'|] eqn:E; [|apply IH].
  intros [<-|H]; [apply (matchLine_index _ _ _ _ _ E)|apply (IH _ H)].
Qed.

Lemma trim_length (l : str) : length (trim l) <= length l.
Proof.
  destruct (ReplaceFacts.trim_piece l) as [a [b E]]. rewrite E.
  rewrite length_firstn, length_skipn. lia.
Qed.

Lemma substring_length (s : str) (a b : Z) :
  (0 <= a <= b)%Z -> (Z.of_nat (length (substring s a b)) <= b - a)%Z.
Proof.
  intros H. unfold substring, clampIndex. rewrite length_firstn, length_skipn. lia.
Qed.

(** A chapter of more than 500 code units between two offsets of the
    text. *)
Definition LongSpan (text : str) (ch : Chapter.t) : Prop :=
  (0 <= Chapter.startIndex ch)%Z /\
  (Chapter.startIndex ch + 500 < Chapter.endIndex ch)%Z /\
  (Chapter.endIndex ch <= Z.of_nat (length text))%Z.

Lemma patternChapters_spans (text : str) (lines : list str) (ms : list LineMatch.t) :
  StronglySorted (fun a b => (LineMatch.index a <= LineMatch.index b)%Z) ms ->
  (forall m, In m ms -> (0 <= LineMatch.index m <= Z.of_nat (length text))%Z) ->
  Forall (LongSpan text) (patternChapters text lines ms) /\
  Forall (fun ch => exists m, In m ms /\ Chapter.startIndex ch = LineMatch.index m)
         (patternChapters text lines ms) /\
  StronglySorted (fun a b => (Chapter.endIndex a <= Chapter.startIndex b)%Z)
                 (patternChapters text lines ms).
Proof.
  induction ms as [|m rest IH]; intros Hs Hb; cbn [patternChapters].
  - repeat split; constructor.
  - inversion Hs as [|? ? Hs' Hm]; subst.
    destruct IH as (H1 & H2 & H3); [exact Hs'|intros x Hx; apply Hb; right; exact Hx|].
    assert (H2' : Forall (fun ch => exists x, In x (m :: rest) /\
                                    Chapter.startIndex ch = LineMatch.index x)
                         (patternChapters text lines rest)).
    { eapply Forall_impl; [|exact H2]. intros ch [x [Hx E]]. exists x.
      split; [right; exact Hx|exact E]. }
    cbv zeta. destruct (Nat.ltb_spec 500 (length (Chapter.content
                          (patternChapter text lines m rest)))) as [Hlen|Hlen];
      [|repeat split; assumption].
    assert (Hend : (LineMatch.index m <= patternSpanEnd text rest
                    <= Z.of_nat (length text))%Z).
    { unfold patternSpanEnd. destruct rest as [|nx rest'].
      - pose proof (Hb m (or_introl eq_refl)). lia.
      - pose proof (Hb nx (or_intror (or_introl eq_refl))).
        pose proof (proj1 (Forall_forall _ _) Hm nx (or_introl eq_refl)) as Hle.
        cbv beta in Hle. lia. }
    pose proof (Hb m (or_introl eq_refl)) as Hm0.
    cbn [patternChapter Chapter.content] in Hlen. cbv zeta in Hlen.
    cbn [Chapter.content] in Hlen.
    pose proof (trim_length (substring text (LineMatch.index m) (patternSpanEnd text rest)))
      as Ht.
    pose proof (substring_length text (LineMatch.index m) (patternSpanEnd text rest)
                  ltac:(lia)) as Hsub.
    repeat split.
    + constructor; [|exact H1].
      unfold LongSpan. cbn [patternChapter Chapter.startIndex Chapter.endIndex]. lia.
    + constructor; [|exact H2']. exists m. split; [left; reflexivity|reflexivity].
    + constructor; [exact H3|].
      apply Forall_forall. intros ch Hch.
      pose proof (proj1 (Forall_forall _ _) H2 ch Hch) as [x [Hx E]].
      cbn [patternChapter Chapter.endIndex]. rewrite E.
      unfold patternSpanEnd. destruct rest as [|nx rest']; [destruct Hx|].
      destruct Hx as [<-|Hx]; [lia|].
      inversion Hs' as [|? ? _ Hnx]; subst.
      apply (proj1 (Forall_forall _ _) Hnx x Hx).
Qed.

(** The pattern strategy.  Its chapters are spans of the text of more
    than 500 code units, in the order of the text, and no span reaches
    into the next one. *)
Theorem pattern_chapters_do_not_overlap (text : str) :
  let chs := chapters (detectPatternBasedChapters text) in
  Forall (LongSpan text) chs /\
  StronglySorted (fun a b => (Chapter.endIndex a <= Chapter.startIndex b)%Z) chs.
Proof.
  intros chs. unfold chs.
  destruct (PatternFacts.pattern_strategy_for_tier text) as (_ & Hnone & Hsome).
  destruct (PatternFacts.tier_cases text) as [H|[p (Hp & H2 & Hmax)]].
  - rewrite (Hnone H). split; constructor.
  - destruct (Hsome p Hp H2 Hmax) as (_ & ms & Hperm & Hsorted & Hch & _).
    rewrite Hch.
    destruct (patternChapters_spans text (splitOn LF text) ms Hsorted) as (H1 & _ & H3).
    + intros m Hm. apply (Permutation_in _ Hperm) in Hm.
      apply (matchLines_index _ _ _ _ _ Hm).
    + split; assumption.
Qed.

End SpanFacts.

(* ================================================================== *)
(** * Facts about the confidences the detector reports *)
(* ================================================================== *)

Module GradeFacts.

Import JS Detect.

(** Between 0.3 and 1. *)
Definition InRange (q : Q) : Prop := (3 # 10 <= q)%Q /\ (q <= 1)%Q.

Definition GradedChapter (ch : Chapter.t) : Prop :=
  InRange (Chapter.confidence ch) /\
  match Chapter.boundary_strength ch with
  | Some b => InRange b
  | None => True
  end.

Definition Graded (r : DetectionResult) : Prop :=
  InRange (confidence r) /\ Forall GradedChapter (chapters r).

Lemma capped (s : Q) : (3 # 10 <= s)%Q -> InRange (Qmin s 1).
Proof.
  intros H. split; [apply Q.min_glb; [exact H|discriminate]|apply Q.le_min_r].
Qed.

Lemma bumped (s c : Q) (b : bool) :
  (3 # 10 <= s)%Q -> (0 <= c)%Q -> (3 # 10 <= if b then s + c else s)%Q.
Proof. intros Hs Hc. destruct b; [lra|exact Hs]. Qed.

Lemma boundaryStrength_range (lines : list str) (lineNum : nat) :
  InRange (calculateBoundaryStrength lines lineNum).
Proof.
  unfold calculateBoundaryStrength. cbv zeta. apply capped.
  apply bumped; [|discriminate]. apply bumped; [|discriminate].
  destruct (if 0 <? lineNum then _ else _); [|discriminate].
  destruct (if lineNum <? _ then _ else _); discriminate.
Qed.

Lemma structuralBreakStrength_range (beforeText afterText : str) :
  InRange (calculateStructuralBreakStrength beforeText afterText).
Proof.
  unfold calculateStructuralBreakStrength. cbv zeta. apply capped.
  apply bumped; [|discriminate]. apply bumped; discriminate.
Qed.

Lemma addMarkers_ge (currentLower : str) (markers : list String.string) (step shift : Q) :
  (0 <= step)%Q -> (3 # 10 <= shift)%Q ->
  (3 # 10 <= addMarkers currentLower markers step shift)%Q.
Proof.
  intros Hstep. unfold addMarkers. revert shift.
  induction markers as [|m markers IH]; intros shift Hs; [exact Hs|].
  cbn [fold_left]. apply IH. apply bumped; assumption.
Qed.

Lemma semanticShift_range (prev current next : str) :
  InRange (calculateSemanticShift prev current next).
Proof.
  unfold calculateSemanticShift. cbv zeta. apply capped.
  repeat (apply addMarkers_ge; [discriminate|]). discriminate.
Qed.

Lemma structuralBreaksFrom_range (before : str) (parts : list str) (currentIndex : Z) :
  Forall (fun bp => InRange (strength bp)) (structuralBreaksFrom before parts currentIndex).
Proof.
  revert before currentIndex. induction parts as [|part rest IH];
    intros before currentIndex; cbn [structuralBreaksFrom]; [constructor|].
  cbv zeta. destruct (Qgtb _ _); [|apply IH].
  constructor; [apply structuralBreakStrength_range|apply IH].
Qed.

Lemma structuralChapters_graded (text : str) (i : nat) (breaks : list breakPoint) :
  Forall (fun bp => InRange (strength bp)) breaks ->
  Forall GradedChapter (structuralChapters text i breaks).
Proof.
  revert i. induction breaks as [|bp rest IH]; intros i Hb; cbn [structuralChapters];
    [constructor|].
  inversion Hb as [|? ? Hbp Hrest]; subst. cbv zeta.
  destruct (1000 <? _); [|apply IH, Hrest].
  constructor; [|apply IH, Hrest]. split; exact Hbp.
Qed.

Lemma findSemanticBreaks_range (text : str) (sentences : list str) :
  Forall (fun bp => InRange (strength bp)) (findSemanticBreaks text sentences).
Proof.
  induction sentences as [|prev rest IH]; [constructor|].
  cbn [findSemanticBreaks]. destruct rest as [|current [|next rest']]; try constructor.
  cbv zeta. destruct (Qgtb _ _); [|exact IH].
  destruct (_ =? -1)%Z; [exact IH|].
  constructor; [apply semanticShift_range|exact IH].
Qed.

Lemma semanticStep_graded (text bookTitle : str) (st : semanticState) (bp : breakPoint) :
  InRange (strength bp) -> Forall GradedChapter (semChapters st) ->
  Forall GradedChapter (semChapters (semanticStep text bookTitle st bp)).
Proof.
  intros Hbp Hst. unfold semanticStep. cbv zeta.
  destruct (_ && (500 <? _)); cbn [semChapters]; [|exact Hst].
  apply Forall_app. split; [exact Hst|]. constructor; [|constructor]. split; exact Hbp.
Qed.

Lemma semantic_fold_graded (text bookTitle : str) (breaks : list breakPoint)
    (st : semanticState) :
  Forall (fun bp => InRange (strength bp)) breaks ->
  Forall GradedChapter (semChapters st) ->
  Forall GradedChapter (semChapters (fold_left (semanticStep text bookTitle) breaks st)).
Proof.
  revert st. induction breaks as [|bp breaks IH]; intros st Hb Hst; [exact Hst|].
  inversion Hb as [|? ? Hbp Hrest]; subst. cbn [fold_left].
  apply IH; [exact Hrest|]. apply semanticStep_graded; assumption.
Qed.

Lemma adaptiveLoop_graded (fuel : nat) (words : list str) (config : envelope)
    (s : strategy) (bookTitle : str) (chapterStart chapterNum : nat) :
  Forall GradedChapter (adaptiveLoop fuel words config s bookTitle chapterStart chapterNum).
Proof.
  revert chapterStart chapterNum. induction fuel as [|fuel IH];
    intros chapterStart chapterNum; cbn [adaptiveLoop]; [constructor|].
  destruct (chapterStart <? length words); [|constructor]. cbv zeta.
  destruct (100 <? _); [|apply IH].
  constructor; [|apply IH]. split; [split; discriminate|exact I].
Qed.

Lemma chunkLoop_graded (fuel : nat) (words : list str) (bookTitle : str) (i : nat) :
  Forall GradedChapter (chunkLoop fuel words bookTitle i).
Proof.
  revert i. induction fuel as [|fuel IH]; intros i; cbn [chunkLoop]; [constructor|].
  destruct (i <? length words); [|constructor]. cbv zeta.
  destruct (100 <? _); [|apply IH].
  constructor; [|apply IH]. split; [split; discriminate|exact I].
Qed.

Lemma sum_confidence_bounds (chs : list Chapter.t) (a : Q) (k : nat) :
  Forall GradedChapter chs ->
  ((3 # 10) * inject_Z (Z.of_nat k) <= a)%Q -> (a <= inject_Z (Z.of_nat k))%Q ->
  ((3 # 10) * inject_Z (Z.of_nat (k + length chs))
   <= fold_left (fun sum ch => sum + Chapter.confidence ch) chs a)%Q /\
  (fold_left (fun sum ch => sum + Chapter.confidence ch) chs a
   <= inject_Z (Z.of_nat (k + length chs)))%Q.
Proof.
  revert a k. induction chs as [|ch chs IH]; intros a k Hg Hlo Hhi.
  - rewrite Nat.add_0_r. split; assumption.
  - inversion Hg as [|? ? [[H1 H2] _] Hg']; subst. cbn [fold_left length].
    replace (k + S (length chs)) with (S k + length chs) by lia.
    assert (E : (inject_Z (Z.of_nat (S k)) == inject_Z (Z.of_nat k) + 1)%Q).
    { rewrite Nat2Z.inj_succ. unfold Z.succ. rewrite inject_Z_plus. reflexivity. }
    apply IH; [exact Hg'| |]; rewrite E; lra.
Qed.

Lemma averageConfidence_range (chs : list Chapter.t) (default : Q) :
  InRange default -> Forall GradedChapter chs -> InRange (averageConfidence chs default).
Proof.
  intros Hd Hg. unfold averageConfidence. destruct chs as [|ch chs]; [exact Hd|].
  set (l := ch :: chs) in *.
  assert (H0 : ((3 # 10) * inject_Z (Z.of_nat 0) <= 0)%Q) by discriminate.
  assert (H1 : (0 <= inject_Z (Z.of_nat 0))%Q) by discriminate.
  destruct (sum_confidence_bounds l 0 0 Hg H0 H1) as [Hlo Hhi].
  cbn [Nat.add] in Hlo, Hhi.
  assert (Hn : (0 < inject_Z (Z.of_nat (length l)))%Q).
  { change 0%Q with (inject_Z 0). rewrite <- Zlt_Qlt. unfold l. simpl. lia. }
  split.
  - apply Qle_shift_div_l; [exact Hn|exact Hlo].
  - apply Qle_shift_div_r; [exact Hn|]. lra.
Qed.

Lemma pattern_graded (text : str) :
  chapters (detectPatternBasedChapters text) <> [] ->
  Graded (detectPatternBasedChapters text).
Proof.
  intros Hne.
  destruct (PatternFacts.pattern_strategy_for_tier text) as (_ & Hnone & Hsome).
  destruct (PatternFacts.tier_cases text) as [H|[p (Hp & H2 & Hmax)]];
    [contradiction (Hne (Hnone H))|].
  destruct (Hsome p Hp H2 Hmax) as (Hconf & ms & _ & _ & _ & Hin).
  assert (Hpr : InRange (Pattern.confidence p)).
  { destruct Hp as [<-|[<-|[<-|[<-|[]]]]]; split; discriminate. }
  split; [rewrite Hconf; exact Hpr|].
  apply Forall_forall. intros ch Hch. apply Hin in Hch.
  destruct Hch as (pre & m & post & _ & _ & _ & _ & _ & _ & Hc & _ & E).
  split; [rewrite Hc; exact Hpr|].
  rewrite E. cbn [patternChapter Chapter.boundary_strength]. apply boundaryStrength_range.
Qed.

Lemma structural_graded (text : str) : Graded (detectStructuralChapters text).
Proof.
  unfold detectStructuralChapters. cbv zeta.
  set (breaks := sortBy breakByIndex _).
  assert (Hb : Forall (fun bp => InRange (strength bp)) breaks).
  { apply Forall_forall. intros bp Hbp. unfold breaks in Hbp.
    apply (proj1 (JSFacts.sortBy_In _ _ _)) in Hbp.
    unfold findStructuralBreaks in Hbp.
    destruct (split noFlags text _) as [|first rest]; [destruct Hbp|].
    apply (proj1 (Forall_forall _ _) (structuralBreaksFrom_range _ _ _) bp Hbp). }
  pose proof (structuralChapters_graded text 0 breaks Hb) as Hc.
  split; [|exact Hc]. cbn [confidence].
  apply averageConfidence_range; [split; discriminate|exact Hc].
Qed.

Lemma semantic_graded (text bookTitle : str) :
  Graded (detectSemanticChapters text bookTitle).
Proof.
  unfold detectSemanticChapters. cbv zeta.
  set (breaks := findSemanticBreaks text _).
  assert (Hb : Forall (fun bp => InRange (strength bp)) breaks)
    by apply findSemanticBreaks_range.
  pose proof (semantic_fold_graded text bookTitle breaks (SemanticState [] 0 1 0) Hb
                (Forall_nil _)) as Hst.
  set (st := fold_left (semanticStep text bookTitle) breaks (SemanticState [] 0 1 0)) in *.
  set (chs := if (chapterStart st <? _)%Z then _ else _).
  assert (Hc : Forall GradedChapter chs).
  { unfold chs. destruct (chapterStart st <? _)%Z; [|exact Hst].
    destruct (300 <? _); [|exact Hst].
    apply Forall_app. split; [exact Hst|]. constructor; [|constructor].
    split; split; discriminate. }
  split; [|exact Hc]. cbn [confidence].
  apply averageConfidence_range; [split; discriminate|exact Hc].
Qed.

Lemma adaptive_graded (text : str) (book : bookInfo) :
  Graded (detectAdaptiveChapters text book).
Proof.
  unfold detectAdaptiveChapters. cbv zeta.
  split; [split; discriminate|]. apply adaptiveLoop_graded.
Qed.

(** The confidences of the detector.  Every result that the four
    strategies, or the fallback chunker in their place, hand to the
    selection has a confidence between 0.3 and 1, and so has every
    chapter of it, for its confidence and for its boundary strength. *)
Theorem detector_confidences_in_range (text : str) (book : bookInfo) :
  Forall Graded (runParallelDetection text book (runStrategies text book)).
Proof.
  apply Forall_forall. intros r Hr.
  destruct (SelectFacts.runParallelDetection_cases text book (runStrategies text book))
    as [[_ E]|[r0 [rs [Hu E]]]]; rewrite E in Hr.
  - destruct Hr as [<-|[]]. unfold SelectFacts.fallbackResult.
    split; [split; discriminate|]. apply chunkLoop_graded.
  - rewrite <- Hu in Hr. apply SelectFacts.usable_In in Hr. destruct Hr as [Hin Hne].
    destruct Hin as [H|[H|[H|[H|[]]]]]; injection H as <-.
    + apply pattern_graded, Hne.
    + apply structural_graded.
    + apply semantic_graded.
    + apply adaptive_graded.
Qed.

End GradeFacts.

(* ================================================================== *)
(** * Facts about the enhancement of a chapter and of a batch *)
(* ================================================================== *)

Module EnhanceAIFacts.

Import JS EnhanceAI.

(** A request that went wrong. *)
Definition wentWrong (r : reply) : bool :=
  match r with Answered _ => false | _ => true end.

Lemma substring_prefix_length (s : str) (b : Z) :
  length (substring s 0 b) = Nat.min (Z.to_nat b) (length s).
Proof.
  unfold substring, clampIndex.
  assert (E0 : Z.to_nat (Z.min (Z.max 0 0) (Z.of_nat (length s))) = 0) by lia.
  assert (E1 : Z.to_nat (Z.min (Z.max b 0) (Z.of_nat (length s)))
               = Nat.min (Z.to_nat b) (length s)) by lia.
  rewrite E0, E1. cbn [Nat.min Nat.max]. rewrite Nat.sub_0_r. cbn [skipn].
  rewrite length_firstn. lia.
Qed.

(** A result is well formed: that of the model has a title of 1 to 200
    code units, a content that is not empty, a summary of 1 to 500 code
    units and at most 5 quotes; the stand-in has the title and the
    content of the chapter and no quote. *)
Definition WellFormed (chapter : ChapterData) (res : EnhancementResult) : Prop :=
  match r_model res with
  | gpt_4o_mini =>
      1 <= length (r_title res) <= 200 /\ truthy (r_content res) = true /\
      1 <= length (r_summary res) <= 500 /\ length (r_keyQuotes res) <= 5
  | fallback =>
      r_title res = title chapter /\ r_content res = Text (content chapter) /\
      r_keyQuotes res = []
  end.

Lemma accept_wellFormed (chapter : ChapterData) (bookTitle : str)
    (parsed : option enhancementJson) :
  WellFormed chapter (accept chapter bookTitle parsed).
Proof.
  unfold accept, WellFormed. destruct parsed as [e|]; [|repeat split].
  destruct (truthy (e_title e)) eqn:Ht; [|repeat split].
  destruct (truthy (e_content e)) eqn:Hc; [|repeat split].
  destruct (truthy (e_summary e)) eqn:Hs; [|repeat split].
  cbn [negb orb].
  destruct (e_title e) as [t|b1]; [|repeat split].
  destruct (e_summary e) as [s|b2]; [|repeat split].
  destruct t as [|c1 t]; [discriminate|]. destruct s as [|c3 s]; [discriminate|].
  cbn [r_model r_title r_content r_summary r_keyQuotes].
  rewrite (substring_prefix_length (c1 :: t) 200).
  rewrite (substring_prefix_length (c3 :: s) 500).
  change (Z.to_nat 200) with 200. change (Z.to_nat 500) with 500.
  cbn [length]. split; [lia|]. split; [exact Hc|]. split; [lia|].
  destruct (e_keyQuotes e) as [q|]; [|simpl; lia].
  unfold slice. rewrite length_firstn. lia.
Qed.

Lemma enhanceFrom_spec (replies : nat -> reply) (chapter : ChapterData) (bookTitle : str)
    (fuel k : nat) :
  k <= maxRetries -> maxRetries + 2 <= fuel + k ->
  let '(r, n) := enhanceFrom replies chapter bookTitle fuel k in
  1 <= n /\ k + n <= maxRetries + 1 /\
  (forall j, k <= j < k + n - 1 -> wentWrong (replies j) = true) /\
  match r with
  | Some res =>
      exists parsed, replies (k + n - 1) = Answered parsed /\
                     res = accept chapter bookTitle parsed
  | None => k + n = maxRetries + 1 /\ wentWrong (replies (k + n - 1)) = true
  end.
Proof.
  unfold maxRetries. revert k. induction fuel as [|fuel IH]; intros k Hk Hf; [lia|].
  cbn [enhanceFrom]. unfold maxRetries. rewrite (proj2 (Nat.leb_le k 3) Hk).
  assert (Hretry :
    wentWrong (replies k) = true ->
    let '(r, n) :=
      (let '(r, n) := enhanceFrom replies chapter bookTitle fuel (S k) in (r, S n)) in
    1 <= n /\ k + n <= 3 + 1 /\
    (forall j, k <= j < k + n - 1 -> wentWrong (replies j) = true) /\
    match r with
    | Some res =>
        exists parsed, replies (k + n - 1) = Answered parsed /\
                       res = accept chapter bookTitle parsed
    | None => k + n = 3 + 1 /\ wentWrong (replies (k + n - 1)) = true
    end).
  { intros Er. destruct (Nat.eq_dec k 3) as [->|Hne].
    - destruct fuel as [|fuel']; [lia|]. cbn [enhanceFrom]. unfold maxRetries.
      cbn [Nat.leb]. split; [lia|]. split; [lia|]. split; [intros j Hj; lia|].
      split; [lia|]. exact Er.
    - specialize (IH (S k) ltac:(lia) ltac:(lia)).
      destruct (enhanceFrom replies chapter bookTitle fuel (S k)) as [r n].
      destruct IH as (H1 & H2 & H3 & H4).
      split; [lia|]. split; [lia|]. split.
      + intros j Hj. destruct (Nat.eq_dec j k) as [->|Hjk]; [exact Er|].
        apply H3. lia.
      + replace (k + S n - 1) with (S k + n - 1) by lia.
        replace (k + S n) with (S k + n) by lia. exact H4. }
  destruct (replies k) as [|status|parsed] eqn:Er.
  - apply Hretry. reflexivity.
  - apply Hretry. reflexivity.
  - split; [lia|]. split; [lia|]. split; [intros j Hj; lia|].
    exists parsed. replace (k + 1 - 1) with k by lia. split; [exact Er|reflexivity].
Qed.

(** The enhancement of a chapter.  It makes between 1 and 4 requests,
    stopping at the first that is answered.  It gives up, returning no
    result, exactly when all 4 went wrong; a result is that of the
    first answer: the answer itself, cut to size, when it has the
    expected shape, and the chapter as it is otherwise. *)
Theorem enhancement_makes_at_most_four_requests (replies : nat -> reply)
    (chapter : ChapterData) (bookTitle : str) :
  let '(r, n) := enhanceChapterWithAI replies chapter bookTitle in
  1 <= n <= 4 /\
  (forall j, j < n - 1 -> wentWrong (replies j) = true) /\
  (r = None <-> forall j, j < 4 -> wentWrong (replies j) = true) /\
  match r with
  | Some res =>
      wentWrong (replies (n - 1)) = false /\ WellFormed chapter res
  | None => n = 4
  end.
Proof.
  unfold enhanceChapterWithAI.
  pose proof (enhanceFrom_spec replies chapter bookTitle (maxRetries + 2) 0
                ltac:(unfold maxRetries; lia) ltac:(lia)) as H.
  destruct (enhanceFrom replies chapter bookTitle (maxRetries + 2) 0) as [r n].
  unfold maxRetries in *. cbn [Nat.add] in H. destruct H as (H1 & H2 & H3 & H4).
  split; [lia|]. split; [intros j Hj; apply H3; lia|].
  destruct r as [res|].
  - destruct H4 as [parsed [Ea ->]]. split; [|split].
    + split; [discriminate|]. intros Hall.
      assert (Hw : wentWrong (replies (n - 1)) = true) by (apply Hall; lia).
      rewrite Ea in Hw. discriminate.
    + rewrite Ea. reflexivity.
    + apply accept_wellFormed.
  - destruct H4 as [En Hlast]. split; [|lia].
    split; [|reflexivity]. intros _ j Hj.
    destruct (Nat.eq_dec j (n - 1)) as [->|Hne]; [exact Hlast|apply H3; lia].
Qed.

Section Batch.

Variable replies : N -> nat -> reply.
Variable updateOk : N -> bool.
Variable markOk : N -> bool.
Variable bookTitle : str.

(** What the batch does to the row of a chapter. *)
Definition verdict (chapter : ChapterData) : option Schema.enhancementStatus :=
  match fst (enhanceChapterWithAI (replies (id chapter)) chapter bookTitle) with
  | Some _ =>
      if updateOk (id chapter) then Some Schema.completed
      else if markOk (id chapter) then Some Schema.failed else None
  | None => None
  end.

Definition succeeded (chapter : ChapterData) : bool :=
  match fst (enhanceChapterWithAI (replies (id chapter)) chapter bookTitle) with
  | Some _ => updateOk (id chapter)
  | None => false
  end.

Definition statusOf (k : N) (t : list chapterRow) : option (option Schema.enhancementStatus) :=
  option_map enhancement_status (find (fun r => (row_id r =? k)%N) t).

Lemma setStatus_ids (k : N) (s : Schema.enhancementStatus) (t : list chapterRow) :
  map row_id (setStatus k s t) = map row_id t.
Proof.
  unfold setStatus. rewrite map_map. apply map_ext. intros r.
  destruct (row_id r =? k)%N; reflexivity.
Qed.

Lemma statusOf_setStatus (k k' : N) (s : Schema.enhancementStatus) (t : list chapterRow) :
  statusOf k' (setStatus k s t)
  = if (k' =? k)%N then option_map (fun _ => Some s) (statusOf k' t) else statusOf k' t.
Proof.
  unfold statusOf, setStatus. induction t as [|r t IH]; cbn [map find].
  - destruct (k' =? k)%N; reflexivity.
  - destruct (N.eqb_spec (row_id r) k) as [E|E]; cbn [row_id].
    + destruct (N.eqb_spec (row_id r) k') as [E'|E'].
      * rewrite (proj2 (N.eqb_eq k' k)) by congruence. reflexivity.
      * exact IH.
    + destruct (N.eqb_spec (row_id r) k') as [E'|E']; [|exact IH].
      rewrite (proj2 (N.eqb_neq k' k)) by congruence. reflexivity.
Qed.

Lemma enhanceOne_spec (t : list chapterRow) (results : BatchResult) (last : bool)
    (chapter : ChapterData) :
  let '(t', results') := enhanceOne replies updateOk markOk bookTitle (t, results) last chapter in
  map row_id t' = map row_id t /\
  processedChapters results' = processedChapters results + 1 /\
  successfulEnhancements results'
  = successfulEnhancements results + (if succeeded chapter then 1 else 0) /\
  failedEnhancements results'
  = failedEnhancements results + (if succeeded chapter then 0 else 1) /\
  rateLimitDelays results' = rateLimitDelays results + (if last then 0 else 1) /\
  forall k, statusOf k t'
            = if (k =? id chapter)%N
              then match verdict chapter with
                   | Some s => option_map (fun _ => Some s) (statusOf k t)
                   | None => statusOf k t
                   end
              else statusOf k t.
Proof.
  unfold enhanceOne, succeeded, verdict.
  destruct (fst (enhanceChapterWithAI (replies (id chapter)) chapter bookTitle)) as [res|].
  - destruct (updateOk (id chapter)).
    + cbn [processedChapters successfulEnhancements failedEnhancements rateLimitDelays].
      repeat split; try lia; try (destruct last; lia).
      * apply setStatus_ids.
      * intros k. apply statusOf_setStatus.
    + cbn [processedChapters successfulEnhancements failedEnhancements rateLimitDelays].
      repeat split; try lia; try (destruct last; lia).
      * destruct (markOk (id chapter)); [apply setStatus_ids|reflexivity].
      * intros k. destruct (markOk (id chapter)); [apply statusOf_setStatus|].
        destruct (k =? id chapter)%N; reflexivity.
  - cbn [processedChapters successfulEnhancements failedEnhancements rateLimitDelays].
    repeat split; try lia; try (destruct last; lia).
    intros k. destruct (k =? id chapter)%N; reflexivity.
Qed.

Lemma enhanceLoop_spec (chapters : list ChapterData) (t : list chapterRow)
    (results : BatchResult) :
  NoDup (map id chapters) ->
  let '(t', results') := enhanceLoop replies updateOk markOk bookTitle (t, results) chapters in
  map row_id t' = map row_id t /\
  processedChapters results' = processedChapters results + length chapters /\
  successfulEnhancements results'
  = successfulEnhancements results + length (filter succeeded chapters) /\
  failedEnhancements results'
  = failedEnhancements results + (length chapters - length (filter succeeded chapters)) /\
  rateLimitDelays results' = rateLimitDelays results + (length chapters - 1) /\
  (forall chapter, In chapter chapters ->
     statusOf (id chapter) t'
     = match verdict chapter with
       | Some s => option_map (fun _ => Some s) (statusOf (id chapter) t)
       | None => statusOf (id chapter) t
       end) /\
  (forall k, ~ In k (map id chapters) -> statusOf k t' = statusOf k t).
Proof.
  revert t results. induction chapters as [|chapter rest IH]; intros t results Hnd.
  - cbn [enhanceLoop length filter]. repeat split; try lia. intros ch [].
  - cbn [enhanceLoop]. inversion Hnd as [|? ? Hfresh Hnd']; subst.
    set (last := match rest with [] => true | _ => false end).
    pose proof (enhanceOne_spec t results last chapter) as H1.
    destruct (enhanceOne replies updateOk markOk bookTitle (t, results) last chapter)
      as [t1 results1].
    destruct H1 as (Hid1 & Hp1 & Hs1 & Hf1 & Hd1 & Hst1).
    specialize (IH t1 results1 Hnd').
    destruct (enhanceLoop replies updateOk markOk bookTitle (t1, results1) rest)
      as [t2 results2].
    destruct IH as (Hid2 & Hp2 & Hs2 & Hf2 & Hd2 & Hst2 & Hother2).
    pose proof (filter_length_le succeeded rest) as Hle.
    cbn [length filter map].
    assert (Hlast : (if last then 0 else 1) + (length rest - 1) = length rest).
    { unfold last. destruct rest; simpl; lia. }
    repeat split.
    + congruence.
    + lia.
    + rewrite Hs2, Hs1. destruct (succeeded chapter); cbn [length]; lia.
    + rewrite Hf2, Hf1. destruct (succeeded chapter); cbn [length]; lia.
    + rewrite Hd2, Hd1. replace (S (length rest) - 1) with (length rest) by lia. lia.
    + intros ch [<-|Hin].
      * rewrite (Hother2 (id chapter) Hfresh), Hst1, N.eqb_refl. reflexivity.
      * rewrite (Hst2 ch Hin), Hst1.
        assert (Hne : (id ch =? id chapter)%N = false).
        { apply N.eqb_neq. intros E. apply Hfresh. rewrite <- E. apply in_map, Hin. }
        rewrite Hne. reflexivity.
    + intros k Hk. rewrite Hother2 by (intros H; apply Hk; right; exact H).
      rewrite Hst1. rewrite (proj2 (N.eqb_neq k (id chapter))); [reflexivity|].
      intros E. apply Hk. left. symmetry. exact E.
Qed.

(** A batch.  Every chapter is processed and counted once, as a success
    when its enhancement returned a result and the update of its row
    went through, as a failure otherwise; there is one delay between
    two chapters.  The row of a success is marked completed; a row is
    marked failed only when its update raised; the row of a chapter
    whose enhancement gave up, and every row outside the batch, is left
    as it was. *)
Theorem batch_counts_and_marks (chapters : list ChapterData) (t : list chapterRow) :
  NoDup (map id chapters) ->
  let '(t', results) :=
    enhanceChaptersWithRateLimit replies updateOk markOk bookTitle chapters t in
  processedChapters results = length chapters /\
  successfulEnhancements results = length (filter succeeded chapters) /\
  successfulEnhancements results + failedEnhancements results = length chapters /\
  rateLimitDelays results = length chapters - 1 /\
  map row_id t' = map row_id t /\
  (forall chapter, In chapter chapters ->
     statusOf (id chapter) t'
     = match verdict chapter with
       | Some s => option_map (fun _ => Some s) (statusOf (id chapter) t)
       | None => statusOf (id chapter) t
       end) /\
  (forall k, ~ In k (map id chapters) -> statusOf k t' = statusOf k t).
Proof.
  intros Hnd. unfold enhanceChaptersWithRateLimit.
  pose proof (enhanceLoop_spec chapters t (MakeBatch 0 0 0 0) Hnd) as H.
  destruct (enhanceLoop replies updateOk markOk bookTitle (t, MakeBatch 0 0 0 0) chapters)
    as [t' results].
  cbn [processedChapters successfulEnhancements failedEnhancements rateLimitDelays] in H.
  destruct H as (H1 & H2 & H3 & H4 & H5 & H6 & H7).
  pose proof (filter_length_le succeeded chapters).
  repeat split; try assumption; lia.
Qed.

Definition hasResult (chapter : ChapterData) : bool :=
  match fst (enhanceChapterWithAI (replies (id chapter)) chapter bookTitle) with
  | Some _ => true
  | None => false
  end.

(** What a batch makes of a row. *)
Definition mark (chapters : list ChapterData) (r : chapterRow) : chapterRow :=
  match find (fun c => (id c =? row_id r)%N) chapters with
  | Some c =>
      match verdict c with
      | Some s => MakeRow (row_id r) (Some s)
      | None => r
      end
  | None => r
  end.

Lemma enhanceOne_table (t : list chapterRow) (results : BatchResult) (last : bool)
    (chapter : ChapterData) :
  fst (enhanceOne replies updateOk markOk bookTitle (t, results) last chapter)
  = map (mark [chapter]) t.
Proof.
  assert (Hset : forall s, verdict chapter = Some s ->
                 setStatus (id chapter) s t = map (mark [chapter]) t).
  { intros s Hv. unfold setStatus, mark. apply map_ext. intros r. cbn [find].
    rewrite (N.eqb_sym (id chapter) (row_id r)).
    destruct (row_id r =? id chapter)%N; [rewrite Hv|]; reflexivity. }
  assert (Hkeep : verdict chapter = None -> t = map (mark [chapter]) t).
  { intros Hv. rewrite <- (map_id t) at 1. apply map_ext. intros r.
    unfold mark. cbn [find]. destruct (id chapter =? row_id r)%N; [rewrite Hv|]; reflexivity. }
  unfold enhanceOne. unfold verdict in Hset, Hkeep.
  destruct (fst (enhanceChapterWithAI (replies (id chapter)) chapter bookTitle)) as [res|].
  - destruct (updateOk (id chapter)); cbn [fst].
    + apply Hset. reflexivity.
    + destruct (markOk (id chapter)); [apply Hset|apply Hkeep]; reflexivity.
  - cbn [fst]. apply Hkeep. reflexivity.
Qed.

Lemma mark_id (chapters : list ChapterData) (r : chapterRow) :
  row_id (mark chapters r) = row_id r.
Proof.
  unfold mark. destruct (find _ chapters) as [c|]; [|reflexivity].
  destruct (verdict c); reflexivity.
Qed.

Lemma find_fresh (chapters : list ChapterData) (k : N) :
  ~ In k (map id chapters) -> find (fun c => (id c =? k)%N) chapters = None.
Proof.
  induction chapters as [|c rest IH]; intros Hk; [reflexivity|]. cbn [find].
  destruct (N.eqb_spec (id c) k) as [E|E]; [exfalso; apply Hk; left; exact E|].
  apply IH. intros H. apply Hk. right. exact H.
Qed.

Lemma find_member (chapters : list ChapterData) (c : ChapterData) :
  NoDup (map id chapters) -> In c chapters ->
  find (fun c' => (id c' =? id c)%N) chapters = Some c.
Proof.
  induction chapters as [|c0 rest IH]; intros Hnd Hin; [destruct Hin|].
  inversion Hnd as [|? ? Hfresh Hnd']; subst. cbn [find].
  destruct Hin as [->|Hin]; [rewrite N.eqb_refl; reflexivity|].
  destruct (N.eqb_spec (id c0) (id c)) as [E|E]; [|apply IH; assumption].
  exfalso. apply Hfresh. rewrite E. apply in_map, Hin.
Qed.

Lemma enhanceLoop_table (chapters : list ChapterData) (t : list chapterRow)
    (results : BatchResult) :
  NoDup (map id chapters) ->
  fst (enhanceLoop replies updateOk markOk bookTitle (t, results) chapters)
  = map (mark chapters) t.
Proof.
  revert t results. induction chapters as [|chapter rest IH]; intros t results Hnd.
  - cbn [enhanceLoop fst]. rewrite <- (map_id t) at 1. apply map_ext. reflexivity.
  - cbn [enhanceLoop]. inversion Hnd as [|? ? Hfresh Hnd']; subst.
    set (last := match rest with [] => true | _ => false end).
    pose proof (enhanceOne_table t results last chapter) as H1.
    destruct (enhanceOne replies updateOk markOk bookTitle (t, results) last chapter)
      as [t1 results1].
    cbn [fst] in H1. subst t1. rewrite (IH _ results1 Hnd'), map_map.
    apply map_ext. intros r. unfold mark at 2 3. cbn [find].
    destruct (N.eqb_spec (id chapter) (row_id r)) as [E|E].
    + assert (Hnone : forall r', row_id r' = row_id r -> mark rest r' = r').
      { intros r' Er. unfold mark. rewrite Er, <- E, (find_fresh rest _ Hfresh).
        reflexivity. }
      destruct (verdict chapter); apply Hnone; reflexivity.
    + reflexivity.
Qed.

(** The last batch of a book and the status it gets.  When the rows of
    the other chapters are completed, those of the batch are still
    open and every update goes through, the book is marked completed
    when the enhancement of every chapter of the batch returned a
    result, and processing otherwise: a chapter that was given up
    leaves the book in processing, and not failed. *)
Theorem last_batch_settles_book (chapters : list ChapterData) (t : list chapterRow)
    (b : Schema.book) :
  NoDup (map id chapters) ->
  incl (map id chapters) (map row_id t) ->
  (forall c, In c chapters -> updateOk (id c) = true) ->
  (forall r, In r t -> In (row_id r) (map id chapters) ->
     enhancement_status r <> Some Schema.completed /\
     enhancement_status r <> Some Schema.failed) ->
  (forall r, In r t -> ~ In (row_id r) (map id chapters) ->
     enhancement_status r = Some Schema.completed) ->
  Schema.enhancement_status
    (Enhance.updateBookEnhancementStatus
       (Some (map enhancement_status
                (fst (enhanceChaptersWithRateLimit replies updateOk markOk bookTitle
                        chapters t))))
       b)
  = Some (if forallb hasResult chapters then Schema.completed else Schema.processing).
Proof.
  intros Hnd Hincl Hok Hopen Hdone.
  unfold enhanceChaptersWithRateLimit. rewrite (enhanceLoop_table _ _ _ Hnd).
  cbn [Enhance.updateBookEnhancementStatus Schema.enhancement_status]. f_equal.
  set (l := map enhancement_status (map (mark chapters) t)).
  unfold Enhance.overallStatus. rewrite !EnhanceFacts.fold_countOne.
  unfold Enhance.noCounts. cbn [Nat.add].
  pose proof (EnhanceFacts.occurrences_terminal l) as [Hle Hterm].
  pose proof (EnhanceFacts.occurrences_all l) as Hall.
  pose proof (EnhanceFacts.occurrences_le Schema.completed l) as Hc.
  assert (Hverdict : forall c, In c chapters ->
            verdict c = if hasResult c then Some Schema.completed else None).
  { intros c Hin. unfold verdict, hasResult. rewrite (Hok c Hin).
    destruct (fst (enhanceChapterWithAI (replies (id c)) c bookTitle)); reflexivity. }
  destruct (forallb hasResult chapters) eqn:Hall_res.
  - assert (Hl : Forall (fun s => s = Some Schema.completed) l).
    { unfold l. rewrite map_map. apply Forall_forall. intros s Hs.
      apply in_map_iff in Hs. destruct Hs as [r [<- Hr]]. unfold mark.
      destruct (find (fun c => (id c =? row_id r)%N) chapters) as [c|] eqn:Ef.
      - apply find_some in Ef. destruct Ef as [Hin _].
        rewrite (Hverdict c Hin).
        rewrite (proj1 (forallb_forall hasResult chapters) Hall_res c Hin). reflexivity.
      - apply Hdone; [exact Hr|]. intros Hin. apply in_map_iff in Hin.
        destruct Hin as [c [Ec Hin]].
        apply (find_none _ _ Ef) in Hin. rewrite Ec, N.eqb_refl in Hin. discriminate. }
    apply Hall in Hl. rewrite Hl, Nat.eqb_refl. reflexivity.
  - assert (Hex : exists c, In c chapters /\ hasResult c = false).
    { clear - Hall_res. induction chapters as [|c rest IH]; [discriminate|].
      cbn [forallb] in Hall_res. destruct (hasResult c) eqn:Ec.
      - destruct (IH Hall_res) as [c' [Hin Hc']]. exists c'. split; [right|]; assumption.
      - exists c. split; [left; reflexivity|exact Ec]. }
    destruct Hex as [c [Hin Hno]].
    assert (Hrow : In (id c) (map row_id t)) by (apply Hincl, in_map, Hin).
    apply in_map_iff in Hrow. destruct Hrow as [r [Er Hr]].
    assert (Hkept : mark chapters r = r).
    { unfold mark. rewrite Er, (find_member chapters c Hnd Hin), (Hverdict c Hin), Hno.
      reflexivity. }
    assert (Hopen_r : enhancement_status r <> Some Schema.completed /\
                      enhancement_status r <> Some Schema.failed).
    { apply Hopen; [exact Hr|]. rewrite Er. apply in_map, Hin. }
    assert (Hnt : ~ EnhanceFacts.AllTerminal l).
    { intros Ht. unfold EnhanceFacts.AllTerminal in Ht.
      rewrite Forall_forall in Ht.
      destruct (Ht (enhancement_status r)) as [E|E].
      - unfold l. rewrite map_map. apply in_map_iff. exists r.
        rewrite Hkept. split; [reflexivity|exact Hr].
      - apply (proj1 Hopen_r), E.
      - apply (proj2 Hopen_r), E. }
    assert (Hsum : Enhance.occurrences Schema.completed l
                   + Enhance.occurrences Schema.failed l <> length l).
    { intros E. apply Hnt, Hterm, E. }
    destruct (Nat.eqb_spec (Enhance.occurrences Schema.completed l) (length l)) as [E1|E1];
      [lia|].
    destruct (Nat.eqb_spec (Enhance.occurrences Schema.completed l
                            + Enhance.occurrences Schema.failed l) (length l)) as [E2|E2];
      [contradiction|reflexivity].
Qed.

End Batch.

Definition sampleChapter (k : N) : ChapterData :=
  MakeChapterData k (N.to_nat k) (lit "title") (lit "content") 60.

Lemma batch_counts_and_marks_witness :
  let replies := fun (_ : N) (_ : nat) => Answered None in
  let updateOk := fun _ : N => true in
  let markOk := fun _ : N => true in
  let chapters := [sampleChapter 1; sampleChapter 2] in
  let t := [MakeRow 1 (Some Schema.pending); MakeRow 2 (Some Schema.pending)] in
  let '(t', results) :=
    enhanceChaptersWithRateLimit replies updateOk markOk (lit "book") chapters t in
  processedChapters results = length chapters /\
  successfulEnhancements results
  = length (filter (succeeded replies updateOk (lit "book")) chapters) /\
  successfulEnhancements results + failedEnhancements results = length chapters /\
  rateLimitDelays results = length chapters - 1 /\
  map row_id t' = map row_id t /\
  (forall chapter, In chapter chapters ->
     statusOf (id chapter) t'
     = match verdict replies updateOk markOk (lit "book") chapter with
       | Some s => option_map (fun _ => Some s) (statusOf (id chapter) t)
       | None => statusOf (id chapter) t
       end) /\
  (forall k, ~ In k (map id chapters) -> statusOf k t' = statusOf k t).
Proof.
  intros replies updateOk markOk chapters t.
  apply (batch_counts_and_marks replies updateOk markOk (lit "book") chapters t).
  repeat constructor; simpl; intuition discriminate.
Defined.

Lemma last_batch_settles_book_witness :
  let replies := fun (k : N) (_ : nat) => if (k =? 1)%N then Answered None else Failed in
  let updateOk := fun _ : N => true in
  let markOk := fun _ : N => true in
  let chapters := [sampleChapter 1; sampleChapter 2] in
  let t := [MakeRow 1 (Some Schema.pending); MakeRow 2 (Some Schema.pending);
            MakeRow 3 (Some Schema.completed)] in
  Schema.enhancement_status
    (Enhance.updateBookEnhancementStatus
       (Some (map enhancement_status
                (fst (enhanceChaptersWithRateLimit replies updateOk markOk (lit "book")
                        chapters t))))
       (Schema.Book Schema.ps_completed None None None))
  = Some (if forallb (hasResult replies (lit "book")) chapters
          then Schema.completed else Schema.processing).
Proof.
  intros replies updateOk markOk chapters t.
  apply (last_batch_settles_book replies updateOk markOk (lit "book") chapters t).
  - repeat constructor; simpl; intuition discriminate.
  - intros k Hk. simpl in *. intuition.
  - intros c _. reflexivity.
  - intros r Hr Hin. simpl in Hr, Hin.
    destruct Hr as [<-|[<-|[<-|[]]]]; simpl in *;
      try (split; discriminate); intuition discriminate.
  - intros r Hr Hout. simpl in Hr, Hout.
    destruct Hr as [<-|[<-|[<-|[]]]]; simpl in *; try reflexivity;
      exfalso; apply Hout; auto.
Defined.

End EnhanceAIFacts.

(* ================================================================== *)
(** * Facts about the status report *)
(* ================================================================== *)

Module StatusReportFacts.

Import JS StatusReport.

(** The jobs of a stage that are in a given state. *)
Definition jobsIn (jobData : list jobRow) (stageName : Progress.stage)
    (s : JobQueue.jobStatus) : list jobRow :=
  filter (hasStatus s)
    (filter (fun j => Progress.stage_eqb (getJobStage (job_type j)) stageName) jobData).

(** The enhancement status of the book says something about the stage. *)
Definition overrides (enhancement : option Schema.enhancementStatus)
    (stageName : Progress.stage) : bool :=
  Progress.stage_eqb stageName Progress.enhancing_chapters
  && match enhancement with
     | Some Schema.completed | Some Schema.processing | Some Schema.failed => true
     | _ => false
     end.

Definition Consistent (progressData : list Progress.row) (jobData : list jobRow)
    (enhancement : option Schema.enhancementStatus) (s : StageStatus) : Prop :=
  (state s = completed -> (100 <= progress s)%Z) /\
  (state s = pending ->
     (progress s <= 0)%Z /\
     jobsIn jobData (name s) JobQueue.failed = [] /\
     jobsIn jobData (name s) JobQueue.completed = [] /\
     jobsIn jobData (name s) JobQueue.running = []) /\
  (overrides enhancement (name s) = false ->
     (state s = failed <-> jobsIn jobData (name s) JobQueue.failed <> []) /\
     (jobsIn jobData (name s) JobQueue.failed = [] ->
      jobsIn jobData (name s) JobQueue.completed <> [] ->
      state s = completed /\ progress s = 100%Z) /\
     (duration s <> None -> state s = completed)) /\
  (jobsIn jobData (name s) JobQueue.failed <> [] ->
   exists c m, message s = Some (c :: m)).

Lemma stageStatus_name (progressData : list Progress.row) (jobData : list jobRow)
    (enhancement : option Schema.enhancementStatus) (stageName : Progress.stage) :
  name (stageStatus progressData jobData enhancement stageName) = stageName.
Proof.
  unfold stageStatus.
  repeat match goal with
         | |- context [match ?x with _ => _ end] => destruct x
         end; reflexivity.
Qed.

Lemma stageStatus_consistent (progressData : list Progress.row) (jobData : list jobRow)
    (enhancement : option Schema.enhancementStatus) (stageName : Progress.stage) :
  Consistent progressData jobData enhancement
    (stageStatus progressData jobData enhancement stageName).
Proof.
  unfold Consistent. rewrite stageStatus_name.
  unfold stageStatus, overrides, jobsIn.
  set (stageJobs := filter _ jobData).
  destruct (filter (hasStatus JobQueue.failed) stageJobs) as [|jf lf] eqn:Ef;
  destruct (filter (hasStatus JobQueue.completed) stageJobs) as [|jc lc] eqn:Ec;
  destruct (filter (hasStatus JobQueue.running) stageJobs) as [|jr lr] eqn:Er;
  destruct (find _ progressData) as [p|];
  try (destruct (Z.leb_spec 100 (orZero (Progress.stage_progress p)));
       [|destruct (Z.ltb_spec 0 (orZero (Progress.stage_progress p)))]);
  destruct (Progress.stage_eqb stageName Progress.enhancing_chapters);
  try destruct enhancement as [[]|];
  cbn [state progress duration message name andb];
  repeat split; intros; try discriminate; try congruence; try lia;
  try (destruct (error_message jf) as [[|c m]|]; eexists; eexists; reflexivity).
Qed.

(** The report of the stages.  It lists the five stages of the pipeline
    in their order.  A stage shown as completed has a progress of 100 or
    more; a stage shown as pending has no progress and no job that is
    running, completed or failed.  Where the enhancement status of the
    book does not decide, a stage is shown as failed exactly when one of
    its jobs failed, a stage with a completed job and no failed one is
    shown as completed at 100, and only a completed stage has a
    duration.  A stage with a failed job carries a message. *)
Theorem stage_report_is_consistent (progressData : list Progress.row)
    (jobData : list jobRow) (enhancement : option Schema.enhancementStatus) :
  map name (buildStageStatuses progressData jobData enhancement) = stageOrder /\
  Forall (Consistent progressData jobData enhancement)
         (buildStageStatuses progressData jobData enhancement).
Proof.
  unfold buildStageStatuses. split.
  - rewrite map_map. rewrite <- (map_id stageOrder) at 2. apply map_ext.
    intros s. apply stageStatus_name.
  - apply Forall_forall. intros s Hs. apply in_map_iff in Hs.
    destruct Hs as [stageName [<- _]]. apply stageStatus_consistent.
Qed.

End StatusReportFacts.

(* ================================================================== *)
(** * Scenarios *)
(* ================================================================== *)

Module Scenarios.

Import JS.

(** The runtime fragment on small inputs. *)
Example split_on_spaces :
  splitSpaces (lit " a  b ") = [[]; lit "a"; lit "b"; []] /\
  splitSpaces [] = [[]].
Proof. vm_compute. split; reflexivity. Qed.

Example substring_clamps_and_swaps :
  substring (lit "hello") 4 (-3) = lit "hell" /\
  substring (lit "hello") 3 99 = lit "lo".
Proof. vm_compute. split; reflexivity. Qed.

Example sort_is_stable :
  sortBy (fun a b : Z * Z => (fst a - fst b <=? 0)%Z)
         [(2, 0); (1, 1); (2, 2); (1, 3)]%Z
  = [(1, 1); (1, 3); (2, 0); (2, 2)]%Z.
Proof. reflexivity. Qed.

Example chapter_heading_is_case_insensitive :
  option_map LineMatch.title
    (Detect.matchLine (lit "x") Detect.chapterHeading 0 (lit "  chapter iv - The End "))
  = None /\
  option_map LineMatch.title
    (Detect.matchLine (lit "chapter iv - The End") Detect.chapterHeading 0
                      (lit "  chapter iv - The End "))
  = Some (lit "Chapter iv: The End").
Proof. vm_compute. split; reflexivity. Qed.

Example caps_header_needs_capitals :
  Detect.matchLine (lit "THE END") Detect.capsHeader 0 (lit "THE END") <> None /\
  Detect.matchLine (lit "The END") Detect.capsHeader 0 (lit "The END") = None.
Proof. vm_compute. split; [discriminate|reflexivity]. Qed.

(** The cleanup pass: page numbers and "Page X of Y" lines go, form feeds
    become paragraph breaks, runs of blanks shrink. *)
Example cleanup_sample :
  Extract.cleanupExtractedText
    (lit "Hello" ++ [LF] ++ lit "12" ++ [LF] ++ lit "World   and  more" ++ [FF]
     ++ lit "next" ++ [LF] ++ lit "page 3 of 9" ++ [LF] ++ lit "end")
  = lit "Hello" ++ [LF; LF] ++ lit "World and more" ++ [LF; LF] ++ lit "next"
    ++ [LF; LF] ++ lit "end".
Proof. vm_compute. reflexivity. Qed.

(** A text with two chapter headings, each followed by 700 characters. *)
Definition filler : str := concat (repeat (lit "lorem ipsum dolor sit amet. ") 25).

Definition twoChapters : str :=
  lit "Chapter 1: Origins" ++ [LF] ++ filler ++ [LF]
  ++ lit "Chapter 2: Departure" ++ [LF] ++ filler.

Example two_headings_give_two_pattern_chapters :
  let r := Detect.detectPatternBasedChapters twoChapters in
  map Chapter.title (Detect.chapters r) = [lit "Chapter 1: Origins"; lit "Chapter 2: Departure"] /\
  map Chapter.startIndex (Detect.chapters r) = [0; 720]%Z /\
  map Chapter.endIndex (Detect.chapters r) = [720; 1441]%Z /\
  Detect.confidence r = (95 # 100)%Q.
Proof. vm_compute. repeat split. Qed.

Example two_headings_select_the_pattern_strategy :
  let book := Detect.BookInfo (lit "A Book") None in
  match Detect.selectBestDetection
          (Detect.runParallelDetection twoChapters book
             (Detect.runStrategies twoChapters book)) with
  | returns best => Detect.method (Detect.result best) = lit "pattern_based"
  | throws _ => False
  end.
Proof. vm_compute. reflexivity. Qed.

(** The queue: a job is enqueued as pending with the column defaults, and
    three reported failures use up its retries. *)
Example queue_retries :
  let t := JobQueue.enqueue_job 1 1 7 JobQueue.extract_text [] 5 None [] in
  let fail := fun now : Z => JobQueue.complete_job now 1 false in
  map (fun j => (JobQueue.status j, JobQueue.retry_count j)) t
  = [(JobQueue.pending, Some 0%Z)] /\
  map (fun j => (JobQueue.status j, JobQueue.retry_count j)) (fail 4%Z (fail 3%Z (fail 2%Z t)))
  = [(JobQueue.pending, Some 3%Z)] /\
  map (fun j => (JobQueue.status j, JobQueue.retry_count j))
      (fail 5%Z (fail 4%Z (fail 3%Z (fail 2%Z t))))
  = [(JobQueue.failed, Some 4%Z)].
Proof. vm_compute. repeat split. Qed.

Example reading_times :
  map Store.readingTime [0; 1; 200; 201; 2500] = [0; 1; 1; 2; 13].
Proof. vm_compute. reflexivity. Qed.

End Scenarios.
